(** * Weather alert system: gateway and alert evaluation, verified model

    A shallow embedding of the server's weather-acquisition gateway
    (circuit breaker, retry loop, cache, request coalescing) and of its
    two alert-evaluation paths (event-driven and scheduled), with the
    properties the specification states about them; and of the code around
    them (status reports, the alert store, the evaluation of one alert, the
    publishing gateway, live updates, the providers of the server, the API
    handling patterns), with properties read off that code.

    Conventions of the embedding:
    - a JavaScript [number] is a rational ([Q]), the exact value of a
      finite double.  Arithmetic on numbers is exact, except where a result
      is compared with a bound it may round across: the difference of two
      coordinates that is compared with a tolerance (the alert matcher and
      the live updates) and the product that the token bucket floors are
      rounded as IEEE 754 rounds them ([Double]).  [NaN] is outside the
      model.  [===] on numbers is [Qeq_bool];
    - [null] and [undefined] are both [None];
    - [Date.now()] is an integer number of milliseconds ([Z]);
    - an [async] function is a function of the state it reads that returns
      the state it leaves; what a call awaits from the outside (an upstream
      response, the time a delay ends, a random number) is an explicit
      argument;
    - a thrown exception is the [Throw] outcome of a call. *)

From Stdlib Require Import QArith Qround Qabs Qpower Qreduction ZArith Lia Lqa List String
  Ascii Bool.
From stdpp Require Import base option list gmap strings pretty sorting.

#[local] Open Scope string_scope.
#[local] Open Scope list_scope.
#[local] Open Scope Z_scope.

(** ** JavaScript values used by the model *)

Module Js.

Definition lt (x y : Q) : bool := negb (Qle_bool y x).
Definition le (x y : Q) : bool := Qle_bool x y.
Definition gt (x y : Q) : bool := lt y x.
Definition ge (x y : Q) : bool := le y x.
Definition strict_eq (x y : Q) : bool := Qeq_bool x y.

(** Comparison against a value that may be [undefined]: the relational
    operators convert [undefined] to [NaN] and answer [false]; [===]
    answers [false] and [!==] answers [true]. *)
Definition cmp_opt (f : Q -> Q -> bool) (x : Q) (y : option Q) : bool :=
  match y with Some y => f x y | None => false end.

Definition strict_ne_opt (x : Q) (y : option Q) : bool :=
  match y with Some y => negb (strict_eq x y) | None => true end.

(** [a || 0] on a nullable number: [null], [undefined] and [0] all give
    [0]. *)
Definition or_zero (a : option Q) : Q :=
  match a with
  | Some q => if Qeq_bool q 0 then 0%Q else q
  | None => 0%Q
  end.

(** [a ?? d]. *)
Definition nullish {A} (a : option A) (d : A) : A :=
  match a with Some x => x | None => d end.

(** [String.prototype.toUpperCase] on ASCII text. *)
Definition upper_ascii (c : ascii) : ascii :=
  let n := nat_of_ascii c in
  if (97 <=? n)%nat && (n <=? 122)%nat then ascii_of_nat (n - 32) else c.

Fixpoint toUpperCase (s : string) : string :=
  match s with
  | EmptyString => EmptyString
  | String c s' => String (upper_ascii c) (toUpperCase s')
  end.

End Js.

(** ** Double-precision arithmetic (IEEE 754 binary64, round to nearest,
       ties to even)

    The double nearest to a rational: 53 significant bits, subnormal below
    [2^-1022]; a result that rounds to [2^1024] or beyond is an infinity. *)

Module Double.

Definition pow2 (e : Z) : Q := (2 ^ e)%Q.

(** For [x > 0], the [e] with [2^e <= x < 2^(e+1)]. *)
Definition binade (x : Q) : Z :=
  let e := Z.log2 (Qnum x) - Z.log2 (Zpos (Qden x)) in
  if Qle_bool (pow2 e) x then e else e - 1.

(** The exponent of the last bit of the significand of the doubles around
    [x]. *)
Definition exponent (x : Q) : Z := Z.max (binade x - 52) (- 1074).

(** The nearest integer, the even one on a tie. *)
Definition nearest_even (q : Q) : Z :=
  let f := Qfloor q in
  match (q - inject_Z f ?= 1 # 2)%Q with
  | Lt => f
  | Gt => f + 1
  | Eq => if Z.even f then f else f + 1
  end.

Definition round_magnitude (x : Q) : Q :=
  if Qle_bool x 0 then 0%Q
  else (inject_Z (nearest_even (x / pow2 (exponent x))) * pow2 (exponent x))%Q.

(** [x] rounded to 53 significant bits, the exponent unbounded above. *)
Definition round (x : Q) : Q :=
  let x := Qred x in
  if Qle_bool 0 x then round_magnitude x else (- round_magnitude (- x))%Q.

(** The result of an operation on finite doubles. *)
Inductive t :=
| Finite (q : Q)
| Infinite (negative : bool).

(** The double an operation returns when its exact result is [x]. *)
Definition of_exact (x : Q) : t :=
  let r := round x in
  if Qle_bool (pow2 1024) (Qabs r) then Infinite (negb (Qle_bool 0 r)) else Finite r.

(** [a - b]. *)
Definition sub (a b : Q) : t := of_exact (a - b).

(** [Math.abs]. *)
Definition abs (x : t) : t :=
  match x with
  | Finite q => Finite (Qabs q)
  | Infinite _ => Infinite false
  end.

(** [x <= y] and [x < y] for a finite [y]. *)
Definition le (x : t) (y : Q) : bool :=
  match x with
  | Finite q => Qle_bool q y
  | Infinite negative => negative
  end.

Definition lt (x : t) (y : Q) : bool :=
  match x with
  | Finite q => negb (Qle_bool y q)
  | Infinite negative => negative
  end.

(** The numeric literal [0.01]. *)
Definition hundredth : Q := round (1 # 100).

End Double.

(** ** Condition evaluator ([evaluate-alert.use-case]) *)

Inductive AlertParameter := TEMPERATURE | WIND_SPEED | PRECIPITATION.
Inductive ComparisonOperator := GT | GTE | LT | LTE | EQ | NE.

Definition Parameter_str (p : AlertParameter) : string :=
  match p with
  | TEMPERATURE => "TEMPERATURE"
  | WIND_SPEED => "WIND_SPEED"
  | PRECIPITATION => "PRECIPITATION"
  end.

Definition Operator_str (o : ComparisonOperator) : string :=
  match o with
  | GT => "GT" | GTE => "GTE" | LT => "LT" | LTE => "LTE" | EQ => "EQ" | NE => "NE"
  end.

Record WeatherValues := {
  temperatureC : option Q;
  windSpeedMps : option Q;
  precipitationMmHr : option Q;
}.

Record Evaluation := {
  currentValue : option Q;
  triggered : bool;
}.

(** [valueMap[parameter]]: a key outside the three gives [undefined]. *)
Definition valueMap (values : WeatherValues) (parameter : string) : option Q :=
  if String.eqb parameter "TEMPERATURE" then temperatureC values
  else if String.eqb parameter "WIND_SPEED" then windSpeedMps values
  else if String.eqb parameter "PRECIPITATION" then precipitationMmHr values
  else None.

(** The function as it runs: the event-driven path calls it through
    [as any] with strings outside the declared unions and with a threshold
    property that may not exist, so the arguments are taken as JavaScript
    has them. *)
Definition evaluateAlertCondition_js
    (parameter operator : string) (threshold : option Q) (values : WeatherValues)
    : Evaluation :=
  let currentValue := valueMap values parameter in
  match currentValue with
  | None => {| currentValue := currentValue; triggered := false |}
  | Some v =>
      let result b := {| currentValue := currentValue; triggered := b |} in
      if String.eqb operator "GT" then result (Js.cmp_opt Js.gt v threshold)
      else if String.eqb operator "GTE" then result (Js.cmp_opt Js.ge v threshold)
      else if String.eqb operator "LT" then result (Js.cmp_opt Js.lt v threshold)
      else if String.eqb operator "LTE" then result (Js.cmp_opt Js.le v threshold)
      else if String.eqb operator "EQ" then result (Js.cmp_opt Js.strict_eq v threshold)
      else if String.eqb operator "NE" then result (Js.strict_ne_opt v threshold)
      else result false
  end.

(** The function at its declared type. *)
Definition evaluateAlertCondition
    (parameter : AlertParameter) (operator : ComparisonOperator) (threshold : Q)
    (values : WeatherValues) : Evaluation :=
  evaluateAlertCondition_js (Parameter_str parameter) (Operator_str operator)
    (Some threshold) values.

(** The observation field a parameter selects. *)
Definition selected (parameter : AlertParameter) (values : WeatherValues) : option Q :=
  match parameter with
  | TEMPERATURE => temperatureC values
  | WIND_SPEED => windSpeedMps values
  | PRECIPITATION => precipitationMmHr values
  end.

(** The comparison an operator denotes, on the rationals. *)
Definition compares (o : ComparisonOperator) (x t : Q) : Prop :=
  match o with
  | GT => (t < x)%Q
  | GTE => (t <= x)%Q
  | LT => (x < t)%Q
  | LTE => (x <= t)%Q
  | EQ => (x == t)%Q
  | NE => ~ (x == t)%Q
  end.

(** ** Outcomes of calls that may throw *)

Inductive Outcome (T E : Type) :=
| Return (v : T)
| Throw (e : E).
Arguments Return {T E} v.
Arguments Throw {T E} e.

Definition returned {T E} (o : Outcome T E) : bool :=
  match o with Return _ => true | Throw _ => false end.

(** ** Circuit breaker ([shared/utils/circuit-breaker]) *)

Module CircuitBreaker.

Inductive CircuitState := CLOSED | OPEN | HALF_OPEN.

Record CircuitBreakerConfig := {
  failureThreshold : Z;
  recoveryTimeout : Z;
  monitoringPeriod : Z;
  minimumRequests : Z;
}.

(** The private fields of a [CircuitBreaker] instance. *)
Record t := {
  state : CircuitState;
  failureCount : Z;
  lastFailureTime : Z;
  requestCount : Z;
  windowStart : Z;
}.

(** [new CircuitBreaker(config)] at time [now]. *)
Definition create (now : Z) : t :=
  {| state := CLOSED; failureCount := 0; lastFailureTime := 0;
     requestCount := 0; windowStart := now |}.

Definition set_state (s : CircuitState) (b : t) : t :=
  {| state := s; failureCount := failureCount b;
     lastFailureTime := lastFailureTime b; requestCount := requestCount b;
     windowStart := windowStart b |}.

Definition resetCounters (now : Z) (b : t) : t :=
  {| state := state b; failureCount := 0;
     lastFailureTime := lastFailureTime b; requestCount := 0;
     windowStart := now |}.

Definition shouldAttemptReset (cfg : CircuitBreakerConfig) (now : Z) (b : t) : bool :=
  recoveryTimeout cfg <=? now - lastFailureTime b.

(** Returns its answer and the breaker it leaves: a stale window resets the
    counters and restarts the window. *)
Definition shouldOpenCircuit (cfg : CircuitBreakerConfig) (now : Z) (b : t) : bool * t :=
  if monitoringPeriod cfg <? now - windowStart b then
    (false, resetCounters now b)
  else
    ((minimumRequests cfg <=? requestCount b) && (failureThreshold cfg <=? failureCount b), b).

Definition onSuccess (now : Z) (b : t) : t :=
  let b := resetCounters now b in
  match state b with
  | HALF_OPEN => set_state CLOSED b
  | _ => b
  end.

Definition onFailure (cfg : CircuitBreakerConfig) (now : Z) (b : t) : t :=
  let b := {| state := state b; failureCount := failureCount b + 1;
              lastFailureTime := now; requestCount := requestCount b + 1;
              windowStart := windowStart b |} in
  match state b with
  | HALF_OPEN => set_state OPEN b
  | _ =>
      let '(open, b) := shouldOpenCircuit cfg now b in
      if open then set_state OPEN b else b
  end.

(** What [execute] throws: its own refusal, carrying the time of the next
    retry, or the operation's error rethrown. *)
Inductive Error (E : Type) :=
| CircuitOpen (nextRetry : Z)
| Failed (e : E).
Arguments CircuitOpen {E} nextRetry.
Arguments Failed {E} e.

(** The part of [execute] before the operation is awaited: the breaker the
    operation runs under, or the refusal. *)
Definition pass_gate {E} (cfg : CircuitBreakerConfig) (now : Z) (b : t) : t + Error E :=
  match state b with
  | OPEN =>
      if shouldAttemptReset cfg now b then inl (set_state HALF_OPEN b)
      else inr (CircuitOpen (lastFailureTime b + recoveryTimeout cfg))
  | _ => inl b
  end.

(** The part of [execute] after the operation has settled, at time [now]. *)
Definition settle {T E} (cfg : CircuitBreakerConfig) (now : Z) (r : Outcome T E) (b : t)
    : t * Outcome T (Error E) :=
  match r with
  | Return v => (onSuccess now b, Return v)
  | Throw e => (onFailure cfg now b, Throw (Failed e))
  end.

(** [execute(operation)] for a call during which no other call of the
    breaker passes the gate or settles: the gate, the operation and the
    settlement in one piece.  The operation works on a state [S] of its own
    (whatever it calls upstream) and reports the time at which it settled.
    Calls that overlap go through [pass_gate] and [settle] separately, each
    on the breaker as the others have left it. *)
Definition execute {S T E} (cfg : CircuitBreakerConfig) (now : Z)
    (operation : S -> S * Z * Outcome T E) (b : t) (s : S)
    : t * S * Outcome T (Error E) :=
  match pass_gate cfg now b with
  | inr e => (b, s, Throw e)
  | inl b1 =>
      let '(s', done, r) := operation s in
      let '(b2, o) := settle cfg done r b1 in
      (b2, s', o)
  end.

End CircuitBreaker.

(** ** Weather data ([business-logic/ports/weather-provider]) *)

Module Weather.

(** [data.data.values] of an upstream response body. *)
Record UpstreamValues := {
  temperature : option Q;
  windSpeed : option Q;
  rainIntensity : option Q;
  snowIntensity : option Q;
  sleetIntensity : option Q;
  freezingRainIntensity : option Q;
}.

(** The [raw] field: the upstream body ([values] absent when the body has
    no [data.values]), or the marker object of a demo reading, whose
    [sample] says whether it carries the fixed sample [data]. *)
Inductive Raw :=
| Upstream (values : option UpstreamValues)
| Demo (message : string) (lat lon : Q) (sample : bool).

Record RealtimeWeatherData := {
  temperatureC : option Q;
  windSpeedMps : option Q;
  precipitationMmHr : option Q;
  raw : Raw;
}.

Inductive Source := api | scheduled | manual.

(** A reading made up by the gateway rather than taken from upstream. *)
Definition is_demo (d : RealtimeWeatherData) : bool :=
  match raw d with Demo _ _ _ _ => true | Upstream _ => false end.

End Weather.

(** ** Weather gateway ([infrastructure/external-apis/tomorrow-weather.provider]) *)

Module Tomorrow.

Inductive Units := metric | imperial.

Definition Units_str (u : Units) : string :=
  match u with metric => "metric" | imperial => "imperial" end.

Record CacheEntry := {
  value : Weather.RealtimeWeatherData;
  expiresAt : Z;
}.

(** The fields of a [TomorrowWeatherProvider].  A promise is named by a
    number; [redis] says whether a Redis connection is configured;
    [remainingCalls] is [None] while it is [Infinity]. *)
Record t := {
  units : Units;
  cacheTtlMs : Z;
  redis : bool;
  cache : gmap string CacheEntry;
  inFlight : gmap string nat;
  rateLimitResetTime : Z;
  remainingCalls : option Z;
  circuitBreaker : CircuitBreaker.t;
}.

Definition config : CircuitBreaker.CircuitBreakerConfig :=
  {| CircuitBreaker.failureThreshold := 3;
     CircuitBreaker.recoveryTimeout := 30000;
     CircuitBreaker.monitoringPeriod := 60000;
     CircuitBreaker.minimumRequests := 2 |}.

(** [new TomorrowWeatherProvider(opts)] at time [now]. *)
Definition create (u : option Units) (ttl : option Z) (withRedis : bool) (now : Z) : t :=
  {| units := Js.nullish u metric;
     cacheTtlMs := Js.nullish ttl 300000;
     redis := withRedis;
     cache := ∅;
     inFlight := ∅;
     rateLimitResetTime := 0;
     remainingCalls := None;
     circuitBreaker := CircuitBreaker.create now |}.

Definition set_cache (c : gmap string CacheEntry) (p : t) : t :=
  {| units := units p; cacheTtlMs := cacheTtlMs p; redis := redis p;
     cache := c; inFlight := inFlight p;
     rateLimitResetTime := rateLimitResetTime p;
     remainingCalls := remainingCalls p; circuitBreaker := circuitBreaker p |}.

Definition set_inFlight (f : gmap string nat) (p : t) : t :=
  {| units := units p; cacheTtlMs := cacheTtlMs p; redis := redis p;
     cache := cache p; inFlight := f;
     rateLimitResetTime := rateLimitResetTime p;
     remainingCalls := remainingCalls p; circuitBreaker := circuitBreaker p |}.

Definition set_rateLimit (reset : Z) (remaining : option Z) (p : t) : t :=
  {| units := units p; cacheTtlMs := cacheTtlMs p; redis := redis p;
     cache := cache p; inFlight := inFlight p;
     rateLimitResetTime := reset;
     remainingCalls := remaining; circuitBreaker := circuitBreaker p |}.

Definition set_circuitBreaker (b : CircuitBreaker.t) (p : t) : t :=
  {| units := units p; cacheTtlMs := cacheTtlMs p; redis := redis p;
     cache := cache p; inFlight := inFlight p;
     rateLimitResetTime := rateLimitResetTime p;
     remainingCalls := remainingCalls p; circuitBreaker := b |}.

(** [Number.prototype.toFixed(3)]: the sign of [x], then [|x|] rounded to
    the nearest thousandth, the larger one on a tie. *)
Definition pad3 (n : Z) : string :=
  let s := pretty (Z.to_N n) in
  match String.length s with
  | 1%nat => "00" +:+ s
  | 2%nat => "0" +:+ s
  | _ => s
  end.

Definition toFixed3 (x : Q) : string :=
  let n := Qfloor (Qabs x * 1000 + (1 # 2)) in
  (if Js.lt x 0 then "-" else "") +:+
  pretty (Z.to_N (n / 1000)) +:+ "." +:+ pad3 (n mod 1000).

Definition cacheKey (p : t) (latitude longitude : Q) : string :=
  toFixed3 latitude +:+ "," +:+ toFixed3 longitude +:+ "," +:+ Units_str (units p).

(** [Math.round(x * 10) / 10]. *)
Definition round1 (x : Q) : Q :=
  (inject_Z (Qfloor (x * 10 + (1 # 2))) / 10)%Q.

(** The demo reading; [rnd i] is the [i]-th [Math.random()] drawn while it
    is built (the fourth is drawn only when the third exceeds 0.5). *)
Definition demoData (rnd : nat -> Q) (r : Weather.Raw) : Weather.RealtimeWeatherData :=
  {| Weather.temperatureC := Some (round1 (20 + rnd 0%nat * 15));
     Weather.windSpeedMps := Some (round1 (1 + rnd 1%nat * 8));
     Weather.precipitationMmHr :=
       Some (if Js.gt (rnd 2%nat) (1 # 2) then round1 ((2 # 10) + rnd 3%nat * 6) else 0%Q);
     Weather.raw := r |}.

Definition cooldownMessage : string := "Demo data - API rate limited (cooldown)".
Definition rateLimitedMessage : string := "Demo data - API rate limited".

(** The [retry-after] header of an error response: absent (or empty), a
    number of seconds, or text that [Number] does not read as a finite
    number. *)
Inductive RetryAfter :=
| NoHeader
| Seconds (q : Q)
| NotANumber.

Record ErrorResponse := {
  status : Z;
  retryAfter : RetryAfter;
}.

(** What an attempt's [axios.get] settles with: a response, with the
    remaining-calls header when present and the [data.values] of its body,
    or a rejection.  A rejection carries the response when the server
    answered; a timeout or a network failure carries none. *)
Inductive Reply :=
| Response (remaining : option Z) (values : option Weather.UpstreamValues)
| Rejection (response : option ErrorResponse).

(** What the retry loop throws: the [axios] error of the last attempt, or
    the error of the statement after the loop. *)
Inductive UpstreamError :=
| AxiosError (response : option ErrorResponse)
| Exhausted.

Inductive Effect :=
| HttpGet (lat lon : Q) (u : Units)
| RedisSetex (key : string) (seconds : Z) (v : Weather.RealtimeWeatherData)
| Sleep (ms : Q).

Definition maxAttempts : nat := 4.

(** [this.cache.set(key, ...)] followed by the optional [redis.setex]. *)
Definition store (key : string) (v : Weather.RealtimeWeatherData) (now : Z) (p : t)
    : t * list Effect :=
  (set_cache (<[key := {| value := v; expiresAt := now + cacheTtlMs p |}]> (cache p)) p,
   if redis p then [RedisSetex key (cacheTtlMs p / 1000) v] else []).

Definition Result : Type :=
  Outcome Weather.RealtimeWeatherData (CircuitBreaker.Error UpstreamError).

(** *** The synchronous start of [getRealtime] *)

Inductive Entered :=
| Served (v : Weather.RealtimeWeatherData)
| Joined (promise : nat)
| Started (promise : nat)
| Refused (promise : nat) (e : CircuitBreaker.Error UpstreamError).

Definition fresh_hit (hit : option CacheEntry) (now : Z) : option Weather.RealtimeWeatherData :=
  match hit with
  | Some h => if now <? expiresAt h then Some (value h) else None
  | None => None
  end.

(** The end of [execute] for the gateway's breaker, once the loop has
    settled with [o] at time [now]. *)
Definition finish (now : Z) (o : Outcome Weather.RealtimeWeatherData UpstreamError) (p : t)
    : t * Result :=
  let '(b, o') := CircuitBreaker.settle config now o (circuitBreaker p) in
  (set_circuitBreaker b p, o').

(** The guard of the [for] loop and the request of one attempt; past the
    last attempt the statement after the loop throws, and [execute] records
    the failure. *)
Definition start_attempt (latitude longitude : Q) (now : Z) (attempt : nat) (p : t)
    : t * option Result * list Effect :=
  if (attempt <=? maxAttempts)%nat then
    (p, None, [HttpGet latitude longitude (units p)])
  else
    let '(p', o) := finish now (Throw Exhausted) p in (p', Some o, []).

(** From the lookups to [this.inFlight.set(key, requestPromise)]: one
    stretch without [await] (the Redis lookup, when configured, has
    answered [cached]; it is not consulted otherwise).  [promise] names the
    promise a new request would get. *)
Definition enter (latitude longitude : Q) (now : Z)
    (cached : option Weather.RealtimeWeatherData) (rnd : nat -> Q)
    (promise : nat) (p : t) : t * Entered * list Effect :=
  let key := cacheKey p latitude longitude in
  match (if redis p then cached else None) with
  | Some v => (p, Served v, [])
  | None =>
      match fresh_hit (cache p !! key) now with
      | Some v => (p, Served v, [])
      | None =>
          match inFlight p !! key with
          | Some existing => (p, Joined existing, [])
          | None =>
              if now <? rateLimitResetTime p then
                let mockResult :=
                  demoData rnd (Weather.Demo cooldownMessage latitude longitude false) in
                let '(p', eff) := store key mockResult now p in
                (p', Served mockResult, eff)
              else
                match CircuitBreaker.pass_gate config now (circuitBreaker p) with
                | inr e =>
                    (set_inFlight (<[key := promise]> (inFlight p)) p, Refused promise e, [])
                | inl b =>
                    let p1 := set_circuitBreaker b p in
                    (set_inFlight (<[key := promise]> (inFlight p1)) p1, Started promise,
                     [HttpGet latitude longitude (units p1)])
                end
          end
      end
  end.

(** *** One attempt of the retry loop *)

Inductive Next :=
| Finish (o : Outcome Weather.RealtimeWeatherData UpstreamError)
| Backoff (delayMs : Q).

Definition isRetryable (status : option Z) : bool :=
  match status with
  | Some s => (s =? 429) || ((500 <=? s) && (s <? 600))
  | None => false
  end.

Definition is429 (status : option Z) : bool :=
  match status with Some s => s =? 429 | None => false end.

Definition backoff (attempt : nat) (header : RetryAfter) (rnd : nat -> Q) : Q :=
  match header with
  | Seconds parsed => (parsed * 1000)%Q
  | NotANumber => 2000%Q
  | NoHeader =>
      let base := 400 * 2 ^ (Z.of_nat attempt - 1) in
      let jitter := Qfloor (rnd 0%nat * 250) in
      inject_Z (base + jitter)
  end.

Definition noValues : Weather.UpstreamValues :=
  {| Weather.temperature := None; Weather.windSpeed := None;
     Weather.rainIntensity := None; Weather.snowIntensity := None;
     Weather.sleetIntensity := None; Weather.freezingRainIntensity := None |}.

Definition readResponse (body : option Weather.UpstreamValues) : Weather.RealtimeWeatherData :=
  let values := Js.nullish body noValues in
  let precipitation :=
    (Js.nullish (Weather.rainIntensity values) 0 +
     Js.nullish (Weather.snowIntensity values) 0 +
     Js.nullish (Weather.sleetIntensity values) 0 +
     Js.nullish (Weather.freezingRainIntensity values) 0)%Q in
  {| Weather.temperatureC := Weather.temperature values;
     Weather.windSpeedMps := Weather.windSpeed values;
     Weather.precipitationMmHr := Some precipitation;
     Weather.raw := Weather.Upstream body |}.

(** The body of the loop once the attempt's request has settled with
    [reply] at time [now]. *)
Definition attempt_settled (latitude longitude : Q) (now : Z) (reply : Reply)
    (rnd : nat -> Q) (attempt : nat) (p : t) : t * Next * list Effect :=
  let key := cacheKey p latitude longitude in
  match reply with
  | Response remaining body =>
      let p :=
        match remaining with
        | Some n => set_rateLimit (rateLimitResetTime p) (Some n) p
        | None => p
        end in
      let result := readResponse body in
      let '(p, eff) := store key result now p in
      (p, Finish (Return result), eff)
  | Rejection response =>
      let status := status <$> response in
      let header :=
        match response with Some r => retryAfter r | None => NoHeader end in
      if negb (isRetryable status) || (attempt =? maxAttempts)%nat then
        if is429 status then
          let p := set_rateLimit (now + 60 * 1000) (Some 0) p in
          let mockResult :=
            demoData rnd (Weather.Demo rateLimitedMessage latitude longitude true) in
          let '(p, eff) := store key mockResult now p in
          (p, Finish (Return mockResult), eff)
        else (p, Finish (Throw (AxiosError response)), [])
      else
        let delayMs := backoff attempt header rnd in
        (p, Backoff delayMs, [Sleep delayMs])
  end.

(** The [finally] callback. *)
Definition finally (key : string) (p : t) : t :=
  set_inFlight (delete key (inFlight p)) p.

(** *** A call that runs alone

    [getRealtime] from the call to the settlement of its promise when no
    other call runs meanwhile.  The script gives, for each attempt, the
    time its request settles, what it settles with and the random numbers
    drawn while handling it; a backoff delay ends exactly when it is due.
    The answer is [None] while the script leaves the promise pending. *)

Record Tick := {
  at_ : Z;
  reply : Reply;
  random : nat -> Q;
}.

Fixpoint retryLoop (latitude longitude : Q) (attempt : nat) (script : list Tick) (p : t)
    : t * option Result * list Effect :=
  match script with
  | [] => (p, None, [])
  | tick :: rest =>
      let '(p1, next, eff) :=
        attempt_settled latitude longitude (at_ tick) (reply tick) (random tick) attempt p in
      match next with
      | Finish o =>
          let '(p2, o') := finish (at_ tick) o p1 in (p2, Some o', eff)
      | Backoff delayMs =>
          let woke := at_ tick + Z.max 0 (Qfloor delayMs) in
          let '(p2, thrown, eff2) :=
            start_attempt latitude longitude woke (S attempt) p1 in
          match thrown with
          | Some o => (p2, Some o, eff ++ eff2)
          | None =>
              let '(p3, r, eff3) := retryLoop latitude longitude (S attempt) rest p2 in
              (p3, r, eff ++ eff2 ++ eff3)
          end
      end
  end.

Definition getRealtime (latitude longitude : Q) (now : Z)
    (cached : option Weather.RealtimeWeatherData) (rnd : nat -> Q)
    (script : list Tick) (p : t) : t * option Result * list Effect :=
  let key := cacheKey p latitude longitude in
  let '(p1, e, eff) := enter latitude longitude now cached rnd 0%nat p in
  match e with
  | Served v => (p1, Some (Return v), eff)
  | Joined _ => (p1, None, eff)
  | Refused _ err => (finally key p1, Some (Throw err), eff)
  | Started _ =>
      let '(p2, r, eff2) := retryLoop latitude longitude 1 script p1 in
      match r with
      | Some o => (finally key p2, Some o, eff ++ eff2)
      | None => (p2, None, eff ++ eff2)
      end
  end.

End Tomorrow.

(** ** Calls that overlap

    The gateway under JavaScript's scheduling: code runs without
    interruption between two [await]s, so the life of the provider is a
    sequence of events, each handled in one piece.  A flight is one
    execution of the retry loop together with the promise registered for
    it. *)

Module Flights.

Inductive Phase :=
| Requesting
| Sleeping
| Done (o : Tomorrow.Result).

Record Flight := {
  promise : nat;
  key : string;
  latitude : Q;
  longitude : Q;
  attempt : nat;
  phase : Phase;
}.

Record System := {
  provider : Tomorrow.t;
  flights : list Flight;
  nextPromise : nat;
}.

Inductive Event :=
| Call (lat lon : Q) (now : Z) (cached : option Weather.RealtimeWeatherData) (rnd : nat -> Q)
| Arrive (promise : nat) (now : Z) (reply : Tomorrow.Reply) (rnd : nat -> Q)
| Wake (promise : nat) (now : Z)
| Finally (promise : nat).

Definition init (p : Tomorrow.t) : System :=
  {| provider := Tomorrow.set_inFlight ∅ p; flights := []; nextPromise := 0 |}.

Definition is_requesting (f : Flight) : bool :=
  match phase f with Requesting => true | _ => false end.

Definition find (n : nat) (fs : list Flight) : option Flight :=
  List.find (fun f => Nat.eqb (promise f) n) fs.

Definition set_phase (n : nat) (a : nat) (ph : Phase) (fs : list Flight) : list Flight :=
  List.map (fun f =>
    if Nat.eqb (promise f) n then
      {| promise := promise f; key := key f; latitude := latitude f;
         longitude := longitude f; attempt := a; phase := ph |}
    else f) fs.

Definition remove (n : nat) (fs : list Flight) : list Flight :=
  List.filter (fun f => negb (Nat.eqb (promise f) n)) fs.

(** One event: the system it leaves, the effects it has on the outside and,
    for a call, what the caller holds.  [None] when the event cannot happen
    in this state. *)
Definition step (e : Event) (s : System)
    : option (System * list Tomorrow.Effect * option Tomorrow.Entered) :=
  let p := provider s in
  match e with
  | Call lat lon now cached rnd =>
      let n := nextPromise s in
      let '(p', entered, eff) := Tomorrow.enter lat lon now cached rnd n p in
      let launch ph :=
        {| provider := p';
           flights := flights s ++
             [{| promise := n; key := Tomorrow.cacheKey p lat lon; latitude := lat;
                 longitude := lon; attempt := 1; phase := ph |}];
           nextPromise := S n |} in
      match entered with
      | Tomorrow.Started _ => Some (launch Requesting, eff, Some entered)
      | Tomorrow.Refused _ err => Some (launch (Done (Throw err)), eff, Some entered)
      | _ =>
          Some ({| provider := p'; flights := flights s; nextPromise := n |},
                eff, Some entered)
      end
  | Arrive n now reply rnd =>
      match find n (flights s) with
      | Some f =>
          match phase f with
          | Requesting =>
              let '(p1, next, eff) :=
                Tomorrow.attempt_settled (latitude f) (longitude f) now reply rnd
                  (attempt f) p in
              match next with
              | Tomorrow.Finish o =>
                  let '(p2, o') := Tomorrow.finish now o p1 in
                  Some ({| provider := p2;
                           flights := set_phase n (attempt f) (Done o') (flights s);
                           nextPromise := nextPromise s |}, eff, None)
              | Tomorrow.Backoff _ =>
                  Some ({| provider := p1;
                           flights := set_phase n (attempt f) Sleeping (flights s);
                           nextPromise := nextPromise s |}, eff, None)
              end
          | _ => None
          end
      | None => None
      end
  | Wake n now =>
      match find n (flights s) with
      | Some f =>
          match phase f with
          | Sleeping =>
              let '(p1, thrown, eff) :=
                Tomorrow.start_attempt (latitude f) (longitude f) now (S (attempt f)) p in
              let ph := match thrown with Some o => Done o | None => Requesting end in
              Some ({| provider := p1;
                       flights := set_phase n (S (attempt f)) ph (flights s);
                       nextPromise := nextPromise s |}, eff, None)
          | _ => None
          end
      | None => None
      end
  | Finally n =>
      match find n (flights s) with
      | Some f =>
          match phase f with
          | Done _ =>
              Some ({| provider := Tomorrow.finally (key f) p;
                       flights := remove n (flights s);
                       nextPromise := nextPromise s |}, [], None)
          | _ => None
          end
      | None => None
      end
  end.

(** A history of events from a state; [None] when one of them cannot
    happen. *)
Fixpoint run (es : list Event) (s : System) : option System :=
  match es with
  | [] => Some s
  | e :: es' =>
      match step e s with
      | Some (s', _, _) => run es' s'
      | None => None
      end
  end.

(** The upstream requests for [k] that have been sent and not answered. *)
Definition outstanding (k : string) (s : System) : nat :=
  length (List.filter (fun f => String.eqb (key f) k && is_requesting f) (flights s)).

Definition requests (eff : list Tomorrow.Effect) : nat :=
  length (List.filter (fun e => match e with Tomorrow.HttpGet _ _ _ => true | _ => false end) eff).

End Flights.

(** ** Alert store ([business-logic/ports/alert-repository],
       [infrastructure/database/prisma-alert.repository]) *)

Module Alerts.

(** The columns the evaluation paths read or write ([description],
    [units] and [updatedAt] are left out). *)
Record AlertRecord := {
  id : string;
  name : option string;
  cityName : option string;
  latitude : option Q;
  longitude : option Q;
  parameter : AlertParameter;
  operator : ComparisonOperator;
  threshold : Q;
  contactEmail : option string;
  contactPhone : option string;
  createdAt : Z;
  lastValue : option Q;
  lastState : option bool;
  lastEvaluatedAt : option Z;
}.

(** The table, in the order the database returns its rows. *)
Definition Table := list AlertRecord.

Inductive RepositoryError :=
| RecordNotFound (alertId : string).

Definition newer_first (a b : AlertRecord) : Prop := createdAt b <= createdAt a.

#[export] Instance newer_first_dec a b : Decision (newer_first a b).
Proof. unfold newer_first. apply _. Defined.

(** [findMany({ orderBy: { createdAt: 'desc' } })]. *)
Definition listAlerts (tbl : Table) : list AlertRecord :=
  merge_sort newer_first tbl.

(** [findMany()]. *)
Definition getAllAlerts (tbl : Table) : list AlertRecord := tbl.

Definition evaluated (currentValue : option Q) (triggered : bool) (now : Z)
    (a : AlertRecord) : AlertRecord :=
  {| id := id a; name := name a; cityName := cityName a;
     latitude := latitude a; longitude := longitude a;
     parameter := parameter a; operator := operator a; threshold := threshold a;
     contactEmail := contactEmail a; contactPhone := contactPhone a;
     createdAt := createdAt a;
     lastValue := currentValue; lastState := Some triggered;
     lastEvaluatedAt := Some now |}.

Definition has_id (alertId : string) (a : AlertRecord) : bool :=
  String.eqb (id a) alertId.

(** [prisma.alert.update({ where: { id }, data })] at time [now]; neither
    caller asks for a history row.  The update of a row that does not
    exist throws. *)
Definition updateAlertAfterEvaluation (alertId : string) (currentValue : option Q)
    (triggered : bool) (now : Z) (tbl : Table) : Outcome Table RepositoryError :=
  if existsb (has_id alertId) tbl then
    Return (List.map (fun a =>
      if has_id alertId a then evaluated currentValue triggered now a else a) tbl)
  else Throw (RecordNotFound alertId).

Definition lookup (alertId : string) (tbl : Table) : option AlertRecord :=
  List.find (has_id alertId) tbl.

End Alerts.

(** ** Event stream ([infrastructure/events/kafka.service]) *)

Module Kafka.

Record WeatherEventData := {
  latitude : Q;
  longitude : Q;
  temperatureC : option Q;
  windSpeedMps : option Q;
  precipitationMmHr : option Q;
  timestamp : Z;
  source : Weather.Source;
}.

(** [evaluatedAt] is the [timestamp]; the duration of the evaluation is
    left out. *)
Record AlertEventData := {
  alertId : string;
  alertName : option string;
  triggered : bool;
  previousState : option bool;
  currentValue : Q;
  threshold : option Q;
  parameter : string;
  location : Q * Q * option string;
  evaluatedAt : Z;
}.

Inductive Channel := email | sms | push.
Inductive DeliveryStatus := pending | sent | failed.

(** [message] is the text [createNotificationMessage] renders from the
    evaluation it is given; the model keeps that evaluation. *)
Record NotificationEventData := {
  notifiedAlertId : string;
  notifiedAlertName : string;
  type : Channel;
  recipient : string;
  message : AlertEventData;
  deliveryStatus : DeliveryStatus;
}.

(** The producer's connection flag, the answers of the broker and the
    three topics, oldest message first.  [acknowledged n] says whether the
    broker acknowledges the [n]-th [producer.send] of this producer, counted
    from 0 over the three topics; [sends] counts the sends made so far.  A
    message is on its topic once its send is acknowledged. *)
Record t := {
  isConnected : bool;
  acknowledged : nat -> bool;
  sends : nat;
  weatherUpdates : list WeatherEventData;
  alertEvaluations : list AlertEventData;
  notifications : list NotificationEventData;
}.

(** What a publication throws: its own refusal while the producer is not
    connected, or the error of a [producer.send] that the broker rejected,
    logged and thrown again. *)
Inductive KafkaError := NotConnected | SendRejected.

Definition deliverWeatherUpdate (data : WeatherEventData) (k : t) : t :=
  {| isConnected := isConnected k; acknowledged := acknowledged k; sends := sends k;
     weatherUpdates := weatherUpdates k ++ [data];
     alertEvaluations := alertEvaluations k; notifications := notifications k |}.

Definition deliverAlertEvaluation (data : AlertEventData) (k : t) : t :=
  {| isConnected := isConnected k; acknowledged := acknowledged k; sends := sends k;
     weatherUpdates := weatherUpdates k;
     alertEvaluations := alertEvaluations k ++ [data]; notifications := notifications k |}.

Definition deliverNotification (data : NotificationEventData) (k : t) : t :=
  {| isConnected := isConnected k; acknowledged := acknowledged k; sends := sends k;
     weatherUpdates := weatherUpdates k;
     alertEvaluations := alertEvaluations k; notifications := notifications k ++ [data] |}.

(** [await this.producer.send(...)] of a message that [deliver] puts on its
    topic. *)
Definition send (deliver : t -> t) (k : t) : t * Outcome unit KafkaError :=
  let k' :=
    {| isConnected := isConnected k; acknowledged := acknowledged k; sends := S (sends k);
       weatherUpdates := weatherUpdates k;
       alertEvaluations := alertEvaluations k; notifications := notifications k |} in
  if acknowledged k (sends k) then (deliver k', Return tt) else (k', Throw SendRejected).

Definition publishWeatherUpdate (data : WeatherEventData) (k : t) : t * Outcome unit KafkaError :=
  if isConnected k then send (deliverWeatherUpdate data) k else (k, Throw NotConnected).

Definition publishAlertEvaluation (data : AlertEventData) (k : t) : t * Outcome unit KafkaError :=
  if isConnected k then send (deliverAlertEvaluation data) k else (k, Throw NotConnected).

Definition publishNotification (data : NotificationEventData) (k : t) : t * Outcome unit KafkaError :=
  if isConnected k then send (deliverNotification data) k else (k, Throw NotConnected).

(** A new producer, connected or not, with a broker that acknowledges
    every send. *)
Definition empty (connected : bool) : t :=
  {| isConnected := connected; acknowledged := fun _ => true; sends := 0%nat;
     weatherUpdates := []; alertEvaluations := []; notifications := [] |}.

End Kafka.

(** ** Event-driven evaluation
       ([business-logic/use-cases/event-driven-alert-evaluation.use-case]) *)

Module EventDriven.

(** [alert: any]: the properties the engine reads from the object it is
    handed; a property the object does not have reads as [None]. *)
Record JsAlert := {
  id : string;
  name : option string;
  parameter : string;
  operator : string;
  value : option Q;
  lastState : option bool;
  latitude : option Q;
  longitude : option Q;
  cityName : option string;
}.

(** A row of the repository read through [any]: its [parameter] and
    [operator] are the strings of their unions and it has no [value]. *)
Definition of_record (a : Alerts.AlertRecord) : JsAlert :=
  {| id := Alerts.id a; name := Alerts.name a;
     parameter := Parameter_str (Alerts.parameter a);
     operator := Operator_str (Alerts.operator a);
     value := None;
     lastState := Alerts.lastState a;
     latitude := Alerts.latitude a; longitude := Alerts.longitude a;
     cityName := Alerts.cityName a |}.

Record World := {
  table : Alerts.Table;
  kafka : Kafka.t;
}.

Inductive Failure :=
| Repository (e : Alerts.RepositoryError)
| Stream (e : Kafka.KafkaError).

Definition extractWeatherValue (weatherData : Kafka.WeatherEventData) (parameter : string)
    : option Q :=
  if String.eqb parameter "temperature" then Kafka.temperatureC weatherData
  else if String.eqb parameter "windSpeed" then Kafka.windSpeedMps weatherData
  else if String.eqb parameter "precipitation" then Kafka.precipitationMmHr weatherData
  else None.

(** The condition as the engine evaluates it for a reading [v]. *)
Definition evaluation (alert : JsAlert) (v : Q) : Evaluation :=
  evaluateAlertCondition_js (Js.toUpperCase (parameter alert)) (operator alert) (value alert)
    {| temperatureC := if String.eqb (parameter alert) "temperature" then Some v else None;
       windSpeedMps := if String.eqb (parameter alert) "windSpeed" then Some v else None;
       precipitationMmHr :=
         if String.eqb (parameter alert) "precipitation" then Some v else None |}.

Definition alertEvent (alert : JsAlert) (v : Q) (now : Z) : Kafka.AlertEventData :=
  {| Kafka.alertId := id alert;
     Kafka.alertName := name alert;
     Kafka.triggered := triggered (evaluation alert v);
     Kafka.previousState := Some (Js.nullish (lastState alert) false);
     Kafka.currentValue := v;
     Kafka.threshold := value alert;
     Kafka.parameter := parameter alert;
     Kafka.location :=
       (Js.or_zero (latitude alert), Js.or_zero (longitude alert), cityName alert);
     Kafka.evaluatedAt := now |}.

Definition evaluateAlertWithEvent (alert : JsAlert) (weatherData : Kafka.WeatherEventData)
    (now : Z) (w : World) : World * Outcome unit Failure :=
  match extractWeatherValue weatherData (parameter alert) with
  | None => (w, Return tt)
  | Some v =>
      match
        Alerts.updateAlertAfterEvaluation (id alert) (Some v)
          (triggered (evaluation alert v)) now (table w)
      with
      | Throw e => (w, Throw (Repository e))
      | Return tbl =>
          let '(k, r) := Kafka.publishAlertEvaluation (alertEvent alert v now) (kafka w) in
          ({| table := tbl; kafka := k |},
           match r with Return _ => Return tt | Throw e => Throw (Stream e) end)
      end
  end.

(** The test of the filter of [findAlertsForLocation]. *)
Definition near (latitude longitude radiusDegrees : Q) (alert : Alerts.AlertRecord) : bool :=
  let alertLat := Js.or_zero (Alerts.latitude alert) in
  let alertLon := Js.or_zero (Alerts.longitude alert) in
  let latDiff := Double.abs (Double.sub alertLat latitude) in
  let lonDiff := Double.abs (Double.sub alertLon longitude) in
  Double.le latDiff radiusDegrees && Double.le lonDiff radiusDegrees.

Definition findAlertsForLocation (latitude longitude radiusDegrees : Q) (tbl : Alerts.Table)
    : list Alerts.AlertRecord :=
  List.filter (near latitude longitude radiusDegrees) (Alerts.listAlerts tbl).

(** [Promise.allSettled] over the evaluations: every one runs, each on
    the world the ones before it left, and its outcome is kept. *)
Fixpoint allSettled (alerts : list JsAlert) (weatherData : Kafka.WeatherEventData)
    (now : Z) (w : World) : World * list (Outcome unit Failure) :=
  match alerts with
  | [] => (w, [])
  | alert :: rest =>
      let '(w1, r) := evaluateAlertWithEvent alert weatherData now w in
      let '(w2, rs) := allSettled rest weatherData now w1 in
      (w2, r :: rs)
  end.

(** The radius [handleWeatherUpdate] passes: the literal [0.01]. *)
Definition proximity : Q := Double.hundredth.

(** Returns the world it leaves and the two counts it logs, if it gets
    that far. *)
Definition handleWeatherUpdate (weatherData : Kafka.WeatherEventData) (now : Z) (w : World)
    : World * option (nat * nat) :=
  let relevantAlerts :=
    findAlertsForLocation (Kafka.latitude weatherData) (Kafka.longitude weatherData)
      proximity (table w) in
  match relevantAlerts with
  | [] => (w, None)
  | _ =>
      let '(w', results) :=
        allSettled (List.map of_record relevantAlerts) weatherData now w in
      let successful := length (List.filter returned results) in
      let failed := length (List.filter (fun r => negb (returned r)) results) in
      (w', Some (successful, failed))
  end.

Definition nonempty (s : option string) : option string :=
  match s with
  | Some EmptyString => None
  | _ => s
  end.

(** The test [alertData.triggered && !alertData.previousState]. *)
Definition newlyTriggered (alertData : Kafka.AlertEventData) : bool :=
  Kafka.triggered alertData && negb (Js.nullish (Kafka.previousState alertData) false).

Definition notificationEvent (alertData : Kafka.AlertEventData) : Kafka.NotificationEventData :=
  {| Kafka.notifiedAlertId := Kafka.alertId alertData;
     Kafka.notifiedAlertName :=
       Js.nullish (nonempty (Kafka.alertName alertData))
         ("Alert " +:+ Kafka.alertId alertData);
     Kafka.type := Kafka.email;
     Kafka.recipient := "user@example.com";
     Kafka.message := alertData;
     Kafka.deliveryStatus := Kafka.pending |}.

(** A state change is logged, whichever way it goes; only a newly
    triggered alert is notified.  A failed publication is caught and
    logged. *)
Definition handleAlertEvaluation (alertData : Kafka.AlertEventData) (k : Kafka.t) : Kafka.t :=
  if newlyTriggered alertData
  then fst (Kafka.publishNotification (notificationEvent alertData) k)
  else k.

(** The consumer of the evaluations topic, over the messages in order. *)
Definition consume (events : list Kafka.AlertEventData) (k : Kafka.t) : Kafka.t :=
  fold_left (fun k e => handleAlertEvaluation e k) events k.

End EventDriven.

(** ** Scheduled evaluation
       ([business-logic/use-cases/evaluate-all-alerts.use-case],
        [services/scheduler.service]) *)

Module Scheduled.

Inductive Failure (E : Type) :=
| Provider (e : E)
| Repository (e : Alerts.RepositoryError).
Arguments Provider {E} e.
Arguments Repository {E} e.

Inductive Sent :=
| Email (to : string) (about : Alerts.AlertRecord)
| Sms (to : string) (about : Alerts.AlertRecord).

Definition evaluate (alert : Alerts.AlertRecord) (weatherData : Weather.RealtimeWeatherData)
    : Evaluation :=
  evaluateAlertCondition (Alerts.parameter alert) (Alerts.operator alert)
    (Alerts.threshold alert)
    {| temperatureC := Weather.temperatureC weatherData;
       windSpeedMps := Weather.windSpeedMps weatherData;
       precipitationMmHr := Some (Js.nullish (Weather.precipitationMmHr weatherData) 0%Q) |}.

Definition with_lastValue (v : option Q) (a : Alerts.AlertRecord) : Alerts.AlertRecord :=
  {| Alerts.id := Alerts.id a; Alerts.name := Alerts.name a;
     Alerts.cityName := Alerts.cityName a;
     Alerts.latitude := Alerts.latitude a; Alerts.longitude := Alerts.longitude a;
     Alerts.parameter := Alerts.parameter a; Alerts.operator := Alerts.operator a;
     Alerts.threshold := Alerts.threshold a;
     Alerts.contactEmail := Alerts.contactEmail a;
     Alerts.contactPhone := Alerts.contactPhone a;
     Alerts.createdAt := Alerts.createdAt a;
     Alerts.lastValue := v; Alerts.lastState := Alerts.lastState a;
     Alerts.lastEvaluatedAt := Alerts.lastEvaluatedAt a |}.

Definition about (m : Sent) : Alerts.AlertRecord :=
  match m with Email _ a => a | Sms _ a => a end.

(** The message of a notification is rendered from the alert; the model
    keeps the alert. *)
Definition sendNotification (alert : Alerts.AlertRecord) : list Sent :=
  match EventDriven.nonempty (Alerts.contactEmail alert) with
  | Some to => [Email to alert]
  | None => []
  end ++
  match EventDriven.nonempty (Alerts.contactPhone alert) with
  | Some to => [Sms to alert]
  | None => []
  end.

Section WithProvider.

(** The [IWeatherProvider] the use case is given: a call works on the
    provider's state and returns a reading or throws. *)
Context {S E : Type}.
Variable getRealtime :
  Q -> Q -> Weather.Source -> S -> S * Outcome Weather.RealtimeWeatherData E.

(** The [for] loop of [EvaluateAllAlertsUseCase.execute] over the alerts
    left, writing at time [now]. *)
Fixpoint sweep (alerts : list Alerts.AlertRecord) (now : Z) (st : S) (tbl : Alerts.Table)
    (triggeredAlerts : list Alerts.AlertRecord)
    : S * Alerts.Table * Outcome (list Alerts.AlertRecord) (Failure E) :=
  match alerts with
  | [] => (st, tbl, Return triggeredAlerts)
  | alert :: rest =>
      match Alerts.latitude alert, Alerts.longitude alert with
      | Some latitude, Some longitude =>
          let '(st1, r) := getRealtime latitude longitude Weather.scheduled st in
          match r with
          | Throw e => (st1, tbl, Throw (Provider e))
          | Return weatherData =>
              let ev := evaluate alert weatherData in
              match
                Alerts.updateAlertAfterEvaluation (Alerts.id alert) (currentValue ev)
                  (triggered ev) now tbl
              with
              | Throw e => (st1, tbl, Throw (Repository e))
              | Return tbl1 =>
                  sweep rest now st1 tbl1
                    (if triggered ev
                     then triggeredAlerts ++ [with_lastValue (currentValue ev) alert]
                     else triggeredAlerts)
              end
          end
      | _, _ => sweep rest now st tbl triggeredAlerts
      end
  end.

Definition execute (now : Z) (st : S) (tbl : Alerts.Table)
    : S * Alerts.Table * Outcome (list Alerts.AlertRecord) (Failure E) :=
  sweep (Alerts.getAllAlerts tbl) now st tbl [].

(** One firing of the cron job: the sweep, then the notifications; an
    error is caught and logged. *)
Definition tick (now : Z) (st : S) (tbl : Alerts.Table) : S * Alerts.Table * list Sent :=
  let '(st', tbl', r) := execute now st tbl in
  match r with
  | Return triggeredAlerts => (st', tbl', flat_map sendNotification triggeredAlerts)
  | Throw _ => (st', tbl', [])
  end.

End WithProvider.

End Scheduled.

(** ** Publishing gateway
       ([infrastructure/external-apis/event-driven-weather.provider]) *)

Module EventDrivenProvider.

Definition weatherEvent (latitude longitude : Q) (source : Weather.Source) (now : Z)
    (weatherData : Weather.RealtimeWeatherData) : Kafka.WeatherEventData :=
  {| Kafka.latitude := latitude;
     Kafka.longitude := longitude;
     Kafka.temperatureC := Some (Js.nullish (Weather.temperatureC weatherData) 0%Q);
     Kafka.windSpeedMps := Some (Js.nullish (Weather.windSpeedMps weatherData) 0%Q);
     Kafka.precipitationMmHr := Weather.precipitationMmHr weatherData;
     Kafka.timestamp := now;
     Kafka.source := source |}.

(** The key [`${latitude},${longitude}`] of the [Map] of results.  Two
    keys are the same string exactly when their numbers are the same; the
    model names a key by its two numbers in lowest terms. *)
Definition Key : Type := (Z * positive) * (Z * positive).

Definition key (latitude longitude : Q) : Key :=
  ((Qnum (Qred latitude), Qden (Qred latitude)),
   (Qnum (Qred longitude), Qden (Qred longitude))).

Section WithInner.

(** The wrapped [TomorrowWeatherProvider.getRealtime]. *)
Context {S E : Type}.
Variable inner : Q -> Q -> S -> S * Outcome Weather.RealtimeWeatherData E.

(** The publication is not awaited and its failure is caught. *)
Definition getRealtime (latitude longitude : Q) (source : option Weather.Source) (now : Z)
    (st : S) (k : Kafka.t) : S * Kafka.t * Outcome Weather.RealtimeWeatherData E :=
  let '(st', r) := inner latitude longitude st in
  match r with
  | Throw e => (st', k, Throw e)
  | Return weatherData =>
      let weatherEvent :=
        weatherEvent latitude longitude (Js.nullish source Weather.api) now weatherData in
      (st', fst (Kafka.publishWeatherUpdate weatherEvent k), Return weatherData)
  end.

(** The fetches of a batch, taken one after another in the order of the
    request, with the [results] and the [weatherEvents] they leave: a
    fetch that returns sets its reading under the key of its location and
    adds its event; a location whose fetch throws is skipped.  (In the
    source the fetches of a chunk of five overlap, and their readings and
    events are added in the order in which they settle.) *)
Fixpoint fetchBatch (locations : list (Q * Q)) (source : Weather.Source) (now : Z) (st : S)
    (results : gmap Key Weather.RealtimeWeatherData)
    (weatherEvents : list Kafka.WeatherEventData)
    : S * gmap Key Weather.RealtimeWeatherData * list Kafka.WeatherEventData :=
  match locations with
  | [] => (st, results, weatherEvents)
  | (latitude, longitude) :: rest =>
      let '(st1, r) := inner latitude longitude st in
      match r with
      | Return weatherData =>
          fetchBatch rest source now st1
            (<[key latitude longitude := weatherData]> results)
            (weatherEvents ++ [weatherEvent latitude longitude source now weatherData])
      | Throw _ => fetchBatch rest source now st1 results weatherEvents
      end
  end.

(** Every event is sent, whatever becomes of the sends before it. *)
Definition publishWeatherEventsBatch (events : list Kafka.WeatherEventData) (k : Kafka.t)
    : Kafka.t :=
  fold_left (fun k e => fst (Kafka.publishWeatherUpdate e k)) events k.

Definition getRealtimeBatch (locations : list (Q * Q)) (source : option Weather.Source)
    (now : Z) (st : S) (k : Kafka.t)
    : S * Kafka.t * gmap Key Weather.RealtimeWeatherData :=
  let '(st', results, weatherEvents) :=
    fetchBatch locations (Js.nullish source Weather.scheduled) now st ∅ [] in
  (st', publishWeatherEventsBatch weatherEvents k, results).

End WithInner.

End EventDrivenProvider.

(** ** The gateway as the provider of the other components *)

Module Wiring.

(** What the outside holds for one call: the time it is made, the answer
    of Redis, the random numbers of its synchronous part and the script of
    its attempts. *)
Record Visit := {
  now : Z;
  cached : option Weather.RealtimeWeatherData;
  rnd : nat -> Q;
  script : list Tomorrow.Tick;
}.

(** A provider together with the visits of the calls to come. *)
Definition State : Type := Tomorrow.t * list Visit.

Inductive Error :=
| Thrown (e : CircuitBreaker.Error Tomorrow.UpstreamError)
| Unsettled.

(** [TomorrowWeatherProvider.getRealtime] as an [IWeatherProvider]: the
    calls run one after another, each on its visit.  A call left without a
    visit, or whose script leaves it pending, is reported [Unsettled]. *)
Definition getRealtime (latitude longitude : Q) (st : State)
    : State * Outcome Weather.RealtimeWeatherData Error :=
  match snd st with
  | [] => (st, Throw Unsettled)
  | visit :: rest =>
      let '(p, r, _) :=
        Tomorrow.getRealtime latitude longitude (now visit) (cached visit) (rnd visit)
          (script visit) (fst st) in
      ((p, rest),
       match r with
       | Some (Return v) => Return v
       | Some (Throw e) => Throw (Thrown e)
       | None => Throw Unsettled
       end)
  end.

Definition provider (latitude longitude : Q) (source : Weather.Source) (st : State)
    : State * Outcome Weather.RealtimeWeatherData Error :=
  getRealtime latitude longitude st.

End Wiring.

(** ** Status reports and the reset of the breaker
       ([CircuitBreaker.getStatus], [TomorrowWeatherProvider.getApiStatus],
        [TomorrowWeatherProvider.resetCircuitBreaker]) *)

Module Status.

(** A time that is [0] reads as [null]; [nextRetryTime] is reported only
    while the breaker is OPEN. *)
Record CircuitStatus := {
  state : CircuitBreaker.CircuitState;
  failureCount : Z;
  requestCount : Z;
  lastFailureTime : option Z;
  nextRetryTime : option Z;
}.

Definition getStatus (cfg : CircuitBreaker.CircuitBreakerConfig) (b : CircuitBreaker.t)
    : CircuitStatus :=
  {| state := CircuitBreaker.state b;
     failureCount := CircuitBreaker.failureCount b;
     requestCount := CircuitBreaker.requestCount b;
     lastFailureTime :=
       if CircuitBreaker.lastFailureTime b =? 0 then None
       else Some (CircuitBreaker.lastFailureTime b);
     nextRetryTime :=
       match CircuitBreaker.state b with
       | CircuitBreaker.OPEN =>
           Some (CircuitBreaker.lastFailureTime b + CircuitBreaker.recoveryTimeout cfg)
       | _ => None
       end |}.

Record ApiStatus := {
  isRateLimited : bool;
  rateLimitResetTime : option Z;
  remainingCalls : option Z;
  cacheSize : nat;
  circuitBreaker : CircuitStatus;
}.

(** [getApiStatus()] at time [now]. *)
Definition getApiStatus (now : Z) (p : Tomorrow.t) : ApiStatus :=
  {| isRateLimited := now <? Tomorrow.rateLimitResetTime p;
     rateLimitResetTime :=
       if 0 <? Tomorrow.rateLimitResetTime p then Some (Tomorrow.rateLimitResetTime p)
       else None;
     remainingCalls := Tomorrow.remainingCalls p;
     cacheSize := size (Tomorrow.cache p);
     circuitBreaker := getStatus Tomorrow.config (Tomorrow.circuitBreaker p) |}.

(** [resetCircuitBreaker()] at time [now]: a new breaker with the same
    settings takes the place of the old one. *)
Definition resetCircuitBreaker (now : Z) (p : Tomorrow.t) : Tomorrow.t :=
  Tomorrow.set_circuitBreaker (CircuitBreaker.create now) p.

End Status.

(** ** The rest of the alert store
       ([infrastructure/persistence/prisma-alert.repository]) *)

Module Repository.

(** What a query of this module throws: Prisma refuses a negative
    [skip]. *)
Inductive QueryError :=
| NegativeSkip (skip : Z).

(** [findMany({ skip, take, orderBy: { createdAt: 'desc' } })] together with
    [count()].  [page] and [pageSize] are whole numbers, as Prisma requires
    of [skip] and [take]; the controller lets through [page >= 1] and
    [1 <= pageSize <= 100] only.  Rows created at the same instant come in
    the order the database chooses for them, which the model takes to be
    that of the table. *)
Definition listAlertsPaginated (page pageSize : nat) (tbl : Alerts.Table)
    : Outcome (list Alerts.AlertRecord * nat) QueryError :=
  let skip := (Z.of_nat page - 1) * Z.of_nat pageSize in
  if skip <? 0 then Throw (NegativeSkip skip)
  else Return (take pageSize (drop (Z.to_nat skip) (Alerts.listAlerts tbl)), length tbl).

(** [prisma.alert.delete({ where: { id } })]: the deletion of a row that
    does not exist throws. *)
Definition deleteAlert (id : string) (tbl : Alerts.Table)
    : Outcome Alerts.Table Alerts.RepositoryError :=
  if existsb (Alerts.has_id id) tbl then
    Return (List.filter (fun a => negb (Alerts.has_id id a)) tbl)
  else Throw (Alerts.RecordNotFound id).

(** [prisma.alert.deleteMany({})]: the table it leaves and the count it
    returns. *)
Definition deleteAllAlerts (tbl : Alerts.Table) : Alerts.Table * nat :=
  ([], length tbl).

End Repository.

(** ** Processing statistics
       ([EventDrivenAlertEvaluationUseCase.getProcessingStats]) *)

Module Processing.

Record AlertCounts := {
  total : nat;
  active : nat;
  triggered : nat;
}.

(** A [Date] is truthy whatever its value. *)
Definition is_active (a : Alerts.AlertRecord) : bool :=
  match Alerts.lastEvaluatedAt a with Some _ => true | None => false end.

Definition is_triggered (a : Alerts.AlertRecord) : bool :=
  match Alerts.lastState a with Some true => true | _ => false end.

(** [kafkaStatus] is what [getHealthStatus] answered. *)
Definition getProcessingStats {K : Type} (kafkaStatus : K) (tbl : Alerts.Table)
    : K * AlertCounts :=
  let alerts := Alerts.listAlerts tbl in
  (kafkaStatus,
   {| total := length alerts;
      active := length (List.filter is_active alerts);
      triggered := length (List.filter is_triggered alerts) |}).

End Processing.

(** ** Evaluation of one alert
       ([EvaluateSingleAlertUseCase], in [evaluate-all-alerts.use-case]) *)

Module Single.

Inductive Failure (E : Type) :=
| AlertNotFound (alertId : string)
| Provider (e : E)
| Repository (e : Alerts.RepositoryError).
Arguments AlertNotFound {E} alertId.
Arguments Provider {E} e.
Arguments Repository {E} e.

(** What [execute] resolves with. *)
Module Answer.
Record t := {
  triggered : bool;
  value : option Q;
}.
End Answer.

Section WithProvider.

Context {S E : Type}.
Variable getRealtime :
  Q -> Q -> Weather.Source -> S -> S * Outcome Weather.RealtimeWeatherData E.

Definition execute (alertId : string) (now : Z) (st : S) (tbl : Alerts.Table)
    : S * Alerts.Table * Outcome Answer.t (Failure E) :=
  match List.find (Alerts.has_id alertId) (Alerts.getAllAlerts tbl) with
  | None => (st, tbl, Throw (AlertNotFound alertId))
  | Some alert =>
      match Alerts.latitude alert, Alerts.longitude alert with
      | Some latitude, Some longitude =>
          let '(st1, r) := getRealtime latitude longitude Weather.scheduled st in
          match r with
          | Throw e => (st1, tbl, Throw (Provider e))
          | Return weatherData =>
              let ev := Scheduled.evaluate alert weatherData in
              match
                Alerts.updateAlertAfterEvaluation (Alerts.id alert) (currentValue ev)
                  (triggered ev) now tbl
              with
              | Throw e => (st1, tbl, Throw (Repository e))
              | Return tbl1 =>
                  (st1, tbl1,
                   Return {| Answer.triggered := triggered ev;
                             Answer.value := currentValue ev |})
              end
          end
      | _, _ => (st, tbl, Return {| Answer.triggered := false; Answer.value := None |})
      end
  end.

End WithProvider.

End Single.

(** ** Live updates ([infrastructure/websocket/websocket.service]) *)

Module Sockets.

Record ClientSubscription := {
  weatherLocations : list (Q * Q);
  alertIds : list string;
  systemUpdates : bool;
}.

Definition isClientInterestedInWeather (subscription : ClientSubscription)
    (weatherData : Kafka.WeatherEventData) : bool :=
  existsb (fun loc =>
    Double.lt (Double.abs (Double.sub (fst loc) (Kafka.latitude weatherData)))
      Double.hundredth &&
    Double.lt (Double.abs (Double.sub (snd loc) (Kafka.longitude weatherData)))
      Double.hundredth)
    (weatherLocations subscription).

Definition isClientInterestedInAlert (subscription : ClientSubscription)
    (alertData : Kafka.AlertEventData) : bool :=
  existsb (String.eqb (Kafka.alertId alertData)) (alertIds subscription) ||
  systemUpdates subscription.

End Sockets.

(** ** The server ([index]: the providers it constructs and the routes
       that use them) *)

Module Server.

(** [weatherProvider] is the provider constructed first;
    [eventDrivenWeatherProvider] is the provider that
    [new EventDrivenWeatherProvider(...)] constructs for itself. *)
Record t := {
  weatherProvider : Tomorrow.t;
  eventDrivenWeatherProvider : Tomorrow.t;
  kafkaService : Kafka.t;
  useSimpleMode : bool;
}.

(** The requests the providers see: [GET /health],
    [POST /dev/reset-circuit-breaker], and a [GET /api/weather/realtime]
    whose [lat] and [lon] passed the route's checks, with what the outside
    holds for the provider's call and the time at which the call is
    answered. *)
Inductive Request :=
| Health (now : Z)
| ResetCircuitBreaker (now : Z)
| Realtime (latitude longitude : Q) (visit : Wiring.Visit) (answered : Z).

Inductive Response :=
| WeatherApi (status : Status.ApiStatus)
| ResetDone
| Weather (r : Outcome Weather.RealtimeWeatherData Wiring.Error).

Definition inner (latitude longitude : Q) (st : Wiring.State)
    : Wiring.State * Outcome Weather.RealtimeWeatherData Wiring.Error :=
  Wiring.getRealtime latitude longitude st.

Definition handle (request : Request) (srv : t) : t * Response :=
  match request with
  | Health now => (srv, WeatherApi (Status.getApiStatus now (weatherProvider srv)))
  | ResetCircuitBreaker now =>
      ({| weatherProvider := Status.resetCircuitBreaker now (weatherProvider srv);
          eventDrivenWeatherProvider := eventDrivenWeatherProvider srv;
          kafkaService := kafkaService srv;
          useSimpleMode := useSimpleMode srv |},
       ResetDone)
  | Realtime latitude longitude visit answered =>
      if useSimpleMode srv then
        let '(st, r) := inner latitude longitude (weatherProvider srv, [visit]) in
        ({| weatherProvider := fst st;
            eventDrivenWeatherProvider := eventDrivenWeatherProvider srv;
            kafkaService := kafkaService srv;
            useSimpleMode := useSimpleMode srv |},
         Weather r)
      else
        let '(st, k, r) :=
          EventDrivenProvider.getRealtime inner latitude longitude None answered
            (eventDrivenWeatherProvider srv, [visit]) (kafkaService srv) in
        ({| weatherProvider := weatherProvider srv;
            eventDrivenWeatherProvider := fst st;
            kafkaService := k;
            useSimpleMode := useSimpleMode srv |},
         Weather r)
  end.

(** The requests one after the other: the server they leave and the
    responses. *)
Fixpoint serve (requests : list Request) (srv : t) : t * list Response :=
  match requests with
  | [] => (srv, [])
  | request :: rest =>
      let '(srv1, response) := handle request srv in
      let '(srv2, responses) := serve rest srv1 in
      (srv2, response :: responses)
  end.

End Server.

(** ** API handling patterns ([shared/utils/api-patterns]): the token
       bucket, the adaptive client and request deduplication *)

Module Patterns.

(** [Math.min] and [Math.max]. *)
Definition min (a b : Q) : Q := if Qle_bool a b then a else b.
Definition max (a b : Q) : Q := if Qle_bool a b then b else a.

(** *** [TokenBucket] and [TokenBucketRateLimiter] *)

Record TokenBucket := {
  tokens : Q;
  lastRefill : Z;
}.

(** [new TokenBucket(capacity, initialTokens)] at time [now]. *)
Definition newTokenBucket (initialTokens : Q) (now : Z) : TokenBucket :=
  {| tokens := initialTokens; lastRefill := now |}.

Definition consume (n : Q) (b : TokenBucket) : TokenBucket * bool :=
  if Js.ge (tokens b) n
  then ({| tokens := tokens b - n; lastRefill := lastRefill b |}, true)
  else (b, false).

(** [refill()] at time [now].  [timePassed / 1000] and its product with the
    rate are the doubles the source computes, and [Math.floor] is taken of
    the rounded product.  (The tokens held are whole numbers far below
    [2^53] for a whole capacity, and their sum with the tokens added is
    exact; a product beyond the range of the doubles is outside the
    model.) *)
Definition refill (rate capacity : Q) (now : Z) (b : TokenBucket) : TokenBucket :=
  let timePassed := now - lastRefill b in
  let tokensToAdd :=
    Qfloor (Double.round (Double.round (inject_Z timePassed / 1000) * rate)) in
  {| tokens := min capacity (tokens b + inject_Z tokensToAdd); lastRefill := now |}.

Record TokenBucketRateLimiter := {
  buckets : gmap string TokenBucket;
  capacity : Q;
  refillRate : Q;
  refillInterval : Z;
}.

Definition set_buckets (m : gmap string TokenBucket) (l : TokenBucketRateLimiter)
    : TokenBucketRateLimiter :=
  {| buckets := m; capacity := capacity l; refillRate := refillRate l;
     refillInterval := refillInterval l |}.

(** [isAllowed(key, tokens)] at time [now]. *)
Definition isAllowed (key : string) (n : Q) (now : Z) (l : TokenBucketRateLimiter)
    : TokenBucketRateLimiter * bool :=
  let bucket :=
    match buckets l !! key with
    | Some bucket => bucket
    | None => newTokenBucket (capacity l) now
    end in
  let '(bucket', allowed) := consume n bucket in
  (set_buckets (<[key := bucket']> (buckets l)) l, allowed).

Definition getRemainingTokens (key : string) (l : TokenBucketRateLimiter) : Q :=
  match buckets l !! key with
  | Some bucket => tokens bucket
  | None => capacity l
  end.

(** One firing of the refill timer, at time [now]. *)
Definition refillBuckets (now : Z) (l : TokenBucketRateLimiter) : TokenBucketRateLimiter :=
  set_buckets (refill (refillRate l) (capacity l) now <$> buckets l) l.

(** *** [AdaptiveApiClient] *)

Record AdaptiveApiClient := {
  errorCounts : gmap string Z;
  responseTimesMs : gmap string (list Q);
  backoffMultiplier : Q;
}.

Definition maxResponseTimes : nat := 10.
Definition maxBackoffMultiplier : Q := 8.

(** A new client. *)
Definition newClient : AdaptiveApiClient :=
  {| errorCounts := ∅; responseTimesMs := ∅; backoffMultiplier := 1 |}.

Definition recordResponseTime (endpoint : string) (timeMs : Q) (c : AdaptiveApiClient)
    : AdaptiveApiClient :=
  let times := default [] (responseTimesMs c !! endpoint) ++ [timeMs] in
  let times :=
    if (maxResponseTimes <? length times)%nat
    then drop (length times - maxResponseTimes) times
    else times in
  {| errorCounts := errorCounts c;
     responseTimesMs := <[endpoint := times]> (responseTimesMs c);
     backoffMultiplier := backoffMultiplier c |}.

Definition recordError (endpoint : string) (c : AdaptiveApiClient) : AdaptiveApiClient :=
  let count := default 0 (errorCounts c !! endpoint) in
  {| errorCounts := <[endpoint := count + 1]> (errorCounts c);
     responseTimesMs := responseTimesMs c;
     backoffMultiplier :=
       if 2 <=? count
       then min (backoffMultiplier c * 2) maxBackoffMultiplier
       else backoffMultiplier c |}.

Definition recordSuccess (endpoint : string) (c : AdaptiveApiClient) : AdaptiveApiClient :=
  {| errorCounts := <[endpoint := 0]> (errorCounts c);
     responseTimesMs := responseTimesMs c;
     backoffMultiplier := max 1 (backoffMultiplier c * (1 # 2)) |}.

(** The delay [makeRequest] adds before the request while it is backing
    off. *)
Definition adaptiveDelay (c : AdaptiveApiClient) : option Q :=
  if Js.gt (backoffMultiplier c) 1
  then Some (min (1000 * backoffMultiplier c) 5000)
  else None.

(** *** [RequestDeduplicationService] *)

Record Cached (T : Type) := {
  data : T;
  expiresAt : Z;
}.
Arguments data {T} _.
Arguments expiresAt {T} _.

Record RequestDeduplicationService (T : Type) := {
  pendingRequests : gmap string nat;
  dedupCache : gmap string (Cached T);
  ttl : Z;
}.
Arguments pendingRequests {T} _.
Arguments dedupCache {T} _.
Arguments ttl {T} _.

Inductive Deduplicated (T : Type) :=
| FromCache (v : T)
| Pending (promise : nat)
| Fetching (promise : nat).
Arguments FromCache {T} v.
Arguments Pending {T} promise.
Arguments Fetching {T} promise.

(** [cached && cached.expiresAt > Date.now()]. *)
Definition fresh {T} (cached : option (Cached T)) (now : Z) : option T :=
  match cached with
  | Some c => if now <? expiresAt c then Some (data c) else None
  | None => None
  end.

(** The synchronous part of [deduplicate(key, fetcher)] at time [now];
    [promise] names the promise a new request gets. *)
Definition deduplicate {T} (key : string) (now : Z) (promise : nat)
    (s : RequestDeduplicationService T) : RequestDeduplicationService T * Deduplicated T :=
  match fresh (dedupCache s !! key) now with
  | Some v => (s, FromCache v)
  | None =>
      match pendingRequests s !! key with
      | Some pending => (s, Pending pending)
      | None =>
          ({| pendingRequests := <[key := promise]> (pendingRequests s);
              dedupCache := dedupCache s; ttl := ttl s |}, Fetching promise)
      end
  end.

(** The [then] callback of a fetch that resolved with [v] at time [now],
    and the [finally] callback. *)
Definition fetched {T} (key : string) (v : T) (now : Z) (s : RequestDeduplicationService T)
    : RequestDeduplicationService T :=
  {| pendingRequests := pendingRequests s;
     dedupCache := <[key := {| data := v; expiresAt := now + ttl s |}]> (dedupCache s);
     ttl := ttl s |}.

Definition settledRequest {T} (key : string) (s : RequestDeduplicationService T)
    : RequestDeduplicationService T :=
  {| pendingRequests := delete key (pendingRequests s);
     dedupCache := dedupCache s; ttl := ttl s |}.

(** [cleanup()] at time [now]. *)
Definition cleanup {T} (now : Z) (s : RequestDeduplicationService T)
    : RequestDeduplicationService T :=
  {| pendingRequests := pendingRequests s;
     dedupCache := filter (fun kv => (now <? expiresAt (snd kv)) = true) (dedupCache s);
     ttl := ttl s |}.

End Patterns.

(** ** The cron job of the scheduler ([AlertEvaluationScheduler.start],
       [stop]) *)

Module Cron.

(** [job] is the scheduler's field; [scheduled] are the tasks [node-cron]
    holds for it, named by numbers. *)
Record t := {
  job : option nat;
  scheduled : list nat;
  nextTask : nat;
}.

Definition create : t := {| job := None; scheduled := []; nextTask := 0 |}.

Definition start (s : t) : t :=
  match job s with
  | Some _ => s
  | None =>
      {| job := Some (nextTask s); scheduled := scheduled s ++ [nextTask s];
         nextTask := S (nextTask s) |}
  end.

Definition stop (s : t) : t :=
  match job s with
  | Some j =>
      {| job := None; scheduled := List.filter (fun k => negb (Nat.eqb k j)) (scheduled s);
         nextTask := nextTask s |}
  | None => s
  end.

End Cron.

(** * Vocabulary and scenarios

    The predicates the properties are stated with, and the concrete
    providers, alerts, observations and histories they are tried on. *)

(** ** For numbers *)

(** [x] is the value of a finite double. *)
Definition is_double (x : Q) : Prop :=
  (Double.round x == x)%Q /\ (Qabs x < Double.pow2 1024)%Q.

(** The doubles next above and next below [0.01]: [0.01 + 2^-59] and
    [0.01 - 2^-59]. *)
Definition above_hundredth : Q := (Double.hundredth + (1 # 2 ^ 59))%Q.

Definition below_hundredth : Q := (Double.hundredth - (1 # 2 ^ 59))%Q.

(** ** For the circuit breaker *)

(** Operations that settle at time [done], one throwing and one
    returning. *)
Definition throwing (done : Z) (s : unit) : unit * Z * Outcome unit unit :=
  (s, done, Throw tt).

Definition returning (done : Z) (s : unit) : unit * Z * Outcome unit unit :=
  (s, done, Return tt).

(** A run of calls whose operation throws: each is made at its first time
    and its operation settles at its second. *)
Fixpoint fail_all (cfg : CircuitBreaker.CircuitBreakerConfig) (calls : list (Z * Z))
    (b : CircuitBreaker.t) : CircuitBreaker.t :=
  match calls with
  | [] => b
  | (now, done) :: rest =>
      fail_all cfg rest (fst (fst (CircuitBreaker.execute cfg now (throwing done) b tt)))
  end.

(** A run of calls whose operation succeeds or not as its flag says. *)
Fixpoint replay (cfg : CircuitBreaker.CircuitBreakerConfig) (calls : list (Z * Z * bool))
    (b : CircuitBreaker.t) : CircuitBreaker.t :=
  match calls with
  | [] => b
  | (now, done, ok) :: rest =>
      replay cfg rest
        (fst (fst (CircuitBreaker.execute cfg now
                     (if ok then returning done else throwing done) b tt)))
  end.

(** The breaker of the gateway after three failures in its first minute. *)
Definition tripped : CircuitBreaker.t :=
  fail_all Tomorrow.config [(1000, 1100); (2000, 2100); (3000, 3100)]
    (CircuitBreaker.create 0).

(** ** For the gateway *)

(** A failure the loop retries: the server answered 429 or 5xx. *)
Definition retryable (response : option Tomorrow.ErrorResponse) : Prop :=
  exists r, response = Some r /\
    (Tomorrow.status r = 429 \/ 500 <= Tomorrow.status r < 600).

(** The [retry-after] header of a failure. *)
Definition header_of (response : option Tomorrow.ErrorResponse) : Tomorrow.RetryAfter :=
  match response with
  | Some r => Tomorrow.retryAfter r
  | None => Tomorrow.NoHeader
  end.

(** The error of a 429 answer, as a caller would receive it. *)
Definition rate_limit_error (o : option Tomorrow.Result) : Prop :=
  exists r, Tomorrow.status r = 429 /\
    o = Some (Throw (CircuitBreaker.Failed (Tomorrow.AxiosError (Some r)))).

(** A provider as the server creates it (metric units, five-minute cache,
    no Redis) at time 0, the same with a Redis connection, and the random
    source that always draws 0. *)
Definition provider0 : Tomorrow.t := Tomorrow.create None None false 0.

Definition providerWithRedis : Tomorrow.t := Tomorrow.create None None true 0.

Definition zeros : nat -> Q := fun _ => 0%Q.

(** Answers of upstream: at time [now], with [r]. *)
Definition answers (now : Z) (r : Tomorrow.Reply) : Tomorrow.Tick :=
  {| Tomorrow.at_ := now; Tomorrow.reply := r; Tomorrow.random := zeros |}.

Definition unavailable : Tomorrow.ErrorResponse :=
  {| Tomorrow.status := 503; Tomorrow.retryAfter := Tomorrow.NoHeader |}.

Definition tooMany : Tomorrow.ErrorResponse :=
  {| Tomorrow.status := 429; Tomorrow.retryAfter := Tomorrow.NoHeader |}.

Definition badRequest : Tomorrow.ErrorResponse :=
  {| Tomorrow.status := 400; Tomorrow.retryAfter := Tomorrow.NoHeader |}.

Definition sunny : Tomorrow.Reply :=
  Tomorrow.Response None
    (Some {| Weather.temperature := Some 35%Q; Weather.windSpeed := Some 2%Q;
             Weather.rainIntensity := None; Weather.snowIntensity := None;
             Weather.sleetIntensity := None; Weather.freezingRainIntensity := None |}).

(** A reading that is not the one [sunny] gives. *)
Definition chilly : Weather.RealtimeWeatherData :=
  {| Weather.temperatureC := Some 3%Q; Weather.windSpeedMps := Some 9%Q;
     Weather.precipitationMmHr := Some 0%Q; Weather.raw := Weather.Upstream None |}.

(** The provider after a first call for (1, 1) at time 1000 that upstream
    answered at 1200, and then after a call for (2, 2) at time 2000 whose
    four attempts were all answered 429. *)
Definition after_sunny : Tomorrow.t :=
  fst (fst (Tomorrow.getRealtime 1 1 1000 None zeros [answers 1200 sunny] provider0)).

Definition throttled : list Tomorrow.Tick :=
  [answers 2100 (Tomorrow.Rejection (Some tooMany));
   answers 2600 (Tomorrow.Rejection (Some tooMany));
   answers 3500 (Tomorrow.Rejection (Some tooMany));
   answers 5200 (Tomorrow.Rejection (Some tooMany))].

Definition in_cooldown : Tomorrow.t :=
  fst (fst (Tomorrow.getRealtime 2 2 2000 None zeros throttled after_sunny)).

(** ** For overlapping calls *)

(** The number of flights whose request is with upstream. *)
Definition requesting (fs : list Flights.Flight) : nat :=
  length (List.filter Flights.is_requesting fs).

(** The replies an event delivers. *)
Definition arrived (e : Flights.Event) : nat :=
  match e with Flights.Arrive _ _ _ _ => 1 | _ => 0 end.

(** The flights and the [inFlight] map agree: promises are distinct and
    below the next one, and every flight is registered under its key. *)
Record coherent (s : Flights.System) : Prop := {
  distinct : NoDup (List.map Flights.promise (Flights.flights s));
  registered : forall f, In f (Flights.flights s) ->
    Tomorrow.inFlight (Flights.provider s) !! Flights.key f = Some (Flights.promise f);
  bounded : forall f, In f (Flights.flights s) ->
    (Flights.promise f < Flights.nextPromise s)%nat;
}.

(** Every flight goes under the key of the place it asks for. *)
Definition keyed (s : Flights.System) : Prop :=
  forall f, In f (Flights.flights s) ->
    Flights.key f =
      Tomorrow.cacheKey (Flights.provider s) (Flights.latitude f) (Flights.longitude f).

(** A first call for (1, 1), and the state it leaves while its request is
    with upstream, without and with Redis. *)
Definition firstCall : Flights.Event := Flights.Call 1 1 1000 None zeros.

Definition busy : Flights.System :=
  default (Flights.init provider0) (Flights.run [firstCall] (Flights.init provider0)).

Definition busyWithRedis : Flights.System :=
  default (Flights.init providerWithRedis)
    (Flights.run [firstCall] (Flights.init providerWithRedis)).

(** ** For the evaluation paths *)

(** An alert created with a city and no coordinates. *)
Definition cityOnly : Alerts.AlertRecord :=
  {| Alerts.id := "alert-city"; Alerts.name := Some "Heat in Boston";
     Alerts.cityName := Some "Boston"; Alerts.latitude := None; Alerts.longitude := None;
     Alerts.parameter := TEMPERATURE; Alerts.operator := GT; Alerts.threshold := 30;
     Alerts.contactEmail := Some "ops@example.com"; Alerts.contactPhone := None;
     Alerts.createdAt := 10; Alerts.lastValue := None; Alerts.lastState := None;
     Alerts.lastEvaluatedAt := None |}.

(** A rain alert in Boston: its row in the table, and the alert as the
    event-driven engine expects to read it. *)
Definition rainRow : Alerts.AlertRecord :=
  {| Alerts.id := "alert-rain"; Alerts.name := Some "Rain in Boston";
     Alerts.cityName := None;
     Alerts.latitude := Some (4236 # 100); Alerts.longitude := Some (- 7106 # 100);
     Alerts.parameter := PRECIPITATION; Alerts.operator := GT; Alerts.threshold := 1;
     Alerts.contactEmail := Some "ops@example.com"; Alerts.contactPhone := None;
     Alerts.createdAt := 20; Alerts.lastValue := None; Alerts.lastState := None;
     Alerts.lastEvaluatedAt := None |}.

Definition rainWatch : EventDriven.JsAlert :=
  {| EventDriven.id := "alert-rain"; EventDriven.name := Some "Rain in Boston";
     EventDriven.parameter := "precipitation"; EventDriven.operator := "GT";
     EventDriven.value := Some 1%Q; EventDriven.lastState := None;
     EventDriven.latitude := Some (4236 # 100);
     EventDriven.longitude := Some (- 7106 # 100);
     EventDriven.cityName := None |}.

(** An alert of the same kind whose row is gone from the table. *)
Definition ghost : EventDriven.JsAlert :=
  {| EventDriven.id := "alert-gone"; EventDriven.name := None;
     EventDriven.parameter := "precipitation"; EventDriven.operator := "GT";
     EventDriven.value := Some 1%Q; EventDriven.lastState := None;
     EventDriven.latitude := Some (4236 # 100);
     EventDriven.longitude := Some (- 7106 # 100);
     EventDriven.cityName := None |}.


Definition wetEvent : Kafka.WeatherEventData :=
  {| Kafka.latitude := 4236 # 100; Kafka.longitude := - 7106 # 100;
     Kafka.temperatureC := Some 12%Q; Kafka.windSpeedMps := Some 3%Q;
     Kafka.precipitationMmHr := Some 4%Q; Kafka.timestamp := 4000;
     Kafka.source := Weather.api |}.

Definition rainWorld : EventDriven.World :=
  {| EventDriven.table := [rainRow]; EventDriven.kafka := Kafka.empty true |}.

(** A heat alert in New York, temperature above 30 as in the scenario of
    the specification: its row, and the alert as the event-driven engine
    expects to read it when its row holds [lastState]. *)
Definition hotRow : Alerts.AlertRecord :=
  {| Alerts.id := "alert-hot"; Alerts.name := Some "Heat in New York";
     Alerts.cityName := None;
     Alerts.latitude := Some (4071 # 100); Alerts.longitude := Some (- 7401 # 100);
     Alerts.parameter := TEMPERATURE; Alerts.operator := GT; Alerts.threshold := 30;
     Alerts.contactEmail := Some "ops@example.com"; Alerts.contactPhone := Some "+15550100";
     Alerts.createdAt := 30; Alerts.lastValue := None; Alerts.lastState := None;
     Alerts.lastEvaluatedAt := None |}.













(** The rain alert at another place. *)
Definition rainRowAt (latitude longitude : Q) : Alerts.AlertRecord :=
  {| Alerts.id := Alerts.id rainRow; Alerts.name := Alerts.name rainRow;
     Alerts.cityName := None;
     Alerts.latitude := Some latitude; Alerts.longitude := Some longitude;
     Alerts.parameter := Alerts.parameter rainRow; Alerts.operator := Alerts.operator rainRow;
     Alerts.threshold := Alerts.threshold rainRow;
     Alerts.contactEmail := Alerts.contactEmail rainRow;
     Alerts.contactPhone := Alerts.contactPhone rainRow;
     Alerts.createdAt := Alerts.createdAt rainRow;
     Alerts.lastValue := None; Alerts.lastState := None; Alerts.lastEvaluatedAt := None |}.

(** An observation at a place. *)
Definition observedAt (latitude longitude : Q) : Kafka.WeatherEventData :=
  {| Kafka.latitude := latitude; Kafka.longitude := longitude;
     Kafka.temperatureC := Some 12%Q; Kafka.windSpeedMps := Some 3%Q;
     Kafka.precipitationMmHr := Some 4%Q; Kafka.timestamp := 4000;
     Kafka.source := Weather.api |}.

(** The gateway with what the outside holds for the calls of a sweep: a
    first call that upstream rejects with status 400 and a second it would
    answer; and two calls, six minutes apart, that it answers alike. *)
Definition visit (now : Z) (script : list Tomorrow.Tick) : Wiring.Visit :=
  {| Wiring.now := now; Wiring.cached := None; Wiring.rnd := zeros;
     Wiring.script := script |}.

Definition rejectedThenFine : Wiring.State :=
  (provider0,
   [visit 1000 [answers 1100 (Tomorrow.Rejection (Some badRequest))];
    visit 2000 [answers 2100 sunny]]).

Definition hotTwice : Wiring.State :=
  (provider0, [visit 1000 [answers 1100 sunny]; visit 400000 [answers 400100 sunny]]).

(** ** For the status reports and the bounds of the gateway *)

(** The random numbers are those of [Math.random()]: in [0, 1). *)
Definition unit_interval (rnd : nat -> Q) : Prop :=
  forall i, (0 <= rnd i)%Q /\ (rnd i < 1)%Q.

(** The time a call spends in its backoff delays, in milliseconds. *)
Definition slept (eff : list Tomorrow.Effect) : Q :=
  fold_right (fun e acc => match e with Tomorrow.Sleep ms => (ms + acc)%Q | _ => acc end)
    0%Q eff.

(** No failure of the script carries a [retry-after] header, and its
    random numbers are those of [Math.random()]. *)
Definition plain (tick : Tomorrow.Tick) : Prop :=
  unit_interval (Tomorrow.random tick) /\
  match Tomorrow.reply tick with
  | Tomorrow.Rejection response => header_of response = Tomorrow.NoHeader
  | Tomorrow.Response _ _ => True
  end.

(** The keys of [p]'s cache are among those of [p']'s. *)
Definition keeps_keys (p p' : Tomorrow.t) : Prop :=
  forall k, is_Some (Tomorrow.cache p !! k) -> is_Some (Tomorrow.cache p' !! k).

(** The writes to Redis among the effects of a call. *)
Definition redis_writes (eff : list Tomorrow.Effect) : nat :=
  length (List.filter
            (fun e => match e with Tomorrow.RedisSetex _ _ _ => true | _ => false end) eff).

(** The cache of [p'] has the keys of [p]'s, and is no smaller. *)
Definition grows (p p' : Tomorrow.t) : Prop :=
  keeps_keys p p' /\ (size (Tomorrow.cache p) <= size (Tomorrow.cache p'))%nat.

(** A first call for (1, 1) whose first three attempts were answered 429:
    its fourth request is with upstream. *)
Definition fourthAttempt : Flights.System :=
  default (Flights.init provider0)
    (Flights.run
       [firstCall;
        Flights.Arrive 0 1100 (Tomorrow.Rejection (Some tooMany)) zeros;
        Flights.Wake 0 1500;
        Flights.Arrive 0 1600 (Tomorrow.Rejection (Some tooMany)) zeros;
        Flights.Wake 0 2400;
        Flights.Arrive 0 2500 (Tomorrow.Rejection (Some tooMany)) zeros;
        Flights.Wake 0 4100]
       (Flights.init provider0)).

(** The longest the attempts from [attempt] on can sleep between them when
    upstream names no delay: 400, 800 and 1600 ms, each with a jitter of at
    most 249 ms. *)
Definition budget (attempt : nat) : Q :=
  match attempt with
  | 1%nat => 3547
  | 2%nat => 2898
  | 3%nat => 1849
  | _ => 0
  end.

(** [p'] has the settings [p] was constructed with. *)
Definition same_settings (p p' : Tomorrow.t) : Prop :=
  Tomorrow.units p' = Tomorrow.units p /\
  Tomorrow.redis p' = Tomorrow.redis p /\
  Tomorrow.cacheTtlMs p' = Tomorrow.cacheTtlMs p.

(** ** For the alert store *)

(** A row that has a state has the time of an evaluation. *)
Definition dated (a : Alerts.AlertRecord) : Prop :=
  Alerts.lastState a <> None -> Alerts.lastEvaluatedAt a <> None.

(** The rows of page [page]. *)
Definition page_of (pageSize : nat) (tbl : Alerts.Table) (page : nat)
    : list Alerts.AlertRecord :=
  match Repository.listAlertsPaginated page pageSize tbl with
  | Return items_total => fst items_total
  | Throw _ => []
  end.

(** The alert [id] has no coordinates: it was created with a city name
    only. *)
Definition unlocated (id : string) (tbl : Alerts.Table) : Prop :=
  forall a, In a tbl -> Alerts.id a = id ->
    Alerts.latitude a = None \/ Alerts.longitude a = None.

(** A provider that answers every call with the same reading. *)
Definition steady (weatherData : Weather.RealtimeWeatherData)
    (latitude longitude : Q) (source : Weather.Source) (st : unit)
    : unit * Outcome Weather.RealtimeWeatherData unit :=
  (st, Return weatherData).

(** ** For the publishing gateway, the live updates and the server *)

(** A provider that fails south of the equator and answers the same
    reading north of it: what it answers for a key, and the provider. *)
Definition hemisphere (key : EventDrivenProvider.Key)
    : Outcome Weather.RealtimeWeatherData unit :=
  if fst (fst key) <? 0 then Throw tt else Return chilly.

Definition northern (latitude longitude : Q) (st : unit)
    : unit * Outcome Weather.RealtimeWeatherData unit :=
  (st, hemisphere (EventDrivenProvider.key latitude longitude)).

(** A wind alert in the Gulf of Guinea, 0.01 degrees north of the equator
    on the prime meridian. *)
Definition equatorRow : Alerts.AlertRecord :=
  {| Alerts.id := "alert-equator"; Alerts.name := Some "Wind in the Gulf of Guinea";
     Alerts.cityName := None;
     Alerts.latitude := Some Double.hundredth; Alerts.longitude := Some 0%Q;
     Alerts.parameter := WIND_SPEED; Alerts.operator := GT; Alerts.threshold := 10;
     Alerts.contactEmail := Some "ops@example.com"; Alerts.contactPhone := None;
     Alerts.createdAt := 50; Alerts.lastValue := None; Alerts.lastState := None;
     Alerts.lastEvaluatedAt := None |}.

(** A client that watches one place. *)
Definition watching (latitude longitude : Q) : Sockets.ClientSubscription :=
  {| Sockets.weatherLocations := [(latitude, longitude)];
     Sockets.alertIds := [];
     Sockets.systemUpdates := false |}.

(** The server as [index] starts it at time 0, in the default mode (no
    [SIMPLE_MODE]), Kafka connected. *)
Definition server0 : Server.t :=
  {| Server.weatherProvider := provider0;
     Server.eventDrivenWeatherProvider := provider0;
     Server.kafkaService := Kafka.empty true;
     Server.useSimpleMode := false |}.

Definition is_realtime (request : Server.Request) : bool :=
  match request with Server.Realtime _ _ _ _ => true | _ => false end.

(** The report of [GET /health] at time [now]. *)
Definition health (now : Z) (srv : Server.t) : Status.ApiStatus :=
  Status.getApiStatus now (Server.weatherProvider srv).


(** ** For the API handling patterns *)

(** Every bucket of the limiter holds between 0 tokens and the capacity,
    and was refilled no later than [now]. *)
Definition within (now : Z) (l : Patterns.TokenBucketRateLimiter) : Prop :=
  forall key bucket, Patterns.buckets l !! key = Some bucket ->
    (0 <= Patterns.tokens bucket)%Q /\
    (Patterns.tokens bucket <= Patterns.capacity l)%Q /\
    Patterns.lastRefill bucket <= now.

(** Refills that each come too soon after the one before to add a whole
    token at [rate] tokens a second, by one part in a thousand at least:
    the time since the last refill, in milliseconds, times the rate is at
    most 999. *)
Fixpoint hasty (rate : Q) (last : Z) (times : list Z) : Prop :=
  match times with
  | [] => True
  | now :: rest =>
      last <= now /\ (inject_Z (now - last) * rate <= 999)%Q /\ hasty rate now rest
  end.

Definition refills (rate capacity : Q) (times : list Z) (b : Patterns.TokenBucket)
    : Patterns.TokenBucket :=
  fold_left (fun b now => Patterns.refill rate capacity now b) times b.

(** What happens to an adaptive client. *)
Inductive Recorded :=
| Succeeded (endpoint : string) (timeMs : Q)
| Errored (endpoint : string).

Definition record (c : Patterns.AdaptiveApiClient) (r : Recorded) : Patterns.AdaptiveApiClient :=
  match r with
  | Succeeded endpoint timeMs =>
      Patterns.recordSuccess endpoint (Patterns.recordResponseTime endpoint timeMs c)
  | Errored endpoint => Patterns.recordError endpoint c
  end.

(** A deduplication service that holds a reading until 40000. *)
Definition remembering : Patterns.RequestDeduplicationService Q :=
  {| Patterns.pendingRequests := ∅;
     Patterns.dedupCache :=
       {["boston" := {| Patterns.data := 12%Q; Patterns.expiresAt := 40000 |}]};
     Patterns.ttl := 30000 |}.

(** ** For the cron job *)

(** A history of calls of [start] ([true]) and [stop] ([false]). *)
Definition switched (calls : list bool) : Cron.t :=
  fold_left (fun s (flag : bool) => if flag then Cron.start s else Cron.stop s) calls Cron.create.

(** * Properties *)

(** ** Numbers *)

Lemma Js_lt_spec x y : Js.lt x y = true <-> (x < y)%Q.
Proof.
  unfold Js.lt. rewrite negb_true_iff. split.
  - intros H. apply Qnot_le_lt. intros Hle. apply Qle_bool_iff in Hle. congruence.
  - intros H. destruct (Qle_bool y x) eqn:E; [|reflexivity].
    apply Qle_bool_iff in E. exfalso. exact (Qlt_not_le _ _ H E).
Qed.

Lemma Js_le_spec x y : Js.le x y = true <-> (x <= y)%Q.
Proof. apply Qle_bool_iff. Qed.

Lemma Js_strict_eq_spec x y : Js.strict_eq x y = true <-> (x == y)%Q.
Proof. apply Qeq_bool_iff. Qed.

Lemma Js_or_zero_eq a : (Js.or_zero a == Js.nullish a 0)%Q.
Proof.
  destruct a as [q|]; simpl; [|reflexivity].
  destruct (Qeq_bool q 0) eqn:E; [|reflexivity].
  apply Qeq_bool_iff in E. symmetry. exact E.
Qed.

(** *** Rounding to doubles

    Rounding keeps the order of the rationals and is symmetric about 0, so
    a rounded distance compares with a double as the exact one does, up to
    the next double. *)

Lemma pow2_pos e : (0 < Double.pow2 e)%Q.
Proof. apply Qpower_0_lt. reflexivity. Qed.

Lemma pow2_add a b : (Double.pow2 (a + b) == Double.pow2 a * Double.pow2 b)%Q.
Proof. apply Qpower_plus. discriminate. Qed.

Lemma pow2_le a b : a <= b -> (Double.pow2 a <= Double.pow2 b)%Q.
Proof. intros H. apply Qpower_le_compat_l; [exact H | discriminate]. Qed.

Lemma pow2_Z e : 0 <= e -> (Double.pow2 e == inject_Z (2 ^ e))%Q.
Proof. intros H. symmetry. apply (Zpower_Qpower 2 e H). Qed.

Lemma div_pow2 x e : (x / Double.pow2 e == x * Double.pow2 (- e))%Q.
Proof. unfold Qdiv, Double.pow2. rewrite Qpower_opp. reflexivity. Qed.

Lemma pow2_cancel e : (Double.pow2 (- e) * Double.pow2 e == 1)%Q.
Proof. rewrite <- pow2_add. replace (- e + e) with 0 by lia. reflexivity. Qed.

(** The binade of a positive rational. *)
Lemma binade_spec x :
  (0 < x)%Q ->
  (Double.pow2 (Double.binade x) <= x)%Q /\ (x < Double.pow2 (Double.binade x + 1))%Q.
Proof.
  intros Hx. destruct x as [n d].
  assert (Hn : 0 < n) by (unfold Qlt in Hx; simpl in Hx; lia).
  unfold Double.binade. cbn [Qnum Qden].
  set (a := Z.log2 n). set (b := Z.log2 (Z.pos d)).
  destruct (Z.log2_spec n Hn) as [Ha1 Ha2]. fold a in Ha1, Ha2.
  destruct (Z.log2_spec (Z.pos d) ltac:(lia)) as [Hb1 Hb2]. fold b in Hb1, Hb2.
  assert (Ha0 : 0 <= a) by apply Z.log2_nonneg.
  assert (Hb0 : 0 <= b) by apply Z.log2_nonneg.
  assert (Hup : (n # d < Double.pow2 (a - b + 1))%Q).
  { apply (Qmult_lt_r _ _ (Double.pow2 b) (pow2_pos b)).
    rewrite <- pow2_add. replace (a - b + 1 + b) with (Z.succ a) by lia.
    rewrite !pow2_Z by lia.
    unfold Qlt, Qmult, inject_Z. cbn [Qnum Qden].
    set (A := 2 ^ Z.succ a) in *. set (B := 2 ^ b) in *.
    rewrite !Pos.mul_1_r, !Z.mul_1_r. nia. }
  assert (Hlo : (Double.pow2 (a - b - 1) <= n # d)%Q).
  { apply (Qmult_le_r _ _ (Double.pow2 (Z.succ b)) (pow2_pos _)).
    rewrite <- pow2_add. replace (a - b - 1 + Z.succ b) with a by lia.
    rewrite !pow2_Z by lia.
    unfold Qle, Qmult, inject_Z. cbn [Qnum Qden].
    set (A := 2 ^ a) in *. set (B := 2 ^ Z.succ b) in *.
    rewrite !Pos.mul_1_r, !Z.mul_1_r. nia. }
  destruct (Qle_bool (Double.pow2 (a - b)) (n # d)) eqn:E.
  - apply Qle_bool_iff in E. split; assumption.
  - split; [exact Hlo|].
    replace (a - b - 1 + 1) with (a - b) by lia.
    apply Qnot_le_lt. intros H. apply Qle_bool_iff in H. congruence.
Qed.

Lemma binade_mono x y : (0 < x)%Q -> (x <= y)%Q -> Double.binade x <= Double.binade y.
Proof.
  intros Hx Hxy.
  destruct (binade_spec x Hx) as [Hx1 _].
  destruct (binade_spec y (Qlt_le_trans _ _ _ Hx Hxy)) as [_ Hy2].
  destruct (Z_le_gt_dec (Double.binade x) (Double.binade y)) as [H|H]; [exact H|].
  exfalso.
  assert (Hp : (Double.pow2 (Double.binade y + 1) <= Double.pow2 (Double.binade x))%Q)
    by (apply pow2_le; lia).
  lra.
Qed.

Lemma nearest_even_mono q q' : (q <= q')%Q -> Double.nearest_even q <= Double.nearest_even q'.
Proof.
  intros H. unfold Double.nearest_even.
  pose proof (Qfloor_resp_le _ _ H) as Hf.
  pose proof (Qfloor_le q) as L. pose proof (Qlt_floor q) as U.
  pose proof (Qfloor_le q') as L'. pose proof (Qlt_floor q') as U'.
  destruct (Z.eq_dec (Qfloor q) (Qfloor q')) as [E|NE].
  - rewrite <- E in *.
    destruct (q - inject_Z (Qfloor q) ?= 1 # 2)%Q eqn:C;
      destruct (q' - inject_Z (Qfloor q) ?= 1 # 2)%Q eqn:C';
      first [apply <- Qeq_alt in C | apply <- Qlt_alt in C | apply <- Qgt_alt in C];
      first [apply <- Qeq_alt in C' | apply <- Qlt_alt in C' | apply <- Qgt_alt in C'];
      try lia; try (destruct (Z.even (Qfloor q)); lia); exfalso; lra.
  - assert (Qfloor q + 1 <= Qfloor q') by lia.
    destruct (q - inject_Z (Qfloor q) ?= 1 # 2)%Q;
      destruct (q' - inject_Z (Qfloor q') ?= 1 # 2)%Q;
      try destruct (Z.even (Qfloor q)); try destruct (Z.even (Qfloor q')); lia.
Qed.

Lemma nearest_even_Z n : Double.nearest_even (inject_Z n) = n.
Proof.
  unfold Double.nearest_even. rewrite Qfloor_Z.
  assert (H : (inject_Z n - inject_Z n ?= 1 # 2)%Q = Lt).
  { rewrite <- Qlt_alt. lra. }
  rewrite H. reflexivity.
Qed.

Lemma round_magnitude_nonneg x : (0 <= Double.round_magnitude x)%Q.
Proof.
  unfold Double.round_magnitude. destruct (Qle_bool x 0) eqn:E; [apply Qle_refl|].
  assert (Hx : (0 < x)%Q).
  { apply Qnot_le_lt. intros H. apply Qle_bool_iff in H. congruence. }
  apply Qmult_le_0_compat; [|apply Qlt_le_weak, pow2_pos].
  change 0%Q with (inject_Z 0). rewrite <- Zle_Qle.
  rewrite <- (nearest_even_Z 0). apply nearest_even_mono.
  change (inject_Z 0) with 0%Q. rewrite div_pow2.
  apply Qmult_le_0_compat; [lra | apply Qlt_le_weak, pow2_pos].
Qed.

Lemma round_magnitude_mono x y :
  (x <= y)%Q -> (Double.round_magnitude x <= Double.round_magnitude y)%Q.
Proof.
  intros Hxy. unfold Double.round_magnitude at 1.
  destruct (Qle_bool x 0) eqn:Ex; [apply round_magnitude_nonneg|].
  assert (Hx : (0 < x)%Q).
  { apply Qnot_le_lt. intros H. apply Qle_bool_iff in H. congruence. }
  unfold Double.round_magnitude.
  destruct (Qle_bool y 0) eqn:Ey; [apply Qle_bool_iff in Ey; exfalso; lra|].
  assert (Hy : (0 < y)%Q) by lra.
  pose proof (binade_mono x y Hx Hxy) as Hb.
  destruct (binade_spec x Hx) as [_ Hx2]. destruct (binade_spec y Hy) as [Hy1 _].
  set (ex := Double.exponent x). set (ey := Double.exponent y).
  assert (Hexy : ex <= ey) by (unfold ex, ey, Double.exponent; lia).
  destruct (Z.eq_dec ex ey) as [E|NE].
  - rewrite <- E. apply Qmult_le_compat_r; [|apply Qlt_le_weak, pow2_pos].
    rewrite <- Zle_Qle. apply nearest_even_mono.
    rewrite !div_pow2. apply Qmult_le_compat_r; [exact Hxy | apply Qlt_le_weak, pow2_pos].
  - assert (Hlt : ex < ey) by lia.
    apply Qle_trans with (Double.pow2 (ex + 53)).
    + rewrite (Z.add_comm ex 53), pow2_add.
      apply Qmult_le_compat_r; [|apply Qlt_le_weak, pow2_pos].
      rewrite (pow2_Z 53) by lia. rewrite <- Zle_Qle.
      rewrite <- (nearest_even_Z (2 ^ 53)). apply nearest_even_mono.
      rewrite <- (pow2_Z 53) by lia. rewrite div_pow2.
      apply (Qmult_le_r _ _ (Double.pow2 ex) (pow2_pos _)).
      rewrite <- Qmult_assoc, pow2_cancel, Qmult_1_r, <- pow2_add.
      apply Qlt_le_weak. eapply Qlt_le_trans; [exact Hx2|].
      apply pow2_le. unfold ex, Double.exponent. lia.
    + apply Qle_trans with (Double.pow2 (ey + 52)); [apply pow2_le; lia|].
      rewrite (Z.add_comm ey 52), pow2_add.
      apply Qmult_le_compat_r; [|apply Qlt_le_weak, pow2_pos].
      rewrite (pow2_Z 52) by lia. rewrite <- Zle_Qle.
      rewrite <- (nearest_even_Z (2 ^ 52)). apply nearest_even_mono.
      rewrite <- (pow2_Z 52) by lia. rewrite div_pow2.
      apply (Qmult_le_r _ _ (Double.pow2 ey) (pow2_pos _)).
      rewrite <- Qmult_assoc, pow2_cancel, Qmult_1_r, <- pow2_add.
      eapply Qle_trans; [|exact Hy1].
      apply pow2_le. unfold ex, ey, Double.exponent in *. lia.
Qed.

Lemma round_eq x y : (x == y)%Q -> Double.round x = Double.round y.
Proof. intros H. unfold Double.round. rewrite (Qred_complete _ _ H). reflexivity. Qed.

Lemma round_mono x y : (x <= y)%Q -> (Double.round x <= Double.round y)%Q.
Proof.
  intros H. unfold Double.round.
  pose proof (Qred_correct x) as Rx. pose proof (Qred_correct y) as Ry.
  set (x' := Qred x) in *. set (y' := Qred y) in *.
  assert (H' : (x' <= y')%Q) by lra.
  destruct (Qle_bool 0 x') eqn:Ex; destruct (Qle_bool 0 y') eqn:Ey.
  - apply round_magnitude_mono, H'.
  - apply Qle_bool_iff in Ex.
    assert (~ (0 <= y')%Q) by (intros C; apply Qle_bool_iff in C; congruence). lra.
  - pose proof (round_magnitude_nonneg (- x')). pose proof (round_magnitude_nonneg y'). lra.
  - pose proof (round_magnitude_mono (- y') (- x') ltac:(lra)). lra.
Qed.

Lemma round_opp x : (Double.round (- x) == - Double.round x)%Q.
Proof.
  unfold Double.round. rewrite Qred_opp.
  pose proof (Qred_correct x) as Rx. set (x' := Qred x) in *.
  destruct (Qle_bool 0 x') eqn:E; destruct (Qle_bool 0 (- x')) eqn:E'.
  - apply Qle_bool_iff in E, E'.
    assert (Hz : (x' == 0)%Q) by lra.
    unfold Double.round_magnitude.
    assert (Qle_bool (- x') 0 = true) as -> by (apply Qle_bool_iff; lra).
    assert (Qle_bool x' 0 = true) as -> by (apply Qle_bool_iff; lra).
    reflexivity.
  - replace (- - x')%Q with x'; [reflexivity|].
    destruct x' as [n d]. unfold Qopp. cbn [Qnum Qden]. rewrite Z.opp_involutive. reflexivity.
  - rewrite Qopp_involutive. reflexivity.
  - exfalso.
    assert (~ (0 <= x')%Q) by (intros C; apply Qle_bool_iff in C; congruence).
    assert (~ (0 <= - x')%Q) by (intros C; apply Qle_bool_iff in C; congruence).
    lra.
Qed.

Lemma round_nonneg x : (0 <= x)%Q -> (0 <= Double.round x)%Q.
Proof.
  intros H. unfold Double.round.
  pose proof (Qred_correct x) as Rx. set (x' := Qred x) in *.
  assert (Qle_bool 0 x' = true) as -> by (apply Qle_bool_iff; lra).
  apply round_magnitude_nonneg.
Qed.

Lemma round_abs x : (Qabs (Double.round x) == Double.round (Qabs x))%Q.
Proof.
  destruct (Qlt_le_dec x 0) as [H|H].
  - rewrite (round_eq (Qabs x) (- x)) by (apply Qabs_neg; lra).
    rewrite round_opp. apply Qabs_neg.
    pose proof (round_mono x 0 ltac:(lra)) as Hm.
    assert (Double.round 0 == 0)%Q by reflexivity. lra.
  - rewrite (round_eq (Qabs x) x) by (apply Qabs_pos; exact H).
    apply Qabs_pos. apply round_nonneg, H.
Qed.

(** Comparisons of a rounded distance with a double. *)
Lemma le_abs_sub_true a b r :
  is_double r -> (Qabs (a - b) <= r)%Q ->
  Double.le (Double.abs (Double.sub a b)) r = true.
Proof.
  intros [Hr Hfin] H. unfold Double.sub, Double.of_exact.
  assert (Hm : (Qabs (Double.round (a - b)) <= r)%Q).
  { rewrite round_abs. rewrite <- Hr. apply round_mono, H. }
  assert (Qabs r == r)%Q as Hpos.
  { apply Qabs_pos. eapply Qle_trans; [apply Qabs_nonneg | exact H]. }
  destruct (Qle_bool (Double.pow2 1024) (Qabs (Double.round (a - b)))) eqn:E.
  - apply Qle_bool_iff in E. exfalso. lra.
  - simpl. apply Qle_bool_iff. exact Hm.
Qed.

Lemma le_abs_sub_false a b r r' :
  is_double r' -> (r < r')%Q -> (r' <= Qabs (a - b))%Q ->
  Double.le (Double.abs (Double.sub a b)) r = false.
Proof.
  intros [Hr _] Hlt H. unfold Double.sub, Double.of_exact.
  assert (Hm : (r' <= Qabs (Double.round (a - b)))%Q).
  { rewrite round_abs. rewrite <- Hr at 1. apply round_mono, H. }
  destruct (Qle_bool (Double.pow2 1024) (Qabs (Double.round (a - b)))) eqn:E;
    [reflexivity|].
  simpl. apply not_true_iff_false. intros C. apply Qle_bool_iff in C. lra.
Qed.

Lemma lt_abs_sub_true a b r r' :
  is_double r' -> (r' < r)%Q -> (Qabs (a - b) <= r')%Q ->
  Double.lt (Double.abs (Double.sub a b)) r = true.
Proof.
  intros [Hr Hfin] Hlt H. unfold Double.sub, Double.of_exact.
  assert (Hm : (Qabs (Double.round (a - b)) <= r')%Q).
  { rewrite round_abs. rewrite <- Hr. apply round_mono, H. }
  assert (Qabs r' == r')%Q as Hpos.
  { apply Qabs_pos. eapply Qle_trans; [apply Qabs_nonneg | exact H]. }
  destruct (Qle_bool (Double.pow2 1024) (Qabs (Double.round (a - b)))) eqn:E.
  - apply Qle_bool_iff in E. exfalso. lra.
  - simpl. apply negb_true_iff, not_true_iff_false. intros C. apply Qle_bool_iff in C. lra.
Qed.

Lemma lt_abs_sub_false a b r :
  is_double r -> (r <= Qabs (a - b))%Q ->
  Double.lt (Double.abs (Double.sub a b)) r = false.
Proof.
  intros [Hr _] H. unfold Double.sub, Double.of_exact.
  assert (Hm : (r <= Qabs (Double.round (a - b)))%Q).
  { rewrite round_abs. rewrite <- Hr at 1. apply round_mono, H. }
  destruct (Qle_bool (Double.pow2 1024) (Qabs (Double.round (a - b)))) eqn:E;
    [reflexivity|].
  simpl. apply negb_false_iff, Qle_bool_iff. exact Hm.
Qed.

Lemma lt_le x r : Double.lt x r = true -> Double.le x r = true.
Proof.
  destruct x as [q|n]; simpl; [|tauto].
  intros H. apply negb_true_iff in H. apply Qle_bool_iff.
  apply Qlt_le_weak, Qnot_le_lt. intros C. apply Qle_bool_iff in C. congruence.
Qed.

(** Rounding moves a normal number by at most one part in [2^53]. *)
Lemma nearest_even_upper q : (inject_Z (Double.nearest_even q) <= q + (1 # 2))%Q.
Proof.
  unfold Double.nearest_even.
  pose proof (Qfloor_le q) as L. pose proof (Qlt_floor q) as U.
  rewrite inject_Z_plus in U. change (inject_Z 1) with 1%Q in U.
  destruct (q - inject_Z (Qfloor q) ?= 1 # 2)%Q eqn:C;
    first [apply <- Qeq_alt in C | apply <- Qlt_alt in C | apply <- Qgt_alt in C].
  - destruct (Z.even (Qfloor q)); [lra|].
    rewrite inject_Z_plus. change (inject_Z 1) with 1%Q. lra.
  - lra.
  - rewrite inject_Z_plus. change (inject_Z 1) with 1%Q. lra.
Qed.

Lemma round_magnitude_upper x :
  (Double.pow2 (- 1022) <= x)%Q ->
  (Double.round_magnitude x <= x * (1 + Double.pow2 (- 53)))%Q.
Proof.
  intros Hx.
  assert (Hpos : (0 < x)%Q) by (pose proof (pow2_pos (- 1022)); lra).
  destruct (binade_spec x Hpos) as [Hlo Hhi].
  assert (Hb : - 1022 <= Double.binade x).
  { destruct (Z_le_gt_dec (- 1022) (Double.binade x)) as [H|H]; [exact H|]. exfalso.
    pose proof (pow2_le (Double.binade x + 1) (- 1022) ltac:(lia)). lra. }
  unfold Double.round_magnitude.
  destruct (Qle_bool x 0) eqn:E; [apply Qle_bool_iff in E; lra|].
  unfold Double.exponent. rewrite Z.max_l by lia.
  set (e := Double.binade x - 52).
  pose proof (nearest_even_upper (x / Double.pow2 e)) as Hn.
  pose proof (pow2_pos e) as He.
  apply (Qmult_le_compat_r _ _ (Double.pow2 e)) in Hn; [|lra].
  eapply Qle_trans; [exact Hn|].
  assert (H1 : ((x / Double.pow2 e + (1 # 2)) * Double.pow2 e
                == x + (1 # 2) * Double.pow2 e)%Q).
  { field. intros C. rewrite C in He. lra. }
  rewrite H1.
  assert (H2 : ((1 # 2) * Double.pow2 e == Double.pow2 (Double.binade x) * Double.pow2 (- 53))%Q).
  { rewrite <- pow2_add. replace (Double.binade x + - 53) with (- 1 + e) by (unfold e; lia).
    rewrite pow2_add. reflexivity. }
  rewrite H2.
  pose proof (pow2_pos (- 53)) as H53.
  assert (Double.pow2 (Double.binade x) * Double.pow2 (- 53) <= x * Double.pow2 (- 53))%Q.
  { apply Qmult_le_compat_r; lra. }
  lra.
Qed.

Lemma round_upper x :
  (Double.pow2 (- 1022) <= x)%Q -> (Double.round x <= x * (1 + Double.pow2 (- 53)))%Q.
Proof.
  intros Hx. unfold Double.round.
  pose proof (Qred_correct x) as Rx. set (x' := Qred x) in *.
  pose proof (pow2_pos (- 1022)).
  assert (Qle_bool 0 x' = true) as -> by (apply Qle_bool_iff; lra).
  rewrite <- Rx. apply round_magnitude_upper. lra.
Qed.

(** ** The condition evaluator *)

Lemma valueMap_selected p values :
  valueMap values (Parameter_str p) = selected p values.
Proof. destruct p; reflexivity. Qed.

Lemma evaluate_absent p o t values :
  selected p values = None ->
  evaluateAlertCondition p o t values = {| currentValue := None; triggered := false |}.
Proof.
  intros E. unfold evaluateAlertCondition, evaluateAlertCondition_js.
  rewrite valueMap_selected, E. reflexivity.
Qed.

Lemma evaluate_present_value p o t values x :
  selected p values = Some x ->
  currentValue (evaluateAlertCondition p o t values) = Some x.
Proof.
  intros E. unfold evaluateAlertCondition, evaluateAlertCondition_js.
  rewrite valueMap_selected, E. destruct o; reflexivity.
Qed.

Lemma evaluate_value p o t values :
  currentValue (evaluateAlertCondition p o t values) = selected p values.
Proof.
  destruct (selected p values) as [x|] eqn:E.
  - apply evaluate_present_value, E.
  - rewrite (evaluate_absent _ _ _ _ E). reflexivity.
Qed.

Lemma evaluate_present p o t values x :
  selected p values = Some x ->
  (triggered (evaluateAlertCondition p o t values) = true <-> compares o x t).
Proof.
  intros E. unfold evaluateAlertCondition, evaluateAlertCondition_js.
  rewrite valueMap_selected, E.
  destruct o; simpl; unfold Js.gt, Js.ge;
    rewrite ?Js_lt_spec, ?Js_le_spec, ?negb_true_iff, <- ?not_true_iff_false,
      ?Js_strict_eq_spec; reflexivity.
Qed.

(** C6.  [evaluateAlertCondition] returns as [currentValue] the observation
    field its parameter selects.  When that field is null the result is
    [triggered = false] with a null [currentValue]; otherwise [triggered]
    holds exactly when the value compares to the threshold as the operator
    says.  GT is strict: a value equal to the threshold does not trigger, a
    value above it does.  The result depends on the arguments only, and on
    numbers only through their value. *)
Theorem evaluateAlertCondition_correct
    (p : AlertParameter) (o : ComparisonOperator) (t : Q) (values : WeatherValues) :
  currentValue (evaluateAlertCondition p o t values) = selected p values /\
  match selected p values with
  | None =>
      evaluateAlertCondition p o t values = {| currentValue := None; triggered := false |}
  | Some x =>
      (triggered (evaluateAlertCondition p o t values) = true <-> compares o x t) /\
      ((x == t)%Q -> triggered (evaluateAlertCondition p GT t values) = false) /\
      ((t < x)%Q -> triggered (evaluateAlertCondition p GT t values) = true)
  end /\
  (forall p' o' t' values',
     p = p' -> o = o' -> t = t' -> values = values' ->
     evaluateAlertCondition p o t values = evaluateAlertCondition p' o' t' values') /\
  (forall t' values' x x',
     selected p values = Some x -> selected p values' = Some x' ->
     (x == x')%Q -> (t == t')%Q ->
     triggered (evaluateAlertCondition p o t values) =
     triggered (evaluateAlertCondition p o t' values')).
Proof.
  split; [apply evaluate_value|]. split; [|split].
  - destruct (selected p values) as [x|] eqn:E.
    + split; [apply evaluate_present, E|]. split; intros H.
      * apply not_true_iff_false. intros Ht.
        apply (evaluate_present p GT t values x E) in Ht. simpl in Ht.
        rewrite H in Ht. exact (Qlt_irrefl _ Ht).
      * apply (evaluate_present p GT t values x E). exact H.
    + apply evaluate_absent, E.
  - intros p' o' t' values' -> -> -> ->. reflexivity.
  - intros t' values' x x' E E' Hx Ht.
    apply eq_true_iff_eq.
    rewrite (evaluate_present p o t values x E), (evaluate_present p o t' values' x' E').
    destruct o; simpl; rewrite Hx, Ht; reflexivity.
Qed.

(** The examples of the specification for the condition evaluator. *)
Lemma evaluator_examples :
  let reading t :=
    {| temperatureC := t; windSpeedMps := None; precipitationMmHr := None |} in
  evaluateAlertCondition TEMPERATURE GT 30 (reading (Some 35%Q))
    = {| currentValue := Some 35%Q; triggered := true |} /\
  evaluateAlertCondition TEMPERATURE GT 30 (reading (Some 30%Q))
    = {| currentValue := Some 30%Q; triggered := false |} /\
  evaluateAlertCondition TEMPERATURE GT 30 (reading None)
    = {| currentValue := None; triggered := false |}.
Proof. repeat split; reflexivity. Qed.

(** ** The circuit breaker *)

Lemma execute_closed_failure {S T E} cfg now (op : S -> S * Z * Outcome T E) b s s' done e :
  CircuitBreaker.state b = CircuitBreaker.CLOSED ->
  op s = (s', done, Throw e) ->
  CircuitBreaker.execute cfg now op b s =
    (CircuitBreaker.onFailure cfg done b, s', Throw (CircuitBreaker.Failed e)).
Proof.
  intros Hst Hop. unfold CircuitBreaker.execute, CircuitBreaker.pass_gate.
  rewrite Hst, Hop. reflexivity.
Qed.

Lemma onFailure_in_window cfg done b :
  CircuitBreaker.state b = CircuitBreaker.CLOSED ->
  done - CircuitBreaker.windowStart b <= CircuitBreaker.monitoringPeriod cfg ->
  CircuitBreaker.onFailure cfg done b =
    {| CircuitBreaker.state :=
         if (CircuitBreaker.minimumRequests cfg <=? CircuitBreaker.requestCount b + 1) &&
            (CircuitBreaker.failureThreshold cfg <=? CircuitBreaker.failureCount b + 1)
         then CircuitBreaker.OPEN else CircuitBreaker.CLOSED;
       CircuitBreaker.failureCount := CircuitBreaker.failureCount b + 1;
       CircuitBreaker.lastFailureTime := done;
       CircuitBreaker.requestCount := CircuitBreaker.requestCount b + 1;
       CircuitBreaker.windowStart := CircuitBreaker.windowStart b |}.
Proof.
  intros Hst Hwin. unfold CircuitBreaker.onFailure, CircuitBreaker.shouldOpenCircuit. simpl.
  rewrite Hst.
  destruct (Z.ltb_spec (CircuitBreaker.monitoringPeriod cfg)
              (done - CircuitBreaker.windowStart b)) as [H|H]; [lia|].
  destruct (_ && _); simpl; rewrite ?Hst; reflexivity.
Qed.

(** Consecutive failures in one window: the breaker stays closed below the
    threshold and opens on reaching it. *)
Lemma fail_all_opens cfg calls b :
  CircuitBreaker.state b = CircuitBreaker.CLOSED ->
  CircuitBreaker.requestCount b = CircuitBreaker.failureCount b ->
  0 <= CircuitBreaker.failureCount b ->
  CircuitBreaker.minimumRequests cfg <= CircuitBreaker.failureThreshold cfg ->
  CircuitBreaker.failureCount b + Z.of_nat (length calls) = CircuitBreaker.failureThreshold cfg ->
  calls <> [] ->
  Forall (fun c => snd c - CircuitBreaker.windowStart b <= CircuitBreaker.monitoringPeriod cfg)
    calls ->
  CircuitBreaker.state (fail_all cfg calls b) = CircuitBreaker.OPEN.
Proof.
  revert b. induction calls as [|[now done] rest IH]; intros b Hst Hreq Hpos Hmin Hlen Hne Hwin.
  - congruence.
  - simpl. rewrite (execute_closed_failure cfg now (throwing done) b tt tt done tt Hst eq_refl).
    simpl. inversion Hwin as [|? ? Hd Hrest]; subst. simpl in Hd.
    rewrite (onFailure_in_window cfg done b Hst Hd).
    destruct rest as [|c rest'].
    + simpl in *.
      replace (_ && _) with true; [reflexivity|].
      symmetry. apply andb_true_iff. split; apply Z.leb_le; lia.
    + replace (_ && _) with false.
      * apply IH; simpl in *; try lia; try congruence; try exact Hrest.
      * symmetry. apply andb_false_iff. right. apply Z.leb_gt.
        simpl in Hlen. lia.
Qed.

(** C5, as the code has it.  For a breaker with configuration [cfg]:
    (1) a failure that, within the current monitoring window, brings the
    failure count to [failureThreshold] and the request count to
    [minimumRequests] opens a closed breaker; in particular
    [failureThreshold] consecutive failures, all within [monitoringPeriod]
    of the start of the window of a breaker whose counters were zero (as
    the constructor and every success leave them), leave it OPEN;
    (2) while OPEN, a call made before [recoveryTimeout] has elapsed since
    the last failure is refused, whatever the operation, and the operation's
    state is untouched;
    (3) while OPEN, a call made once [recoveryTimeout] has elapsed passes
    the gate in state HALF_OPEN, and if its operation succeeds with no
    other call settling meanwhile the breaker is CLOSED with failure and
    request counts zero;
    (4) whatever the other calls have done meanwhile, an operation that
    succeeds leaves the failure and request counts zero, and the breaker
    CLOSED if it is HALF_OPEN at that moment and in the state it has
    otherwise; every call passes the gate while the breaker is HALF_OPEN, so
    a second call let through while the probe runs, and failing before the
    probe succeeds, leaves the breaker OPEN. *)
Theorem circuit_breaker_transitions (cfg : CircuitBreaker.CircuitBreakerConfig) :
  (forall (S T E : Type) (op : S -> S * Z * Outcome T E) now b s s' done e,
     CircuitBreaker.state b = CircuitBreaker.CLOSED ->
     op s = (s', done, Throw e) ->
     done - CircuitBreaker.windowStart b <= CircuitBreaker.monitoringPeriod cfg ->
     CircuitBreaker.failureThreshold cfg <= CircuitBreaker.failureCount b + 1 ->
     CircuitBreaker.minimumRequests cfg <= CircuitBreaker.requestCount b + 1 ->
     CircuitBreaker.state (fst (fst (CircuitBreaker.execute cfg now op b s)))
       = CircuitBreaker.OPEN) /\
  (forall calls b,
     CircuitBreaker.state b = CircuitBreaker.CLOSED ->
     CircuitBreaker.failureCount b = 0 ->
     CircuitBreaker.requestCount b = 0 ->
     0 < CircuitBreaker.failureThreshold cfg ->
     CircuitBreaker.minimumRequests cfg <= CircuitBreaker.failureThreshold cfg ->
     Z.of_nat (length calls) = CircuitBreaker.failureThreshold cfg ->
     Forall (fun c => snd c - CircuitBreaker.windowStart b
                        <= CircuitBreaker.monitoringPeriod cfg) calls ->
     CircuitBreaker.state (fail_all cfg calls b) = CircuitBreaker.OPEN) /\
  (forall (S T E : Type) (op : S -> S * Z * Outcome T E) now b s,
     CircuitBreaker.state b = CircuitBreaker.OPEN ->
     now - CircuitBreaker.lastFailureTime b < CircuitBreaker.recoveryTimeout cfg ->
     CircuitBreaker.execute cfg now op b s =
       (b, s, Throw (CircuitBreaker.CircuitOpen
                       (CircuitBreaker.lastFailureTime b + CircuitBreaker.recoveryTimeout cfg)))) /\
  (forall (S T E : Type) (op : S -> S * Z * Outcome T E) now b s,
     CircuitBreaker.state b = CircuitBreaker.OPEN ->
     CircuitBreaker.recoveryTimeout cfg <= now - CircuitBreaker.lastFailureTime b ->
     CircuitBreaker.pass_gate (E := E) cfg now b
       = inl (CircuitBreaker.set_state CircuitBreaker.HALF_OPEN b) /\
     forall s' done v,
       op s = (s', done, Return v) ->
       exists b',
         CircuitBreaker.execute cfg now op b s = (b', s', Return v) /\
         CircuitBreaker.state b' = CircuitBreaker.CLOSED /\
         CircuitBreaker.failureCount b' = 0 /\
         CircuitBreaker.requestCount b' = 0) /\
  (forall (T E : Type) done (v : T) b,
     let b' := fst (CircuitBreaker.settle (E := E) cfg done (Return v) b) in
     CircuitBreaker.failureCount b' = 0 /\
     CircuitBreaker.requestCount b' = 0 /\
     (CircuitBreaker.state b = CircuitBreaker.HALF_OPEN ->
      CircuitBreaker.state b' = CircuitBreaker.CLOSED) /\
     (CircuitBreaker.state b <> CircuitBreaker.HALF_OPEN ->
      CircuitBreaker.state b' = CircuitBreaker.state b)) /\
  (forall (E : Type) now b,
     CircuitBreaker.state b = CircuitBreaker.HALF_OPEN ->
     CircuitBreaker.pass_gate (E := E) cfg now b = inl b) /\
  (forall (T E : Type) now now' done done' (v : T) (e : E) b,
     CircuitBreaker.state b = CircuitBreaker.OPEN ->
     CircuitBreaker.recoveryTimeout cfg <= now - CircuitBreaker.lastFailureTime b ->
     exists probing failed,
       CircuitBreaker.pass_gate (E := E) cfg now b = inl probing /\
       CircuitBreaker.pass_gate (E := E) cfg now' probing = inl probing /\
       failed = fst (CircuitBreaker.settle (T := T) cfg done' (Throw e) probing) /\
       CircuitBreaker.state failed = CircuitBreaker.OPEN /\
       CircuitBreaker.state (fst (CircuitBreaker.settle (E := E) cfg done (Return v) failed))
         = CircuitBreaker.OPEN).
Proof.
  split; [|split; [|split; [|split; [|split; [|split]]]]].
  - intros S T E op now b s s' done e Hst Hop Hwin Hf Hr.
    rewrite (execute_closed_failure cfg now op b s s' done e Hst Hop). simpl.
    rewrite (onFailure_in_window cfg done b Hst Hwin). simpl.
    replace (_ && _) with true; [reflexivity|].
    symmetry. apply andb_true_iff. split; apply Z.leb_le; lia.
  - intros calls b Hst Hf Hr Hpos Hmin Hlen Hwin.
    apply fail_all_opens; try lia; try assumption.
    destruct calls; [simpl in Hlen; lia | discriminate].
  - intros S T E op now b s Hst Hrec.
    unfold CircuitBreaker.execute, CircuitBreaker.pass_gate, CircuitBreaker.shouldAttemptReset.
    rewrite Hst.
    destruct (Z.leb_spec (CircuitBreaker.recoveryTimeout cfg)
                (now - CircuitBreaker.lastFailureTime b)); [lia | reflexivity].
  - intros S T E op now b s Hst Hrec. split.
    + unfold CircuitBreaker.pass_gate, CircuitBreaker.shouldAttemptReset.
      rewrite Hst.
      destruct (Z.leb_spec (CircuitBreaker.recoveryTimeout cfg)
                  (now - CircuitBreaker.lastFailureTime b)); [reflexivity | lia].
    + intros s' done v Hop.
      unfold CircuitBreaker.execute, CircuitBreaker.pass_gate,
        CircuitBreaker.shouldAttemptReset.
      rewrite Hst.
      destruct (Z.leb_spec (CircuitBreaker.recoveryTimeout cfg)
                  (now - CircuitBreaker.lastFailureTime b)); [|lia].
      rewrite Hop. simpl. eexists. split; [reflexivity|]. repeat split.
  - intros T E done v b. simpl. unfold CircuitBreaker.onSuccess. simpl.
    destruct (CircuitBreaker.state b) eqn:Hst; simpl;
      repeat split; try reflexivity; try assumption; intros H; congruence.
  - intros E now b Hst. unfold CircuitBreaker.pass_gate. rewrite Hst. reflexivity.
  - intros T E now now' done done' v e b Hst Hrec.
    exists (CircuitBreaker.set_state CircuitBreaker.HALF_OPEN b).
    eexists. split; [|split; [|split; [reflexivity|]]].
    + unfold CircuitBreaker.pass_gate, CircuitBreaker.shouldAttemptReset.
      rewrite Hst.
      destruct (Z.leb_spec (CircuitBreaker.recoveryTimeout cfg)
                  (now - CircuitBreaker.lastFailureTime b)); [reflexivity | lia].
    + reflexivity.
    + split; reflexivity.
Qed.

(** The scenario of the specification with the gateway's settings: three
    consecutive failures open the breaker; a call ten seconds later is
    refused without running the operation; a call thirty-one seconds later
    runs and, succeeding, closes the breaker with its counters reset. *)
Lemma circuit_breaker_scenario :
  CircuitBreaker.state tripped = CircuitBreaker.OPEN /\
  CircuitBreaker.execute Tomorrow.config 13100 (returning 13200) tripped tt =
    (tripped, tt, Throw (CircuitBreaker.CircuitOpen 33100)) /\
  exists b',
    CircuitBreaker.execute Tomorrow.config 34100 (returning 34200) tripped tt =
      (b', tt, Return tt) /\
    CircuitBreaker.state b' = CircuitBreaker.CLOSED /\
    CircuitBreaker.failureCount b' = 0 /\
    CircuitBreaker.requestCount b' = 0.
Proof.
  destruct (circuit_breaker_transitions Tomorrow.config) as (_ & Hopen & Hrefuse & Hprobe & _).
  split; [|split].
  - apply Hopen; try reflexivity.
    + simpl. lia.
    + repeat constructor; simpl; lia.
  - apply (Hrefuse unit unit unit (returning 13200) 13100 tripped tt); [reflexivity|].
    simpl. lia.
  - apply (Hprobe unit unit unit (returning 34200) 34100 tripped tt) with (s' := tt) (done := 34200);
      [reflexivity | simpl; lia | reflexivity].
Defined.

(** Four failures in five seconds with a success among them: the success
    resets the counters, and the breaker of the gateway (threshold 3,
    minimum 2, window 60 s) is still CLOSED, with two failures and two
    requests on record. *)
Lemma success_between_failures_keeps_closed :
  CircuitBreaker.state
    (replay Tomorrow.config
       [(1000, 1100, false); (2000, 2100, false); (3000, 3100, true);
        (4000, 4100, false); (5000, 5100, false)] (CircuitBreaker.create 0))
    = CircuitBreaker.CLOSED /\
  CircuitBreaker.failureCount
    (replay Tomorrow.config
       [(1000, 1100, false); (2000, 2100, false); (3000, 3100, true);
        (4000, 4100, false); (5000, 5100, false)] (CircuitBreaker.create 0)) = 2 /\
  CircuitBreaker.requestCount
    (replay Tomorrow.config
       [(1000, 1100, false); (2000, 2100, false); (3000, 3100, true);
        (4000, 4100, false); (5000, 5100, false)] (CircuitBreaker.create 0)) = 2.
Proof. repeat split; reflexivity. Qed.

(** A failure that arrives after the monitoring window has run out
    restarts the window and is itself wiped with the counters: on a
    breaker created at time 0 and idle since, three failures after 100 s
    leave it CLOSED, and the fourth opens it. *)
Lemma failure_on_stale_window_is_not_counted :
  CircuitBreaker.state
    (fail_all Tomorrow.config [(100000, 100100); (101000, 101100); (102000, 102100)]
       (CircuitBreaker.create 0)) = CircuitBreaker.CLOSED /\
  CircuitBreaker.state
    (fail_all Tomorrow.config
       [(100000, 100100); (101000, 101100); (102000, 102100); (103000, 103100)]
       (CircuitBreaker.create 0)) = CircuitBreaker.OPEN.
Proof. split; reflexivity. Qed.

(** The last step of the breaker scenario of the specification: a probe
    that fails sends the breaker back to OPEN and restarts the recovery
    period from that failure. *)
Lemma failed_probe_reopens :
  let b := fst (fst (CircuitBreaker.execute Tomorrow.config 34100 (throwing 34200) tripped tt)) in
  CircuitBreaker.state b = CircuitBreaker.OPEN /\
  CircuitBreaker.lastFailureTime b = 34200.
Proof. split; reflexivity. Qed.

(** ** The retry loop of the gateway *)

Lemma isRetryable_spec response :
  Tomorrow.isRetryable (Tomorrow.status <$> response) = true <-> retryable response.
Proof.
  unfold retryable. destruct response as [r|]; simpl.
  - rewrite orb_true_iff, andb_true_iff, Z.eqb_eq, Z.leb_le, Z.ltb_lt. split.
    + intros H. exists r. split; [reflexivity | lia].
    + intros (r' & [= <-] & H). lia.
  - split; [discriminate | intros (r & H & _); discriminate].
Qed.

Lemma attempt_retried lat lon now response rnd attempt p :
  retryable response ->
  (attempt < Tomorrow.maxAttempts)%nat ->
  Tomorrow.attempt_settled lat lon now (Tomorrow.Rejection response) rnd attempt p =
    (p, Tomorrow.Backoff (Tomorrow.backoff attempt (header_of response) rnd),
     [Tomorrow.Sleep (Tomorrow.backoff attempt (header_of response) rnd)]).
Proof.
  intros Hr Hlt. apply isRetryable_spec in Hr.
  unfold Tomorrow.attempt_settled. rewrite Hr. simpl.
  destruct (Nat.eqb_spec attempt Tomorrow.maxAttempts) as [->|_]; [lia|].
  reflexivity.
Qed.

Lemma attempt_not_retried lat lon now response rnd attempt p :
  ~ retryable response ->
  Tomorrow.attempt_settled lat lon now (Tomorrow.Rejection response) rnd attempt p =
    (p, Tomorrow.Finish (Throw (Tomorrow.AxiosError response)), []).
Proof.
  intros Hr. rewrite <- isRetryable_spec in Hr. apply not_true_is_false in Hr.
  unfold Tomorrow.attempt_settled. rewrite Hr. simpl.
  destruct response as [r|]; simpl in *; [|reflexivity].
  apply orb_false_iff in Hr as [-> _]. reflexivity.
Qed.

Lemma retryLoop_retried lat lon attempt tick rest p response :
  Tomorrow.reply tick = Tomorrow.Rejection response ->
  retryable response -> (attempt < Tomorrow.maxAttempts)%nat ->
  Tomorrow.retryLoop lat lon attempt (tick :: rest) p =
    let delayMs :=
      Tomorrow.backoff attempt (header_of response) (Tomorrow.random tick) in
    let '(p', r, eff) := Tomorrow.retryLoop lat lon (S attempt) rest p in
    (p', r, Tomorrow.Sleep delayMs :: Tomorrow.HttpGet lat lon (Tomorrow.units p) :: eff).
Proof.
  intros Hreply Hr Hlt. simpl. rewrite Hreply.
  rewrite (attempt_retried _ _ _ _ _ _ _ Hr Hlt).
  unfold Tomorrow.start_attempt.
  destruct (Nat.leb_spec (S attempt) Tomorrow.maxAttempts) as [_|H]; [|lia].
  destruct (Tomorrow.retryLoop lat lon (S attempt) rest p) as [[p' r] eff].
  reflexivity.
Qed.

Lemma retryLoop_rethrown lat lon attempt tick rest p response :
  Tomorrow.reply tick = Tomorrow.Rejection response ->
  ~ retryable response ->
  Tomorrow.retryLoop lat lon attempt (tick :: rest) p =
    (Tomorrow.set_circuitBreaker
       (CircuitBreaker.onFailure Tomorrow.config (Tomorrow.at_ tick)
          (Tomorrow.circuitBreaker p)) p,
     Some (Throw (CircuitBreaker.Failed (Tomorrow.AxiosError response))),
     []).
Proof.
  intros Hreply Hr. simpl. rewrite Hreply.
  rewrite (attempt_not_retried _ _ _ _ _ _ _ Hr). reflexivity.
Qed.

(** C4, as the code has it.  In the retry loop, an attempt that fails is
    followed by a backoff delay and a further request exactly when the
    server answered 429 or 5xx and the attempt is not the last of the four.
    Every other failure, a timeout or a network failure (which carry no
    response) and a 4xx other than 429 among them, is rethrown at once:
    no delay, no further request, and the rest of what upstream would have
    answered plays no part.  A failure of the fourth attempt ends the call
    with no delay and no further request: a 429 is answered with demo data,
    and every other failure, a 5xx among them, is rethrown. *)
Theorem retry_iff_429_or_5xx
    (lat lon : Q) (attempt : nat) (tick : Tomorrow.Tick) (rest : list Tomorrow.Tick)
    (p : Tomorrow.t) (response : option Tomorrow.ErrorResponse) :
  Tomorrow.reply tick = Tomorrow.Rejection response ->
  (retryable response -> (attempt < Tomorrow.maxAttempts)%nat ->
     Tomorrow.retryLoop lat lon attempt (tick :: rest) p =
       let delayMs :=
         Tomorrow.backoff attempt (header_of response) (Tomorrow.random tick) in
       let '(p', r, eff) := Tomorrow.retryLoop lat lon (S attempt) rest p in
       (p', r, Tomorrow.Sleep delayMs :: Tomorrow.HttpGet lat lon (Tomorrow.units p) :: eff)) /\
  (~ retryable response ->
     Tomorrow.retryLoop lat lon attempt (tick :: rest) p =
       (Tomorrow.set_circuitBreaker
          (CircuitBreaker.onFailure Tomorrow.config (Tomorrow.at_ tick)
             (Tomorrow.circuitBreaker p)) p,
        Some (Throw (CircuitBreaker.Failed (Tomorrow.AxiosError response))),
        [])) /\
  (attempt = Tomorrow.maxAttempts ->
     exists p' o eff,
       Tomorrow.retryLoop lat lon attempt (tick :: rest) p = (p', Some o, eff) /\
       Flights.requests eff = 0%nat /\
       (forall ms, ~ In (Tomorrow.Sleep ms) eff) /\
       (Tomorrow.status <$> response = Some 429 ->
        o = Return (Tomorrow.demoData (Tomorrow.random tick)
                      (Weather.Demo Tomorrow.rateLimitedMessage lat lon true))) /\
       (Tomorrow.status <$> response <> Some 429 ->
        o = Throw (CircuitBreaker.Failed (Tomorrow.AxiosError response)))).
Proof.
  intros Hreply. split; [|split].
  - intros Hr Hlt. apply retryLoop_retried; assumption.
  - intros Hr. apply retryLoop_rethrown; assumption.
  - intros ->. simpl. rewrite Hreply. unfold Tomorrow.attempt_settled.
    rewrite Nat.eqb_refl, orb_true_r.
    destruct (Tomorrow.is429 (Tomorrow.status <$> response)) eqn:H429.
    + assert (Hs : Tomorrow.status <$> response = Some 429).
      { destruct response as [r|]; simpl in *; [|discriminate].
        apply Z.eqb_eq in H429. congruence. }
      unfold Tomorrow.store. simpl.
      destruct (Tomorrow.redis p); simpl; do 3 eexists;
        (split; [reflexivity|]); (split; [reflexivity|]);
        (split; [intros ms H; simpl in H; intuition discriminate|]);
        (split; [intros _; reflexivity | intros Hn; congruence]).
    + assert (Hs : Tomorrow.status <$> response <> Some 429).
      { destruct response as [r|]; simpl in *; [|discriminate].
        apply Z.eqb_neq in H429. congruence. }
      simpl. do 3 eexists. split; [reflexivity|]. split; [reflexivity|].
      split; [intros ms []|]. split; [intros H; congruence | intros _; reflexivity].
Qed.

(** A 503 on the first attempt is followed by a 400 ms delay and a second
    request, whose answer the call returns. *)
Lemma retry_after_503 :
  Tomorrow.reply (answers 100 (Tomorrow.Rejection (Some unavailable)))
    = Tomorrow.Rejection (Some unavailable) /\
  Tomorrow.retryLoop 0 0 1
    [answers 100 (Tomorrow.Rejection (Some unavailable)); answers 700 sunny] provider0 =
  let '(p', r, eff) := Tomorrow.retryLoop 0 0 2 [answers 700 sunny] provider0 in
  (p', r, Tomorrow.Sleep 400 :: Tomorrow.HttpGet 0 0 Tomorrow.metric :: eff).
Proof.
  split; [reflexivity|].
  apply (retry_iff_429_or_5xx 0 0 1
           (answers 100 (Tomorrow.Rejection (Some unavailable)))
           [answers 700 sunny] provider0 (Some unavailable) eq_refl).
  - exists unavailable. split; [reflexivity|]. right. simpl. lia.
  - unfold Tomorrow.maxAttempts. lia.
Defined.

(** A timed-out first attempt is not retried: the call throws at once,
    with no delay and no second request, although upstream would have
    answered the next one. *)
Lemma timeout_is_not_retried :
  ~ retryable None /\
  snd (fst (Tomorrow.retryLoop 0 0 1
              [answers 5000 (Tomorrow.Rejection None); answers 6000 sunny] provider0))
    = Some (Throw (CircuitBreaker.Failed (Tomorrow.AxiosError None))) /\
  snd (Tomorrow.retryLoop 0 0 1
         [answers 5000 (Tomorrow.Rejection None); answers 6000 sunny] provider0) = [].
Proof.
  split; [intros (r & H & _); discriminate|]. split; reflexivity.
Qed.

(** ** Rate limiting *)

Lemma attempt_settled_no_429 lat lon now reply rnd attempt p p' r eff :
  Tomorrow.attempt_settled lat lon now reply rnd attempt p =
    (p', Tomorrow.Finish (Throw (Tomorrow.AxiosError (Some r))), eff) ->
  Tomorrow.status r <> 429.
Proof.
  unfold Tomorrow.attempt_settled, Tomorrow.store.
  destruct reply as [remaining body|response].
  - destruct remaining; intros [=].
  - destruct (negb _ || _); [|intros [=]].
    destruct (Tomorrow.is429 _) eqn:E; [intros [=]|].
    intros [= _ ->]. simpl in E. apply Z.eqb_neq in E. exact E.
Qed.

Lemma finish_throw now o p p' e :
  Tomorrow.finish now o p = (p', Throw (CircuitBreaker.Failed e)) -> o = Throw e.
Proof.
  unfold Tomorrow.finish, CircuitBreaker.settle. destruct o; intros [=]; congruence.
Qed.

Lemma start_attempt_throw lat lon now attempt p p' o eff :
  Tomorrow.start_attempt lat lon now attempt p = (p', Some o, eff) ->
  o = Throw (CircuitBreaker.Failed Tomorrow.Exhausted).
Proof.
  unfold Tomorrow.start_attempt. destruct (_ <=? _)%nat; intros [=]. congruence.
Qed.

Lemma retryLoop_no_429 lat lon script : forall attempt p,
  ~ rate_limit_error (snd (fst (Tomorrow.retryLoop lat lon attempt script p))).
Proof.
  induction script as [|tick rest IH]; intros attempt p (r & Hs & H); simpl in H.
  - discriminate.
  - destruct (Tomorrow.attempt_settled _ _ _ _ _ _ _) as [[p1 next] eff] eqn:E.
    destruct next as [o|d].
    + destruct (Tomorrow.finish _ o p1) as [p2 o'] eqn:F. simpl in H.
      injection H as ->. apply finish_throw in F. subst o.
      apply attempt_settled_no_429 in E. contradiction.
    + destruct (Tomorrow.start_attempt _ _ _ _ _) as [[p2 thrown] eff2] eqn:St.
      destruct thrown as [o|].
      * simpl in H. injection H as ->. apply start_attempt_throw in St. discriminate.
      * apply (IH (S attempt) p2). exists r. split; [exact Hs|].
        destruct (Tomorrow.retryLoop _ _ _ rest p2) as [[p3 r3] eff3]. exact H.
Qed.

Lemma getRealtime_no_429 lat lon now cached rnd script p :
  ~ rate_limit_error (snd (fst (Tomorrow.getRealtime lat lon now cached rnd script p))).
Proof.
  intros (r & Hs & H). unfold Tomorrow.getRealtime in H.
  destruct (Tomorrow.enter _ _ _ _ _ _ _) as [[p1 e] eff] eqn:En.
  destruct e as [v|n|n|n err]; simpl in H; try discriminate.
  - pose proof (retryLoop_no_429 lat lon script 1%nat p1) as Hno.
    destruct (Tomorrow.retryLoop _ _ _ _ _) as [[p2 [o|]] eff2]; simpl in *.
    + apply Hno. exists r. split; assumption.
    + discriminate.
  - injection H as ->.
    unfold Tomorrow.enter in En.
    repeat match type of En with
    | context [match ?x with _ => _ end] => destruct x eqn:?; try discriminate
    end.
    all: try (injection En as _ _ E _; discriminate).
    injection En as _ _ E _. subst.
    unfold CircuitBreaker.pass_gate in *.
    repeat match goal with
    | H : context [match ?x with _ => _ end] |- _ => destruct x eqn:?; try discriminate
    end.
Qed.

Lemma enter_started lat lon now cached rnd n p p1 m eff :
  Tomorrow.enter lat lon now cached rnd n p = (p1, Tomorrow.Started m, eff) ->
  exists b,
    p1 = Tomorrow.set_inFlight
           (<[Tomorrow.cacheKey p lat lon := n]> (Tomorrow.inFlight p))
           (Tomorrow.set_circuitBreaker b p) /\
    m = n /\
    Tomorrow.inFlight p !! Tomorrow.cacheKey p lat lon = None /\
    Tomorrow.fresh_hit (Tomorrow.cache p !! Tomorrow.cacheKey p lat lon) now = None /\
    eff = [Tomorrow.HttpGet lat lon (Tomorrow.units p)].
Proof.
  unfold Tomorrow.enter, Tomorrow.store.
  destruct (if Tomorrow.redis p then cached else None); [intros [=]|].
  destruct (Tomorrow.fresh_hit _ now) eqn:Hh; [intros [=]|].
  destruct (Tomorrow.inFlight p !! _) eqn:Hf; [intros [=]|].
  destruct (now <? _); [intros [=]|].
  destruct (CircuitBreaker.pass_gate _ _ _) as [b|e]; [|intros [=]].
  intros [= <- <- <-]. exists b. repeat split; assumption.
Qed.

Lemma getRealtime_cooldown lat lon now cached rnd script p :
  (if Tomorrow.redis p then cached else None) = None ->
  Tomorrow.fresh_hit (Tomorrow.cache p !! Tomorrow.cacheKey p lat lon) now = None ->
  Tomorrow.inFlight p !! Tomorrow.cacheKey p lat lon = None ->
  now < Tomorrow.rateLimitResetTime p ->
  Tomorrow.getRealtime lat lon now cached rnd script p =
    let mockResult :=
      Tomorrow.demoData rnd (Weather.Demo Tomorrow.cooldownMessage lat lon false) in
    (Tomorrow.set_cache
       (<[Tomorrow.cacheKey p lat lon :=
            {| Tomorrow.value := mockResult;
               Tomorrow.expiresAt := now + Tomorrow.cacheTtlMs p |}]> (Tomorrow.cache p)) p,
     Some (Return mockResult),
     if Tomorrow.redis p
     then [Tomorrow.RedisSetex (Tomorrow.cacheKey p lat lon)
             (Tomorrow.cacheTtlMs p / 1000) mockResult]
     else []).
Proof.
  intros Hr Hh Hf Hc. unfold Tomorrow.getRealtime, Tomorrow.enter, Tomorrow.store.
  rewrite Hr, Hh, Hf. apply Z.ltb_lt in Hc. rewrite Hc. reflexivity.
Qed.

Lemma getRealtime_exhausted lat lon now cached rnd p p1 n eff t1 t2 t3 t4 r1 r2 r3 r4 :
  Tomorrow.enter lat lon now cached rnd 0 p = (p1, Tomorrow.Started n, eff) ->
  Tomorrow.reply t1 = Tomorrow.Rejection r1 -> retryable r1 ->
  Tomorrow.reply t2 = Tomorrow.Rejection r2 -> retryable r2 ->
  Tomorrow.reply t3 = Tomorrow.Rejection r3 -> retryable r3 ->
  Tomorrow.reply t4 = Tomorrow.Rejection (Some r4) -> Tomorrow.status r4 = 429 ->
  exists p' eff',
    Tomorrow.getRealtime lat lon now cached rnd [t1; t2; t3; t4] p =
      (p',
       Some (Return (Tomorrow.demoData (Tomorrow.random t4)
                       (Weather.Demo Tomorrow.rateLimitedMessage lat lon true))),
       eff') /\
    Tomorrow.cache p' !! Tomorrow.cacheKey p lat lon =
      Some {| Tomorrow.value :=
                Tomorrow.demoData (Tomorrow.random t4)
                  (Weather.Demo Tomorrow.rateLimitedMessage lat lon true);
              Tomorrow.expiresAt := Tomorrow.at_ t4 + Tomorrow.cacheTtlMs p |} /\
    Tomorrow.rateLimitResetTime p' = Tomorrow.at_ t4 + 60000 /\
    Tomorrow.inFlight p' !! Tomorrow.cacheKey p lat lon = None /\
    Flights.requests eff' = 4%nat.
Proof.
  intros En H1 R1 H2 R2 H3 R3 H4 S4.
  destruct (enter_started _ _ _ _ _ _ _ _ _ _ En) as (b & -> & -> & _ & _ & ->).
  unfold Tomorrow.getRealtime. rewrite En.
  rewrite (retryLoop_retried _ _ 1 t1 _ _ r1 H1 R1) by (unfold Tomorrow.maxAttempts; lia).
  rewrite (retryLoop_retried _ _ 2 t2 _ _ r2 H2 R2) by (unfold Tomorrow.maxAttempts; lia).
  rewrite (retryLoop_retried _ _ 3 t3 _ _ r3 H3 R3) by (unfold Tomorrow.maxAttempts; lia).
  cbn [Tomorrow.retryLoop]. rewrite H4.
  unfold Tomorrow.attempt_settled. cbn [fmap option_fmap option_map].
  cbn [Tomorrow.is429 Tomorrow.isRetryable]. rewrite S4.
  unfold Tomorrow.cacheKey.
  destruct (Tomorrow.redis p) eqn:Hredis;
    cbn -[Z.add Z.mul Z.div Tomorrow.demoData Tomorrow.toFixed3 String.append];
    rewrite ?Hredis;
    cbn -[Z.add Z.mul Z.div Tomorrow.demoData Tomorrow.toFixed3 String.append];
    do 2 eexists; (split; [reflexivity|]);
    cbn -[Z.add Z.mul Z.div Tomorrow.demoData Tomorrow.toFixed3 String.append];
    (split; [apply lookup_insert_eq|]); (split; [reflexivity|]);
    (split; [apply lookup_delete_eq | reflexivity]).
Qed.

(** C3, as the code has it.  A call to [getRealtime] that finds no cached
    reading for its key (none from Redis, none fresh in memory) and no
    request in flight for it:
    (1) made during the cooldown window, returns a made-up reading, marked
    as demo data in [raw] (the reading has no [degraded] field), stores it
    under the key until [now + cacheTtlMs] (and in Redis when configured),
    and sends nothing upstream;
    (2) made outside the window and let through by the breaker, whose four
    attempts fail with retryable answers, the last with 429, returns a
    made-up reading likewise marked, stores it until the time of the last
    answer plus [cacheTtlMs], and opens a cooldown window of 60 s.
    (3) No call at all throws the error of a 429 answer. *)
Theorem rate_limited_call_is_served_demo_data
    (lat lon : Q) (now : Z) (cached : option Weather.RealtimeWeatherData)
    (rnd : nat -> Q) (p : Tomorrow.t) :
  ((if Tomorrow.redis p then cached else None) = None ->
   Tomorrow.fresh_hit (Tomorrow.cache p !! Tomorrow.cacheKey p lat lon) now = None ->
   Tomorrow.inFlight p !! Tomorrow.cacheKey p lat lon = None ->
   now < Tomorrow.rateLimitResetTime p ->
   forall script, exists p' v eff,
     Tomorrow.getRealtime lat lon now cached rnd script p = (p', Some (Return v), eff) /\
     v = Tomorrow.demoData rnd (Weather.Demo Tomorrow.cooldownMessage lat lon false) /\
     Weather.is_demo v = true /\
     Tomorrow.cache p' !! Tomorrow.cacheKey p lat lon =
       Some {| Tomorrow.value := v; Tomorrow.expiresAt := now + Tomorrow.cacheTtlMs p |} /\
     (Tomorrow.redis p = true ->
      eff = [Tomorrow.RedisSetex (Tomorrow.cacheKey p lat lon)
               (Tomorrow.cacheTtlMs p / 1000) v]) /\
     Flights.requests eff = 0%nat) /\
  (forall p1 n eff t1 t2 t3 t4 r1 r2 r3 r4,
     Tomorrow.enter lat lon now cached rnd 0 p = (p1, Tomorrow.Started n, eff) ->
     Tomorrow.reply t1 = Tomorrow.Rejection r1 -> retryable r1 ->
     Tomorrow.reply t2 = Tomorrow.Rejection r2 -> retryable r2 ->
     Tomorrow.reply t3 = Tomorrow.Rejection r3 -> retryable r3 ->
     Tomorrow.reply t4 = Tomorrow.Rejection (Some r4) -> Tomorrow.status r4 = 429 ->
     exists p' v eff',
       Tomorrow.getRealtime lat lon now cached rnd [t1; t2; t3; t4] p =
         (p', Some (Return v), eff') /\
       v = Tomorrow.demoData (Tomorrow.random t4)
             (Weather.Demo Tomorrow.rateLimitedMessage lat lon true) /\
       Weather.is_demo v = true /\
       Tomorrow.cache p' !! Tomorrow.cacheKey p lat lon =
         Some {| Tomorrow.value := v;
                 Tomorrow.expiresAt := Tomorrow.at_ t4 + Tomorrow.cacheTtlMs p |} /\
       Tomorrow.rateLimitResetTime p' = Tomorrow.at_ t4 + 60000) /\
  (forall script,
     ~ rate_limit_error
         (snd (fst (Tomorrow.getRealtime lat lon now cached rnd script p)))).
Proof.
  split; [|split].
  - intros Hr Hh Hf Hc script.
    rewrite (getRealtime_cooldown _ _ _ _ _ script _ Hr Hh Hf Hc).
    do 3 eexists. split; [reflexivity|]. split; [reflexivity|]. split; [reflexivity|].
    split; [apply lookup_insert_eq|]. split.
    + intros ->. reflexivity.
    + destruct (Tomorrow.redis p); reflexivity.
  - intros p1 n eff t1 t2 t3 t4 r1 r2 r3 r4 En H1 R1 H2 R2 H3 R3 H4 S4.
    destruct (getRealtime_exhausted _ _ _ _ _ _ _ _ _ _ _ _ _ _ _ _ _
                En H1 R1 H2 R2 H3 R3 H4 S4) as (p' & eff' & Hg & Hc & Hl & _).
    eexists p', _, eff'. split; [exact Hg|]. split; [reflexivity|].
    split; [reflexivity|]. split; assumption.
  - intros script. apply getRealtime_no_429.
Qed.

(** During that cooldown a call for a third place gets demo data and
    throws nothing. *)
Lemma demo_data_during_cooldown :
  exists p' v eff,
    Tomorrow.getRealtime 3 3 10000 None zeros [] in_cooldown = (p', Some (Return v), eff) /\
    Weather.is_demo v = true /\
    Tomorrow.cache p' !! Tomorrow.cacheKey in_cooldown 3 3 =
      Some {| Tomorrow.value := v; Tomorrow.expiresAt := 310000 |}.
Proof.
  destruct (rate_limited_call_is_served_demo_data 3 3 10000 None zeros in_cooldown)
    as (Hcool & _ & _).
  destruct (Hcool eq_refl eq_refl eq_refl eq_refl []) as (p' & v & eff & Hg & _ & Hd & Hc & _).
  exists p', v, eff. split; [exact Hg|]. split; [exact Hd|]. exact Hc.
Defined.

(** During the same cooldown a call for (1, 1) is answered from the cache
    with the reading upstream gave: it is not made up, and nothing new is
    stored. *)
Lemma cached_reading_served_during_cooldown :
  10000 < Tomorrow.rateLimitResetTime in_cooldown /\
  exists v,
    Tomorrow.getRealtime 1 1 10000 None zeros [] in_cooldown
      = (in_cooldown, Some (Return v), []) /\
    Weather.is_demo v = false.
Proof.
  split; [reflexivity|]. eexists. split; reflexivity.
Qed.

(** ** Matching alerts to an observation *)

Lemma listAlerts_In a tbl : In a (Alerts.listAlerts tbl) <-> In a tbl.
Proof.
  unfold Alerts.listAlerts.
  split; apply Permutation_in; [|symmetry]; apply merge_sort_Permutation.
Qed.

Lemma hundredth_is_double :
  is_double Double.hundredth /\ is_double above_hundredth /\ is_double below_hundredth.
Proof. repeat split; vm_compute; reflexivity. Qed.

(** C7, as the code has it.  The matcher goes through the alerts of the
    table and compares the differences of latitude and of longitude with
    the tolerance, a null coordinate being read as 0 and each difference
    being rounded to a double.  For a tolerance [radius] that is a double:
    every alert both of whose differences are at most [radius] is returned,
    and an alert that is returned has both differences below any double
    [beyond] larger than [radius] (between 0.01 and the next double,
    2 * 10^-18 degrees further, a difference falls on either side as it
    rounds).  An alert without a location is therefore matched by every
    observation within the tolerance of (0, 0): the city-only alert is
    returned for an observation at (0.005, -0.005). *)
Theorem findAlertsForLocation_matches
    (latitude longitude radius beyond : Q) (tbl : Alerts.Table) (a : Alerts.AlertRecord) :
  is_double radius -> is_double beyond -> (radius < beyond)%Q ->
  (In a tbl ->
   (Qabs (Js.nullish (Alerts.latitude a) 0 - latitude) <= radius)%Q ->
   (Qabs (Js.nullish (Alerts.longitude a) 0 - longitude) <= radius)%Q ->
   In a (EventDriven.findAlertsForLocation latitude longitude radius tbl)) /\
  (In a (EventDriven.findAlertsForLocation latitude longitude radius tbl) ->
   In a tbl /\
   (Qabs (Js.nullish (Alerts.latitude a) 0 - latitude) < beyond)%Q /\
   (Qabs (Js.nullish (Alerts.longitude a) 0 - longitude) < beyond)%Q) /\
  EventDriven.findAlertsForLocation (Double.round (1 # 200)) (Double.round (- 1 # 200))
    EventDriven.proximity [cityOnly] = [cityOnly].
Proof.
  intros Hr Hb Hlt.
  assert (Hsub : forall (x : option Q) (y : Q),
             (Js.or_zero x - y == Js.nullish x 0 - y)%Q).
  { intros x y. rewrite Js_or_zero_eq. reflexivity. }
  split; [|split].
  - intros Hin Hlat Hlon. unfold EventDriven.findAlertsForLocation.
    apply List.filter_In. split; [apply listAlerts_In, Hin|].
    unfold EventDriven.near. cbv zeta. apply andb_true_iff.
    split; apply le_abs_sub_true; try exact Hr; rewrite Hsub; assumption.
  - unfold EventDriven.findAlertsForLocation. intros Hin.
    apply List.filter_In in Hin. destruct Hin as [Hin Hnear].
    split; [apply listAlerts_In, Hin|].
    unfold EventDriven.near in Hnear. cbv zeta in Hnear.
    apply andb_true_iff in Hnear. destruct Hnear as [H1 H2].
    split; apply Qnot_le_lt; intros C.
    + rewrite <- Hsub in C.
      rewrite (le_abs_sub_false _ _ radius beyond Hb Hlt C) in H1. discriminate.
    + rewrite <- Hsub in C.
      rewrite (le_abs_sub_false _ _ radius beyond Hb Hlt C) in H2. discriminate.
  - vm_compute. reflexivity.
Qed.

(** The rain alert in Boston and the tolerance 0.01: it is returned for
    the observations at its place. *)
Lemma matcher_at_one_hundredth :
  In rainRow
    (EventDriven.findAlertsForLocation (4236 # 100) (- 7106 # 100) EventDriven.proximity
       [rainRow]).
Proof.
  destruct hundredth_is_double as (Hr & Hb & _).
  refine (proj1 (findAlertsForLocation_matches (4236 # 100) (- 7106 # 100)
                   EventDriven.proximity above_hundredth [rainRow] rainRow Hr Hb _) _ _ _).
  - vm_compute. reflexivity.
  - left. reflexivity.
  - vm_compute. intros H; discriminate.
  - vm_compute. intros H; discriminate.
Defined.

(** The two tests at about 0.01 degrees from an alert, the coordinates
    being the doubles that the decimal literals denote.  From the alert at
    (42.36, -71.06), the observation at longitude -71.05 is 0.010000000000005
    away and is not matched; the one at latitude 42.37 is 0.00999999999999801
    away, is matched, and is sent to a client that watches the alert's
    place.  Between the latitudes -0.0134 and -0.0034 the difference is the
    double 0.01 itself: the alert is matched and the client is not told. *)
Lemma tests_at_one_hundredth :
  let d := Double.round in
  EventDriven.near (d (4236 # 100)) (d (- 7105 # 100)) EventDriven.proximity
    (rainRowAt (d (4236 # 100)) (d (- 7106 # 100))) = false /\
  EventDriven.near (d (4237 # 100)) (d (- 7106 # 100)) EventDriven.proximity
    (rainRowAt (d (4236 # 100)) (d (- 7106 # 100))) = true /\
  Sockets.isClientInterestedInWeather (watching (d (4236 # 100)) (d (- 7106 # 100)))
    (observedAt (d (4237 # 100)) (d (- 7106 # 100))) = true /\
  EventDriven.near (d (- 34 # 10000)) 0 EventDriven.proximity
    (rainRowAt (d (- 134 # 10000)) 0) = true /\
  Sockets.isClientInterestedInWeather (watching (d (- 134 # 10000)) 0)
    (observedAt (d (- 34 # 10000)) 0) = false.
Proof. vm_compute. repeat split; reflexivity. Qed.

(** ** Writes to the alert store *)

Lemma has_id_evaluated alertId cv tr now a :
  Alerts.has_id alertId (Alerts.evaluated cv tr now a) = Alerts.has_id alertId a.
Proof. reflexivity. Qed.

Lemma lookup_map_evaluated alertId other cv tr now tbl :
  Alerts.lookup other
    (List.map (fun a => if Alerts.has_id alertId a then Alerts.evaluated cv tr now a else a) tbl) =
  match Alerts.lookup other tbl with
  | Some row =>
      Some (if Alerts.has_id alertId row then Alerts.evaluated cv tr now row else row)
  | None => None
  end.
Proof.
  unfold Alerts.lookup. induction tbl as [|a tbl IH]; simpl; [reflexivity|].
  destruct (Alerts.has_id alertId a) eqn:Ha; rewrite ?has_id_evaluated;
    destruct (Alerts.has_id other a) eqn:Ho; rewrite ?Ha; try reflexivity; exact IH.
Qed.

Lemma lookup_has_id alertId tbl row :
  Alerts.lookup alertId tbl = Some row -> Alerts.has_id alertId row = true.
Proof. intros H. apply find_some in H. apply H. Qed.

Lemma lookup_exists alertId tbl :
  existsb (Alerts.has_id alertId) tbl = true <-> is_Some (Alerts.lookup alertId tbl).
Proof.
  unfold Alerts.lookup. induction tbl as [|a tbl IH]; simpl.
  - split; [discriminate | intros [x [=]]].
  - destruct (Alerts.has_id alertId a); simpl; [|exact IH].
    split; [eauto | reflexivity].
Qed.

(** The write of an evaluation to a row that exists. *)
Lemma update_written alertId cv tr now tbl row :
  Alerts.lookup alertId tbl = Some row ->
  exists tbl',
    Alerts.updateAlertAfterEvaluation alertId cv tr now tbl = Return tbl' /\
    Alerts.lookup alertId tbl' = Some (Alerts.evaluated cv tr now row) /\
    forall other, Alerts.has_id alertId <$> Alerts.lookup other tbl = Some false
                  \/ Alerts.lookup other tbl = None ->
                  Alerts.lookup other tbl' = Alerts.lookup other tbl.
Proof.
  intros Hl. unfold Alerts.updateAlertAfterEvaluation.
  assert (existsb (Alerts.has_id alertId) tbl = true) as ->
    by (apply lookup_exists; eauto).
  eexists. split; [reflexivity|]. split.
  - rewrite lookup_map_evaluated, Hl, (lookup_has_id _ _ _ Hl). reflexivity.
  - intros other Ho. rewrite lookup_map_evaluated.
    destruct (Alerts.lookup other tbl) as [r|]; [|reflexivity].
    destruct Ho as [Ho|Ho]; [|discriminate]. simpl in Ho. injection Ho as ->. reflexivity.
Qed.

Lemma update_missing alertId cv tr now tbl :
  Alerts.lookup alertId tbl = None ->
  Alerts.updateAlertAfterEvaluation alertId cv tr now tbl =
    Throw (Alerts.RecordNotFound alertId).
Proof.
  intros Hl. unfold Alerts.updateAlertAfterEvaluation.
  destruct (existsb _ tbl) eqn:E; [|reflexivity].
  apply lookup_exists in E. rewrite Hl in E. destruct E as [x [=]].
Qed.

(** The event-driven engine returns early on a missing reading and
    otherwise writes before it publishes. *)
Lemma evaluateAlertWithEvent_absent alert weatherData now w :
  EventDriven.extractWeatherValue weatherData (EventDriven.parameter alert) = None ->
  EventDriven.evaluateAlertWithEvent alert weatherData now w = (w, Return tt).
Proof. intros H. unfold EventDriven.evaluateAlertWithEvent. rewrite H. reflexivity. Qed.

Lemma evaluateAlertWithEvent_present alert weatherData now w v row :
  EventDriven.extractWeatherValue weatherData (EventDriven.parameter alert) = Some v ->
  Alerts.lookup (EventDriven.id alert) (EventDriven.table w) = Some row ->
  exists tbl',
    Alerts.updateAlertAfterEvaluation (EventDriven.id alert) (Some v)
      (triggered (EventDriven.evaluation alert v)) now (EventDriven.table w) = Return tbl' /\
    EventDriven.table (fst (EventDriven.evaluateAlertWithEvent alert weatherData now w)) = tbl' /\
    Alerts.lookup (EventDriven.id alert) tbl' =
      Some (Alerts.evaluated (Some v) (triggered (EventDriven.evaluation alert v)) now row).
Proof.
  intros Hv Hl.
  destruct (update_written _ (Some v) (triggered (EventDriven.evaluation alert v)) now _ _ Hl)
    as (tbl' & Hu & Hl' & _).
  exists tbl'. split; [exact Hu|]. split; [|exact Hl'].
  unfold EventDriven.evaluateAlertWithEvent. rewrite Hv, Hu.
  destruct (Kafka.publishAlertEvaluation _ _). reflexivity.
Qed.





(** ** One failing alert among many *)

Lemma lookup_id alertId tbl row :
  Alerts.lookup alertId tbl = Some row -> Alerts.id row = alertId.
Proof. intros H. apply lookup_has_id in H. apply String.eqb_eq in H. exact H. Qed.

(** An evaluation touches no row but its alert's. *)
Lemma evaluateAlertWithEvent_other alert weatherData now w other :
  EventDriven.id alert <> other ->
  Alerts.lookup other
    (EventDriven.table (fst (EventDriven.evaluateAlertWithEvent alert weatherData now w))) =
  Alerts.lookup other (EventDriven.table w).
Proof.
  intros Hne. unfold EventDriven.evaluateAlertWithEvent.
  destruct (EventDriven.extractWeatherValue _ _) as [v|]; [|reflexivity].
  unfold Alerts.updateAlertAfterEvaluation.
  destruct (existsb _ _); [|reflexivity].
  destruct (Kafka.publishAlertEvaluation _ _) as [k r]. simpl.
  rewrite lookup_map_evaluated.
  destruct (Alerts.lookup other (EventDriven.table w)) as [r'|] eqn:Hl; [|reflexivity].
  apply lookup_id in Hl.
  destruct (Alerts.has_id (EventDriven.id alert) r') eqn:Hh; [|reflexivity].
  apply String.eqb_eq in Hh. congruence.
Qed.

Lemma allSettled_other alerts weatherData now other : forall w,
  ~ In other (List.map EventDriven.id alerts) ->
  Alerts.lookup other
    (EventDriven.table (fst (EventDriven.allSettled alerts weatherData now w))) =
  Alerts.lookup other (EventDriven.table w).
Proof.
  induction alerts as [|b alerts IH]; intros w Hnot; simpl; [reflexivity|].
  pose proof (evaluateAlertWithEvent_other b weatherData now w other) as Hb.
  destruct (EventDriven.evaluateAlertWithEvent b weatherData now w) as [w1 r].
  specialize (IH w1).
  destruct (EventDriven.allSettled alerts weatherData now w1) as [w2 rs]. simpl in *.
  rewrite IH by tauto. apply Hb. tauto.
Qed.

Lemma allSettled_length alerts weatherData now : forall w,
  length (snd (EventDriven.allSettled alerts weatherData now w)) = length alerts.
Proof.
  induction alerts as [|b alerts IH]; intros w; simpl; [reflexivity|].
  destruct (EventDriven.evaluateAlertWithEvent b weatherData now w) as [w1 r].
  specialize (IH w1).
  destruct (EventDriven.allSettled alerts weatherData now w1) as [w2 rs]. simpl in *.
  congruence.
Qed.

(** In a fan-out, the evaluation of an alert is written whatever happens
    to the alerts before and after it. *)
Lemma allSettled_isolates alerts weatherData now : forall w alert v row,
  NoDup (List.map EventDriven.id alerts) ->
  In alert alerts ->
  EventDriven.extractWeatherValue weatherData (EventDriven.parameter alert) = Some v ->
  Alerts.lookup (EventDriven.id alert) (EventDriven.table w) = Some row ->
  Alerts.lookup (EventDriven.id alert)
    (EventDriven.table (fst (EventDriven.allSettled alerts weatherData now w))) =
  Some (Alerts.evaluated (Some v) (triggered (EventDriven.evaluation alert v)) now row).
Proof.
  induction alerts as [|b alerts IH]; intros w alert v row Hnd Hin Hv Hl; [destruct Hin|].
  simpl in Hnd. apply NoDup_cons in Hnd as [Hb Hnd]. simpl.
  destruct Hin as [->|Hin].
  - destruct (evaluateAlertWithEvent_present alert weatherData now w v row Hv Hl)
      as (tbl' & _ & Ht & Hl').
    pose proof (allSettled_other alerts weatherData now (EventDriven.id alert)) as Ho.
    destruct (EventDriven.evaluateAlertWithEvent alert weatherData now w) as [w1 r].
    specialize (Ho w1).
    destruct (EventDriven.allSettled alerts weatherData now w1) as [w2 rs]. simpl in *.
    subst tbl'. rewrite Ho; [exact Hl'|]. rewrite <- list_elem_of_In. exact Hb.
  - pose proof (evaluateAlertWithEvent_other b weatherData now w (EventDriven.id alert)) as Ho.
    destruct (EventDriven.evaluateAlertWithEvent b weatherData now w) as [w1 r].
    specialize (IH w1 alert v row Hnd Hin Hv).
    destruct (EventDriven.allSettled alerts weatherData now w1) as [w2 rs]. simpl in *.
    apply IH. rewrite Ho; [exact Hl|].
    intros Heq. apply Hb. rewrite Heq. apply list_elem_of_In.
    apply in_map. exact Hin.
Qed.

(** C2, as the code has it.  In the fan-out of the event-driven engine the
    evaluation of an alert is written whatever exceptions the other alerts
    of the batch throw, and every alert has its outcome.  The sweep of the
    scheduler has no such isolation: when the provider throws for an alert,
    the sweep ends with that error, the table as it was and the alerts
    after it not evaluated.  On the table of the New York and Boston
    alerts, a 400 for New York leaves Boston never evaluated. *)
Theorem sweep_stops_at_first_exception
    (S E : Type)
    (getRealtime : Q -> Q -> Weather.Source -> S -> S * Outcome Weather.RealtimeWeatherData E)
    (now : Z) :
  (forall alerts weatherData w alert v row,
     NoDup (List.map EventDriven.id alerts) ->
     In alert alerts ->
     EventDriven.extractWeatherValue weatherData (EventDriven.parameter alert) = Some v ->
     Alerts.lookup (EventDriven.id alert) (EventDriven.table w) = Some row ->
     Alerts.lookup (EventDriven.id alert)
       (EventDriven.table (fst (EventDriven.allSettled alerts weatherData now w))) =
     Some (Alerts.evaluated (Some v) (triggered (EventDriven.evaluation alert v)) now row) /\
     length (snd (EventDriven.allSettled alerts weatherData now w)) = length alerts) /\
  (forall record rest st tbl acc lat lon st1 e,
     Alerts.latitude record = Some lat -> Alerts.longitude record = Some lon ->
     getRealtime lat lon Weather.scheduled st = (st1, Throw e) ->
     Scheduled.sweep getRealtime (record :: rest) now st tbl acc =
       (st1, tbl, Throw (Scheduled.Provider e))) /\
  (let '(st', tbl', r) := Scheduled.execute Wiring.provider 3000 rejectedThenFine [hotRow; rainRow] in
   returned r = false /\
   tbl' = [hotRow; rainRow] /\
   Alerts.lastEvaluatedAt <$> Alerts.lookup "alert-rain" tbl' = Some None /\
   length (snd st') = 1%nat).
Proof.
  split; [|split].
  - intros alerts weatherData w alert v row Hnd Hin Hv Hl. split.
    + apply allSettled_isolates; assumption.
    + apply allSettled_length.
  - intros record rest st tbl acc lat lon st1 e Hlat Hlon Hg.
    simpl. rewrite Hlat, Hlon, Hg. reflexivity.
  - vm_compute. repeat split; reflexivity.
Qed.

(** A batch of two alerts for a wet observation in Boston, the first of
    which has lost its row: its evaluation throws, and the rain alert after
    it is evaluated and written all the same. *)
Lemma fan_out_survives_missing_row :
  snd (EventDriven.allSettled [ghost; rainWatch] wetEvent 5000 rainWorld) =
    [Throw (EventDriven.Repository (Alerts.RecordNotFound "alert-gone")); Return tt] /\
  Alerts.lookup "alert-rain"
    (EventDriven.table (fst (EventDriven.allSettled [ghost; rainWatch] wetEvent 5000 rainWorld)))
  = Some (Alerts.evaluated (Some 4%Q) true 5000 rainRow).
Proof.
  split; [reflexivity|].
  destruct (sweep_stops_at_first_exception unit unit
              (fun _ _ _ s => (s, Throw tt)) 5000) as (Hfan & _ & _).
  apply (Hfan [ghost; rainWatch] wetEvent rainWorld rainWatch 4%Q rainRow).
  - repeat constructor; simpl; intros H; rewrite ?list_elem_of_In in H;
      simpl in H; intuition discriminate.
  - right. left. reflexivity.
  - reflexivity.
  - reflexivity.
Defined.

(** ** Notifications *)











(** ** Coalescing of overlapping calls *)

Lemma enter_spec lat lon now cached rnd n p p' entered eff :
  Tomorrow.enter lat lon now cached rnd n p = (p', entered, eff) ->
  match entered with
  | Tomorrow.Served _ =>
      Tomorrow.inFlight p' = Tomorrow.inFlight p /\ Flights.requests eff = 0%nat
  | Tomorrow.Joined m =>
      p' = p /\ eff = [] /\
      Tomorrow.inFlight p !! Tomorrow.cacheKey p lat lon = Some m
  | Tomorrow.Started m =>
      m = n /\ Tomorrow.inFlight p !! Tomorrow.cacheKey p lat lon = None /\
      Tomorrow.inFlight p' = <[Tomorrow.cacheKey p lat lon := n]> (Tomorrow.inFlight p) /\
      eff = [Tomorrow.HttpGet lat lon (Tomorrow.units p)]
  | Tomorrow.Refused m _ =>
      m = n /\ Tomorrow.inFlight p !! Tomorrow.cacheKey p lat lon = None /\
      Tomorrow.inFlight p' = <[Tomorrow.cacheKey p lat lon := n]> (Tomorrow.inFlight p) /\
      eff = []
  end.
Proof.
  unfold Tomorrow.enter, Tomorrow.store.
  destruct (if Tomorrow.redis p then cached else None);
    [intros [= <- <- <-]; split; reflexivity|].
  destruct (Tomorrow.fresh_hit _ now); [intros [= <- <- <-]; split; reflexivity|].
  destruct (Tomorrow.inFlight p !! _) eqn:Hf; [intros [= <- <- <-]; repeat split; exact Hf|].
  destruct (now <? _).
  - intros [= <- <- <-]. split; [reflexivity|]. destruct (Tomorrow.redis p); reflexivity.
  - destruct (CircuitBreaker.pass_gate _ _ _) as [b|e]; intros [= <- <- <-];
      repeat split; exact Hf.
Qed.

Lemma attempt_settled_inFlight lat lon now reply rnd attempt p :
  Tomorrow.inFlight (fst (fst (Tomorrow.attempt_settled lat lon now reply rnd attempt p)))
    = Tomorrow.inFlight p.
Proof.
  unfold Tomorrow.attempt_settled, Tomorrow.store.
  destruct reply as [[n|] body|response]; simpl; try reflexivity.
  destruct (negb _ || _); [|reflexivity].
  destruct (Tomorrow.is429 _); reflexivity.
Qed.

Lemma attempt_settled_requests lat lon now reply rnd attempt p :
  Flights.requests (snd (Tomorrow.attempt_settled lat lon now reply rnd attempt p)) = 0%nat.
Proof.
  unfold Tomorrow.attempt_settled, Tomorrow.store.
  destruct reply as [[n|] body|response]; simpl.
  - destruct (Tomorrow.redis _); reflexivity.
  - destruct (Tomorrow.redis _); reflexivity.
  - destruct (negb _ || _); [|reflexivity].
    destruct (Tomorrow.is429 _); [|reflexivity].
    simpl. destruct (Tomorrow.redis _); reflexivity.
Qed.

Lemma finish_inFlight now o p :
  Tomorrow.inFlight (fst (Tomorrow.finish now o p)) = Tomorrow.inFlight p.
Proof. unfold Tomorrow.finish. destruct (CircuitBreaker.settle _ _ _ _). reflexivity. Qed.

Lemma start_attempt_spec lat lon now attempt p :
  Tomorrow.inFlight (fst (fst (Tomorrow.start_attempt lat lon now attempt p)))
    = Tomorrow.inFlight p /\
  Flights.requests (snd (Tomorrow.start_attempt lat lon now attempt p)) =
    match snd (fst (Tomorrow.start_attempt lat lon now attempt p)) with
    | Some _ => 0%nat
    | None => 1%nat
    end.
Proof.
  unfold Tomorrow.start_attempt. destruct (_ <=? _)%nat; [split; reflexivity|].
  pose proof (finish_inFlight now (Throw Tomorrow.Exhausted) p) as H.
  destruct (Tomorrow.finish _ _ _). split; [exact H | reflexivity].
Qed.

(** Lists of flights. *)
Lemma find_flight n fs f :
  Flights.find n fs = Some f -> In f fs /\ Flights.promise f = n.
Proof.
  intros H. apply find_some in H as [Hin Hn]. apply Nat.eqb_eq in Hn. split; assumption.
Qed.

Lemma set_phase_promises n a ph fs :
  List.map Flights.promise (Flights.set_phase n a ph fs) = List.map Flights.promise fs.
Proof.
  unfold Flights.set_phase. rewrite List.map_map. apply List.map_ext.
  intros f. destruct (_ =? _)%nat; reflexivity.
Qed.

Lemma set_phase_In n a ph fs g :
  In g (Flights.set_phase n a ph fs) ->
  exists f, In f fs /\ Flights.promise g = Flights.promise f /\ Flights.key g = Flights.key f.
Proof.
  unfold Flights.set_phase. rewrite in_map_iff. intros (f & <- & Hin).
  exists f. destruct (_ =? _)%nat; repeat split; assumption.
Qed.

Lemma set_phase_place n a ph fs g :
  In g (Flights.set_phase n a ph fs) ->
  exists f, In f fs /\ Flights.key g = Flights.key f /\
    Flights.latitude g = Flights.latitude f /\ Flights.longitude g = Flights.longitude f.
Proof.
  unfold Flights.set_phase. rewrite in_map_iff. intros (f & <- & Hin).
  exists f. destruct (_ =? _)%nat; repeat split; assumption.
Qed.

Lemma set_phase_absent n a ph fs :
  ~ In n (List.map Flights.promise fs) -> Flights.set_phase n a ph fs = fs.
Proof.
  induction fs as [|f fs IH]; intros Hn; simpl; [reflexivity|].
  simpl in Hn. destruct (Nat.eqb_spec (Flights.promise f) n) as [E|_];
    [exfalso; apply Hn; left; exact E|].
  f_equal. apply IH. tauto.
Qed.

Lemma requesting_set_phase n a ph fs f :
  NoDup (List.map Flights.promise fs) ->
  Flights.find n fs = Some f ->
  (requesting (Flights.set_phase n a ph fs) + (if Flights.is_requesting f then 1 else 0)
   = requesting fs + match ph with Flights.Requesting => 1 | _ => 0 end)%nat.
Proof.
  unfold requesting, Flights.find.
  induction fs as [|g fs IH]; intros Hnd Hf; [discriminate|].
  simpl in Hnd. apply NoDup_cons in Hnd as [Hg Hnd]. simpl in Hf |- *.
  destruct (Nat.eqb_spec (Flights.promise g) n) as [Heq|Hne].
  - injection Hf as ->. subst n.
    rewrite (set_phase_absent (Flights.promise f) a ph fs)
      by (rewrite <- list_elem_of_In; exact Hg).
    unfold Flights.is_requesting at 1. simpl.
    destruct ph, (Flights.is_requesting f); simpl; lia.
  - specialize (IH Hnd Hf). fold (Flights.set_phase n a ph fs).
    destruct (Flights.is_requesting g); simpl; lia.
Qed.

Lemma remove_In n fs g :
  In g (Flights.remove n fs) <-> In g fs /\ Flights.promise g <> n.
Proof.
  unfold Flights.remove. rewrite filter_In, negb_true_iff, Nat.eqb_neq. reflexivity.
Qed.

Lemma remove_NoDup n fs :
  NoDup (List.map Flights.promise fs) -> NoDup (List.map Flights.promise (Flights.remove n fs)).
Proof.
  induction fs as [|f fs IH]; intros Hnd; simpl; [constructor|].
  simpl in Hnd. apply NoDup_cons in Hnd as [Hf Hnd].
  destruct (negb _); [|apply IH, Hnd].
  simpl. apply NoDup_cons. split; [|apply IH, Hnd].
  rewrite list_elem_of_In, in_map_iff in *. intros (g & Hg & Hin).
  apply Hf. exists g. split; [exact Hg|]. apply remove_In in Hin. tauto.
Qed.

Lemma requesting_remove n fs f :
  NoDup (List.map Flights.promise fs) ->
  Flights.find n fs = Some f -> Flights.is_requesting f = false ->
  requesting (Flights.remove n fs) = requesting fs.
Proof.
  unfold requesting, Flights.find, Flights.remove.
  induction fs as [|g fs IH]; intros Hnd Hf Hph; [reflexivity|].
  simpl in Hnd. apply NoDup_cons in Hnd as [Hg Hnd]. simpl in Hf |- *.
  destruct (Nat.eqb_spec (Flights.promise g) n) as [Heq|Hne]; simpl.
  - injection Hf as ->. rewrite Hph. subst n.
    f_equal. clear IH Hnd. induction fs as [|h fs IH]; [reflexivity|].
    simpl in Hg |- *. rewrite list_elem_of_In in Hg, IH. simpl in Hg.
    destruct (Nat.eqb_spec (Flights.promise h) (Flights.promise f)) as [E|_]; [tauto|].
    simpl. rewrite IH by tauto. reflexivity.
  - specialize (IH Hnd Hf Hph). destruct (Flights.is_requesting g); simpl; lia.
Qed.

Lemma promise_injective fs f g :
  NoDup (List.map Flights.promise fs) ->
  In f fs -> In g fs -> Flights.promise f = Flights.promise g -> f = g.
Proof.
  induction fs as [|h fs IH]; intros Hnd Hf Hg Heq; [destruct Hf|].
  simpl in Hnd. apply NoDup_cons in Hnd as [Hh Hnd].
  rewrite list_elem_of_In, in_map_iff in Hh.
  destruct Hf as [->|Hf], Hg as [->|Hg]; try reflexivity.
  - exfalso. apply Hh. exists g. split; [symmetry; exact Heq | exact Hg].
  - exfalso. apply Hh. exists f. split; [exact Heq | exact Hf].
  - apply IH; assumption.
Qed.

Lemma requesting_app fs gs : requesting (fs ++ gs) = (requesting fs + requesting gs)%nat.
Proof. unfold requesting. rewrite List.filter_app, List.length_app. reflexivity. Qed.

(** Every event keeps the flights and the map in agreement, and moves
    the number of requests with upstream by what it sends and what it
    receives. *)
Lemma step_coherent e s s' eff r :
  coherent s ->
  Flights.step e s = Some (s', eff, r) ->
  coherent s' /\
  (requesting (Flights.flights s') + arrived e
   = requesting (Flights.flights s) + Flights.requests eff)%nat.
Proof.
  intros [Hnd Hreg Hb]. destruct e as [lat lon now cached rnd|n now reply rnd|n now|n]; simpl.
  - destruct (Tomorrow.enter _ _ _ _ _ _ _) as [[p' entered] eff'] eqn:En.
    apply enter_spec in En.
    destruct entered as [v|m|m|m err]; intros [= <- <- <-]; simpl.
    + destruct En as [Hin Hreq]. split; [|lia].
      constructor; simpl; [exact Hnd | | exact Hb].
      intros f Hf. rewrite Hin. apply Hreg, Hf.
    + destruct En as (-> & -> & _). split; [|reflexivity].
      constructor; simpl; assumption.
    + destruct En as (-> & Hnone & Hin & ->). split.
      * constructor; simpl.
        -- rewrite List.map_app. simpl. apply NoDup_app. split; [exact Hnd|]. split.
           ++ intros x Hx [Hx'|[]]%list_elem_of_In.
              apply list_elem_of_In, in_map_iff in Hx as (f & Hp & Hf).
              specialize (Hb f Hf). lia.
           ++ apply NoDup_singleton.
        -- intros f [Hf|[<-|[]]]%in_app_or; simpl; rewrite Hin.
           ++ rewrite lookup_insert_ne; [apply Hreg, Hf|].
              intros Heq. specialize (Hreg f Hf). rewrite <- Heq in Hreg. congruence.
           ++ apply lookup_insert_eq.
        -- intros f [Hf|[<-|[]]]%in_app_or; simpl; [specialize (Hb f Hf)|]; lia.
      * rewrite requesting_app. unfold requesting, Flights.requests. simpl. lia.
    + destruct En as (-> & Hnone & Hin & ->). split.
      * constructor; simpl.
        -- rewrite List.map_app. simpl. apply NoDup_app. split; [exact Hnd|]. split.
           ++ intros x Hx [Hx'|[]]%list_elem_of_In.
              apply list_elem_of_In, in_map_iff in Hx as (f & Hp & Hf).
              specialize (Hb f Hf). lia.
           ++ apply NoDup_singleton.
        -- intros f [Hf|[<-|[]]]%in_app_or; simpl; rewrite Hin.
           ++ rewrite lookup_insert_ne; [apply Hreg, Hf|].
              intros Heq. specialize (Hreg f Hf). rewrite <- Heq in Hreg. congruence.
           ++ apply lookup_insert_eq.
        -- intros f [Hf|[<-|[]]]%in_app_or; simpl; [specialize (Hb f Hf)|]; lia.
      * rewrite requesting_app. unfold requesting, Flights.requests. simpl. lia.
  - destruct (Flights.find n (Flights.flights s)) as [f|] eqn:Hf; [|discriminate].
    destruct (Flights.phase f) eqn:Hph; try discriminate.
    pose proof (attempt_settled_inFlight (Flights.latitude f) (Flights.longitude f) now reply rnd
                  (Flights.attempt f) (Flights.provider s)) as Hin.
    pose proof (attempt_settled_requests (Flights.latitude f) (Flights.longitude f) now reply rnd
                  (Flights.attempt f) (Flights.provider s)) as Hreq.
    destruct (Tomorrow.attempt_settled _ _ _ _ _ _ _) as [[p1 next] eff1]. simpl in Hin, Hreq.
    assert (Flights.is_requesting f = true) as Hr by (unfold Flights.is_requesting; rewrite Hph; reflexivity).
    destruct next as [o|d].
    + pose proof (finish_inFlight now o p1) as Hfin.
      destruct (Tomorrow.finish now o p1) as [p2 o']. simpl in Hfin.
      intros [= <- <- <-]. simpl. split.
      * constructor; simpl.
        -- rewrite set_phase_promises. exact Hnd.
        -- intros g Hg. apply set_phase_In in Hg as (f0 & Hf0 & -> & ->).
           rewrite Hfin, Hin. apply Hreg, Hf0.
        -- intros g Hg. apply set_phase_In in Hg as (f0 & Hf0 & -> & _). apply Hb, Hf0.
      * pose proof (requesting_set_phase n (Flights.attempt f) (Flights.Done o') _ f Hnd Hf) as Hc.
        rewrite Hr in Hc. lia.
    + intros [= <- <- <-]. simpl. split.
      * constructor; simpl.
        -- rewrite set_phase_promises. exact Hnd.
        -- intros g Hg. apply set_phase_In in Hg as (f0 & Hf0 & -> & ->).
           rewrite Hin. apply Hreg, Hf0.
        -- intros g Hg. apply set_phase_In in Hg as (f0 & Hf0 & -> & _). apply Hb, Hf0.
      * pose proof (requesting_set_phase n (Flights.attempt f) Flights.Sleeping _ f Hnd Hf) as Hc.
        rewrite Hr in Hc. lia.
  - destruct (Flights.find n (Flights.flights s)) as [f|] eqn:Hf; [|discriminate].
    destruct (Flights.phase f) eqn:Hph; try discriminate.
    pose proof (start_attempt_spec (Flights.latitude f) (Flights.longitude f) now
                  (S (Flights.attempt f)) (Flights.provider s)) as [Hin Hreq].
    destruct (Tomorrow.start_attempt _ _ _ _ _) as [[p1 thrown] eff1]. simpl in Hin, Hreq.
    assert (Flights.is_requesting f = false) as Hr by (unfold Flights.is_requesting; rewrite Hph; reflexivity).
    intros [= <- <- <-]. simpl. split.
    + constructor; simpl.
      * rewrite set_phase_promises. exact Hnd.
      * intros g Hg. apply set_phase_In in Hg as (f0 & Hf0 & -> & ->).
        rewrite Hin. apply Hreg, Hf0.
      * intros g Hg. apply set_phase_In in Hg as (f0 & Hf0 & -> & _). apply Hb, Hf0.
    + pose proof (requesting_set_phase n (S (Flights.attempt f))
                    (match thrown with Some o => Flights.Done o | None => Flights.Requesting end)
                    _ f Hnd Hf) as Hc.
      rewrite Hr in Hc. rewrite Hreq. destruct thrown; lia.
  - destruct (Flights.find n (Flights.flights s)) as [f|] eqn:Hf; [|discriminate].
    destruct (Flights.phase f) eqn:Hph; try discriminate.
    assert (Flights.is_requesting f = false) as Hr by (unfold Flights.is_requesting; rewrite Hph; reflexivity).
    destruct (find_flight _ _ _ Hf) as [Hfin Hfn].
    intros [= <- <- <-]. simpl. split.
    + constructor; simpl.
      * apply remove_NoDup, Hnd.
      * intros g Hg. apply remove_In in Hg as [Hg Hne].
        rewrite lookup_delete_ne; [apply Hreg, Hg|].
        intros Heq. pose proof (Hreg f Hfin) as H1. pose proof (Hreg g Hg) as H2.
        rewrite Heq in H1. congruence.
      * intros g Hg. apply remove_In in Hg as [Hg _]. apply Hb, Hg.
    + rewrite (requesting_remove n _ f Hnd Hf Hr). reflexivity.
Qed.

(** The units of a provider, and with them the key of a place, never
    change. *)
Lemma step_units e s s' eff r :
  Flights.step e s = Some (s', eff, r) ->
  Tomorrow.units (Flights.provider s') = Tomorrow.units (Flights.provider s).
Proof.
  destruct e as [lat lon now cached rnd|n now reply rnd|n now|n]; simpl.
  - unfold Tomorrow.enter, Tomorrow.store.
    destruct (if Tomorrow.redis _ then cached else None); [intros [= <- _ _]; reflexivity|].
    destruct (Tomorrow.fresh_hit _ now); [intros [= <- _ _]; reflexivity|].
    destruct (Tomorrow.inFlight _ !! _); [intros [= <- _ _]; reflexivity|].
    destruct (now <? _); [intros [= <- _ _]; reflexivity|].
    destruct (CircuitBreaker.pass_gate _ _ _); intros [= <- _ _]; reflexivity.
  - destruct (Flights.find n _) as [f|]; [|discriminate].
    destruct (Flights.phase f); try discriminate.
    unfold Tomorrow.attempt_settled, Tomorrow.store, Tomorrow.finish.
    destruct reply as [[m|] body|response]; simpl.
    + intros [= <- _ _]. reflexivity.
    + intros [= <- _ _]. reflexivity.
    + destruct (negb _ || _); [|intros [= <- _ _]; reflexivity].
      destruct (Tomorrow.is429 _); simpl; intros [= <- _ _]; reflexivity.
  - destruct (Flights.find n _) as [f|]; [|discriminate].
    destruct (Flights.phase f); try discriminate.
    unfold Tomorrow.start_attempt, Tomorrow.finish.
    destruct (_ <=? _)%nat; simpl; intros [= <- _ _]; reflexivity.
  - destruct (Flights.find n _) as [f|]; [|discriminate].
    destruct (Flights.phase f); try discriminate.
    intros [= <- _ _]. reflexivity.
Qed.

Lemma cacheKey_units p q lat lon :
  Tomorrow.units p = Tomorrow.units q -> Tomorrow.cacheKey p lat lon = Tomorrow.cacheKey q lat lon.
Proof. unfold Tomorrow.cacheKey. intros ->. reflexivity. Qed.

Lemma step_keyed e s s' eff r :
  keyed s -> Flights.step e s = Some (s', eff, r) -> keyed s'.
Proof.
  intros Hk Hstep. pose proof (step_units _ _ _ _ _ Hstep) as Hu.
  intros g Hg. rewrite (cacheKey_units _ _ _ _ Hu).
  destruct e as [lat lon now cached rnd|n now reply rnd|n now|n]; simpl in Hstep.
  - destruct (Tomorrow.enter _ _ _ _ _ _ _) as [[p' entered] eff'].
    destruct entered; injection Hstep as <- _ _; simpl in Hg;
      try (apply Hk, Hg);
      apply in_app_or in Hg as [Hg|[<-|[]]]; try (apply Hk, Hg); reflexivity.
  - destruct (Flights.find n _) as [f|]; [|discriminate].
    destruct (Flights.phase f); try discriminate.
    destruct (Tomorrow.attempt_settled _ _ _ _ _ _ _) as [[p1 [o|d]] eff1].
    + destruct (Tomorrow.finish _ _ _) as [p2 o']. injection Hstep as <- _ _. simpl in Hg.
      apply set_phase_place in Hg as (f0 & Hf0 & -> & -> & ->). apply Hk, Hf0.
    + injection Hstep as <- _ _. simpl in Hg.
      apply set_phase_place in Hg as (f0 & Hf0 & -> & -> & ->). apply Hk, Hf0.
  - destruct (Flights.find n _) as [f|]; [|discriminate].
    destruct (Flights.phase f); try discriminate.
    destruct (Tomorrow.start_attempt _ _ _ _ _) as [[p1 thrown] eff1].
    injection Hstep as <- _ _. simpl in Hg.
    apply set_phase_place in Hg as (f0 & Hf0 & -> & -> & ->). apply Hk, Hf0.
  - destruct (Flights.find n _) as [f|]; [|discriminate].
    destruct (Flights.phase f); try discriminate.
    injection Hstep as <- _ _. simpl in Hg. apply remove_In in Hg as [Hg _]. apply Hk, Hg.
Qed.

Lemma init_keyed p : keyed (Flights.init p).
Proof. intros f []. Qed.

Lemma run_keyed events : forall s s',
  keyed s -> Flights.run events s = Some s' -> keyed s'.
Proof.
  induction events as [|e events IH]; intros s s' Hs; simpl.
  - intros [= <-]. exact Hs.
  - destruct (Flights.step e s) as [[[s1 eff] r]|] eqn:Hstep; [|discriminate].
    apply IH. eapply step_keyed; eassumption.
Qed.

(** An answer from upstream is stored under the flight's key for
    [cacheTtlMs] from its arrival. *)
Lemma answer_is_cached s n now remaining body rnd f s' eff r :
  keyed s ->
  Flights.find n (Flights.flights s) = Some f ->
  Flights.step (Flights.Arrive n now (Tomorrow.Response remaining body) rnd) s
    = Some (s', eff, r) ->
  Tomorrow.cache (Flights.provider s') !! Flights.key f =
    Some {| Tomorrow.value := Tomorrow.readResponse body;
            Tomorrow.expiresAt := now + Tomorrow.cacheTtlMs (Flights.provider s) |}.
Proof.
  intros Hk Hf. destruct (find_flight _ _ _ Hf) as [Hin _].
  rewrite (Hk f Hin). simpl. rewrite Hf.
  destruct (Flights.phase f); try discriminate.
  unfold Tomorrow.attempt_settled, Tomorrow.store, Tomorrow.finish, Tomorrow.cacheKey.
  destruct remaining; simpl; intros [= <- _ _]; simpl; apply lookup_insert_eq.
Qed.

Lemma init_coherent p : coherent (Flights.init p).
Proof. constructor; simpl; [constructor | intros f [] | intros f []]. Qed.

Lemma run_coherent events : forall s s',
  coherent s -> Flights.run events s = Some s' -> coherent s'.
Proof.
  induction events as [|e events IH]; intros s s' Hs; simpl.
  - intros [= <-]. exact Hs.
  - destruct (Flights.step e s) as [[[s1 eff] r]|] eqn:Hstep; [|discriminate].
    apply IH. eapply step_coherent; eassumption.
Qed.

Lemma at_most_one (fs : list Flights.Flight) :
  NoDup fs -> (forall f g, In f fs -> In g fs -> f = g) -> (length fs <= 1)%nat.
Proof.
  intros Hnd Heq. destruct fs as [|f [|g fs]]; simpl; try lia.
  exfalso. apply NoDup_cons in Hnd as [Hf _]. apply Hf.
  rewrite (Heq f g); [left | left; reflexivity | right; left; reflexivity].
Qed.

Lemma one_flight_per_key s f g :
  coherent s ->
  In f (Flights.flights s) -> In g (Flights.flights s) ->
  Flights.key f = Flights.key g -> f = g.
Proof.
  intros [Hnd Hreg _] Hf Hg Hk.
  apply (promise_injective _ _ _ Hnd Hf Hg).
  pose proof (Hreg f Hf) as H1. pose proof (Hreg g Hg) as H2.
  rewrite Hk in H1. congruence.
Qed.

Lemma NoDup_of_promises fs :
  NoDup (List.map Flights.promise fs) -> NoDup fs.
Proof.
  induction fs as [|f fs IH]; simpl; intros Hnd; [constructor|].
  apply NoDup_cons in Hnd as [Hf Hnd]. apply NoDup_cons. split; [|apply IH, Hnd].
  intros Hin. apply Hf. apply list_elem_of_In, in_map, list_elem_of_In, Hin.
Qed.

Lemma NoDup_kept {A} (keep : A -> bool) (l : list A) :
  NoDup l -> NoDup (List.filter keep l).
Proof.
  induction l as [|x l IH]; simpl; intros Hnd; [constructor|].
  apply NoDup_cons in Hnd as [Hx Hnd].
  destruct (keep x); [|apply IH, Hnd].
  apply NoDup_cons. split; [|apply IH, Hnd].
  rewrite list_elem_of_In, filter_In, <- list_elem_of_In. tauto.
Qed.

Lemma outstanding_le_1 s k : coherent s -> (Flights.outstanding k s <= 1)%nat.
Proof.
  intros Hs. unfold Flights.outstanding. apply at_most_one.
  - apply NoDup_kept, NoDup_of_promises, (distinct s Hs).
  - intros f g [Hf Hkf]%filter_In [Hg Hkg]%filter_In.
    apply andb_true_iff in Hkf as [Hkf _]. apply andb_true_iff in Hkg as [Hkg _].
    apply String.eqb_eq in Hkf, Hkg.
    apply (one_flight_per_key s f g Hs Hf Hg). congruence.
Qed.

(** A caller that finds a flight for its key, and no cached reading,
    is handed that flight's promise. *)
Lemma call_joins s lat lon now cached rnd f s' eff r :
  coherent s ->
  In f (Flights.flights s) ->
  Flights.key f = Tomorrow.cacheKey (Flights.provider s) lat lon ->
  Flights.step (Flights.Call lat lon now cached rnd) s = Some (s', eff, r) ->
  Flights.requests eff = 0%nat /\
  Flights.flights s' = Flights.flights s /\
  (r = Some (Tomorrow.Joined (Flights.promise f)) \/
   (exists v, r = Some (Tomorrow.Served v)) /\
   ((if Tomorrow.redis (Flights.provider s) then cached else None) <> None \/
    Tomorrow.fresh_hit
      (Tomorrow.cache (Flights.provider s) !! Tomorrow.cacheKey (Flights.provider s) lat lon)
      now <> None)).
Proof.
  intros Hs Hf Hk. pose proof (registered s Hs f Hf) as Hreg. rewrite Hk in Hreg.
  simpl. unfold Tomorrow.enter.
  destruct (if Tomorrow.redis _ then cached else None) eqn:Hr.
  - intros [= <- <- <-]. simpl. split; [reflexivity|]. split; [reflexivity|].
    right. split; [eauto|]. left. discriminate.
  - destruct (Tomorrow.fresh_hit _ now) eqn:Hh.
    + intros [= <- <- <-]. simpl. split; [reflexivity|]. split; [reflexivity|].
      right. split; [eauto|]. right. discriminate.
    + rewrite Hreg. intros [= <- <- <-]. simpl.
      split; [reflexivity|]. split; [reflexivity|]. left. reflexivity.
Qed.

(** A caller within the lifetime of a cached reading is served it. *)
Lemma call_within_ttl s lat lon now cached rnd entry s' eff r :
  Tomorrow.cache (Flights.provider s) !! Tomorrow.cacheKey (Flights.provider s) lat lon
    = Some entry ->
  now < Tomorrow.expiresAt entry ->
  Flights.step (Flights.Call lat lon now cached rnd) s = Some (s', eff, r) ->
  Flights.requests eff = 0%nat /\
  Flights.flights s' = Flights.flights s /\
  Flights.provider s' = Flights.provider s /\
  exists v, r = Some (Tomorrow.Served v) /\
    ((if Tomorrow.redis (Flights.provider s) then cached else None) = None ->
     v = Tomorrow.value entry).
Proof.
  intros Hc Hlt. simpl. unfold Tomorrow.enter, Tomorrow.fresh_hit. rewrite Hc.
  apply Z.ltb_lt in Hlt. rewrite Hlt.
  destruct (if Tomorrow.redis _ then cached else None) eqn:Hr;
    intros [= <- <- <-]; simpl; repeat split; eexists; (split; [reflexivity|]);
    intros; congruence.
Qed.

(** C9, as the code has it.  In every state the provider reaches through calls, replies,
    wake-ups and [finally] callbacks, in any order: for every key at most
    one upstream request is outstanding; a caller that finds a request in
    flight for its key is handed the promise of that flight, and so settles
    as the flight does, unless Redis or an unexpired entry of the memory
    cache answers it first; either way it sends nothing upstream; an answer
    from upstream is stored under the key until its arrival plus
    [cacheTtlMs], and a caller within the lifetime of a stored reading is
    served that reading and sends nothing upstream.  Requests leave only as
    events report them: the number of
    requests with upstream changes by those an event sends less the reply
    it receives. *)
Theorem single_flight_per_key
    (p0 : Tomorrow.t) (events : list Flights.Event) (s : Flights.System) :
  Flights.run events (Flights.init p0) = Some s ->
  (forall k, (Flights.outstanding k s <= 1)%nat) /\
  (forall lat lon now cached rnd f s' eff r,
     In f (Flights.flights s) ->
     Flights.key f = Tomorrow.cacheKey (Flights.provider s) lat lon ->
     Flights.step (Flights.Call lat lon now cached rnd) s = Some (s', eff, r) ->
     Flights.requests eff = 0%nat /\
     Flights.flights s' = Flights.flights s /\
     (r = Some (Tomorrow.Joined (Flights.promise f)) \/
      (exists v, r = Some (Tomorrow.Served v)) /\
      ((if Tomorrow.redis (Flights.provider s) then cached else None) <> None \/
       Tomorrow.fresh_hit
         (Tomorrow.cache (Flights.provider s) !! Tomorrow.cacheKey (Flights.provider s) lat lon)
         now <> None))) /\
  (forall lat lon now cached rnd entry s' eff r,
     Tomorrow.cache (Flights.provider s) !! Tomorrow.cacheKey (Flights.provider s) lat lon
       = Some entry ->
     now < Tomorrow.expiresAt entry ->
     Flights.step (Flights.Call lat lon now cached rnd) s = Some (s', eff, r) ->
     Flights.requests eff = 0%nat /\
     Flights.flights s' = Flights.flights s /\
     Flights.provider s' = Flights.provider s /\
     exists v, r = Some (Tomorrow.Served v) /\
       ((if Tomorrow.redis (Flights.provider s) then cached else None) = None ->
        v = Tomorrow.value entry)) /\
  (forall n now remaining body rnd f s' eff r,
     Flights.find n (Flights.flights s) = Some f ->
     Flights.step (Flights.Arrive n now (Tomorrow.Response remaining body) rnd) s
       = Some (s', eff, r) ->
     Tomorrow.cache (Flights.provider s') !! Flights.key f =
       Some {| Tomorrow.value := Tomorrow.readResponse body;
               Tomorrow.expiresAt := now + Tomorrow.cacheTtlMs (Flights.provider s) |}) /\
  (forall e s' eff r,
     Flights.step e s = Some (s', eff, r) ->
     (requesting (Flights.flights s') + arrived e
      = requesting (Flights.flights s) + Flights.requests eff)%nat).
Proof.
  intros Hrun.
  pose proof (run_coherent events _ _ (init_coherent p0) Hrun) as Hs.
  assert (keyed s) as Hk by (apply (run_keyed events _ _ (init_keyed p0) Hrun)).
  split; [intros k; apply outstanding_le_1, Hs|]. split; [|split; [|split]].
  - intros lat lon now cached rnd f s' eff r. apply call_joins, Hs.
  - intros lat lon now cached rnd entry s' eff r. apply call_within_ttl.
  - intros n now remaining body rnd f s' eff r. apply answer_is_cached, Hk.
  - intros e s' eff r Hstep. eapply step_coherent; eassumption.
Qed.

(** A second caller for the same place, one millisecond later, is handed
    the first call's promise and sends nothing. *)
Lemma second_caller_joins_the_flight :
  Flights.run [firstCall] (Flights.init provider0) = Some busy /\
  (Flights.outstanding (Tomorrow.cacheKey provider0 1 1) busy <= 1)%nat /\
  exists s' eff,
    Flights.step (Flights.Call 1 1 1001 None zeros) busy
      = Some (s', eff, Some (Tomorrow.Joined 0)) /\
    Flights.requests eff = 0%nat /\
    Flights.flights s' = Flights.flights busy.
Proof.
  split; [reflexivity|].
  destruct (single_flight_per_key provider0 [firstCall] busy eq_refl) as (Hone & Hjoin & _).
  split; [apply Hone|].
  eexists _, _. split; [reflexivity|].
  destruct (Hjoin 1%Q 1%Q 1001 None zeros
              {| Flights.promise := 0; Flights.key := Tomorrow.cacheKey provider0 1 1;
                 Flights.latitude := 1; Flights.longitude := 1; Flights.attempt := 1;
                 Flights.phase := Flights.Requesting |}
              _ _ _ (or_introl eq_refl) eq_refl eq_refl) as (Hreq & Hfl & _).
  split; [exact Hreq | exact Hfl].
Defined.

(** With Redis configured, a caller that arrives while the request for
    its key is with upstream, and to whom Redis answers, is served what
    Redis holds: it does not wait for the flight, whose own result, once
    upstream answers, is another reading. *)
Lemma redis_answer_bypasses_the_flight :
  Flights.outstanding (Tomorrow.cacheKey providerWithRedis 1 1) busyWithRedis = 1%nat /\
  Flights.step (Flights.Call 1 1 1001 (Some chilly) zeros) busyWithRedis
    = Some (busyWithRedis, [], Some (Tomorrow.Served chilly)) /\
  (exists s' eff,
     Flights.step (Flights.Arrive 0 1200 sunny zeros) busyWithRedis = Some (s', eff, None) /\
     List.map Flights.phase (Flights.flights s')
       = [Flights.Done (Return (Tomorrow.readResponse
            (Some {| Weather.temperature := Some 35%Q; Weather.windSpeed := Some 2%Q;
                     Weather.rainIntensity := None; Weather.snowIntensity := None;
                     Weather.sleetIntensity := None;
                     Weather.freezingRainIntensity := None |})))]) /\
  Weather.temperatureC chilly <> Some 35%Q.
Proof.
  split; [reflexivity|]. split; [reflexivity|]. split; [|discriminate].
  eexists _, _. split; reflexivity.
Qed.

(** ** Further facts about the two evaluation paths *)

(** Rows of the repository carry their parameter in upper case, and the
    event-driven engine extracts readings by the lower-case names: for a
    row it extracts nothing, so a weather update changes neither the table
    nor the topics. *)
Lemma extractWeatherValue_of_record weatherData a :
  EventDriven.extractWeatherValue weatherData
    (EventDriven.parameter (EventDriven.of_record a)) = None.
Proof. simpl. destruct (Alerts.parameter a); reflexivity. Qed.

(** Hence a batch made of rows leaves the world as it was... *)
Lemma allSettled_of_records records weatherData now w :
  fst (EventDriven.allSettled (List.map EventDriven.of_record records) weatherData now w) = w.
Proof.
  induction records as [|a records IH]; simpl; [reflexivity|].
  rewrite (evaluateAlertWithEvent_absent _ _ now w (extractWeatherValue_of_record weatherData a)).
  destruct (EventDriven.allSettled _ weatherData now w) as [w2 rs]. exact IH.
Qed.

(** ... and so does the handling of a weather update, whose batch is made
    of the rows [getAllAlerts] returned. *)
Lemma handleWeatherUpdate_changes_nothing weatherData now w :
  fst (EventDriven.handleWeatherUpdate weatherData now w) = w.
Proof.
  unfold EventDriven.handleWeatherUpdate.
  destruct (EventDriven.findAlertsForLocation _ _ _ _) as [|a l]; [reflexivity|].
  pose proof (allSettled_of_records (a :: l) weatherData now w) as H.
  destruct (EventDriven.allSettled _ weatherData now w) as [w' results]. exact H.
Qed.

(** The scheduler notifies at every firing at which the condition holds,
    not only at the change: two sweeps six minutes apart over a heat alert,
    with 35 degrees at both, send the e-mail and the text message twice. *)
Lemma scheduler_notifies_at_every_firing :
  let '(st1, tbl1, sent1) := Scheduled.tick Wiring.provider 1200 hotTwice [hotRow] in
  let '(st2, tbl2, sent2) := Scheduled.tick Wiring.provider 400200 st1 tbl1 in
  Alerts.lastState <$> Alerts.lookup "alert-hot" tbl1 = Some (Some true) /\
  length sent1 = 2%nat /\ length sent2 = 2%nat.
Proof. vm_compute. repeat split; reflexivity. Qed.

(** ** The publishing gateway *)

(** One publication on a connected producer: the send is counted, and the
    event is on the topic if the broker acknowledged it. *)
Lemma publishWeatherUpdate_connected e k :
  Kafka.isConnected k = true ->
  let k' := fst (Kafka.publishWeatherUpdate e k) in
  Kafka.isConnected k' = true /\
  Kafka.acknowledged k' = Kafka.acknowledged k /\
  Kafka.sends k' = Datatypes.S (Kafka.sends k) /\
  Kafka.weatherUpdates k' =
    Kafka.weatherUpdates k ++ (if Kafka.acknowledged k (Kafka.sends k) then [e] else []).
Proof.
  intros Hc. unfold Kafka.publishWeatherUpdate, Kafka.send. rewrite Hc.
  destruct (Kafka.acknowledged k (Kafka.sends k)); simpl;
    rewrite ?app_nil_r; repeat split; assumption.
Qed.






(** * Properties of the code around the claims *)

(** ** The circuit breaker between calls *)

Lemma settle_counts {T E} cfg now (r : Outcome T E) b :
  CircuitBreaker.requestCount b = CircuitBreaker.failureCount b ->
  0 <= CircuitBreaker.failureCount b ->
  CircuitBreaker.requestCount (fst (CircuitBreaker.settle cfg now r b))
    = CircuitBreaker.failureCount (fst (CircuitBreaker.settle cfg now r b)) /\
  0 <= CircuitBreaker.failureCount (fst (CircuitBreaker.settle cfg now r b)).
Proof.
  intros Heq Hpos. destruct r as [v|e]; simpl.
  - unfold CircuitBreaker.onSuccess. simpl.
    destruct (CircuitBreaker.state b); simpl; lia.
  - unfold CircuitBreaker.onFailure. simpl.
    destruct (CircuitBreaker.state b); simpl;
      try (unfold CircuitBreaker.shouldOpenCircuit; simpl;
           destruct (_ <? _); simpl; [lia|];
           destruct (_ && _); simpl; lia);
      lia.
Qed.

Lemma execute_counts {S T E} cfg now (op : S -> S * Z * Outcome T E) b s :
  CircuitBreaker.requestCount b = CircuitBreaker.failureCount b ->
  0 <= CircuitBreaker.failureCount b ->
  CircuitBreaker.requestCount (fst (fst (CircuitBreaker.execute cfg now op b s)))
    = CircuitBreaker.failureCount (fst (fst (CircuitBreaker.execute cfg now op b s))) /\
  0 <= CircuitBreaker.failureCount (fst (fst (CircuitBreaker.execute cfg now op b s))).
Proof.
  intros Heq Hpos. unfold CircuitBreaker.execute, CircuitBreaker.pass_gate.
  destruct (CircuitBreaker.state b) eqn:Hst.
  - destruct (op s) as [[s' done] r].
    pose proof (settle_counts cfg done r b Heq Hpos) as H.
    destruct (CircuitBreaker.settle cfg done r b); exact H.
  - destruct (CircuitBreaker.shouldAttemptReset cfg now b); [|simpl; lia].
    destruct (op s) as [[s' done] r].
    pose proof (settle_counts cfg done r
                  (CircuitBreaker.set_state CircuitBreaker.HALF_OPEN b) Heq Hpos) as H.
    destruct (CircuitBreaker.settle cfg done r _); exact H.
  - destruct (op s) as [[s' done] r].
    pose proof (settle_counts cfg done r b Heq Hpos) as H.
    destruct (CircuitBreaker.settle cfg done r b); exact H.
Qed.

Lemma settle_not_half_open {T E} cfg now (r : Outcome T E) b :
  CircuitBreaker.state (fst (CircuitBreaker.settle cfg now r b)) <> CircuitBreaker.HALF_OPEN.
Proof.
  destruct b as [st fc lf rc ws].
  destruct r as [v|e]; destruct st;
    cbn [CircuitBreaker.settle fst];
    unfold CircuitBreaker.onSuccess, CircuitBreaker.onFailure,
      CircuitBreaker.shouldOpenCircuit, CircuitBreaker.resetCounters,
      CircuitBreaker.set_state;
    cbn -[Z.add Z.sub Z.ltb Z.leb];
    repeat (match goal with
            | |- context [if ?c then _ else _] => destruct c
            end; cbn -[Z.add Z.sub Z.ltb Z.leb]);
    discriminate.
Qed.

Lemma execute_not_half_open {S T E} cfg now (op : S -> S * Z * Outcome T E) b s :
  CircuitBreaker.state b <> CircuitBreaker.HALF_OPEN ->
  CircuitBreaker.state (fst (fst (CircuitBreaker.execute cfg now op b s)))
    <> CircuitBreaker.HALF_OPEN.
Proof.
  intros Hb. unfold CircuitBreaker.execute.
  destruct (CircuitBreaker.pass_gate cfg now b) as [b1|e]; [|exact Hb].
  destruct (op s) as [[s' done] r].
  pose proof (settle_not_half_open cfg done r b1) as H.
  destruct (CircuitBreaker.settle cfg done r b1); exact H.
Qed.

(** The request counter of the breaker counts failures only: whatever the
    history of calls of a breaker since its construction, successes,
    failures and refusals alike, its request count equals its failure
    count.  The [minimumRequests] setting is therefore a second threshold on
    the number of failures. *)
Theorem request_count_is_failure_count
    (cfg : CircuitBreaker.CircuitBreakerConfig) (calls : list (Z * Z * bool)) (t0 : Z) :
  CircuitBreaker.requestCount (replay cfg calls (CircuitBreaker.create t0))
    = CircuitBreaker.failureCount (replay cfg calls (CircuitBreaker.create t0)) /\
  0 <= CircuitBreaker.failureCount (replay cfg calls (CircuitBreaker.create t0)).
Proof.
  assert (G : forall calls b,
            CircuitBreaker.requestCount b = CircuitBreaker.failureCount b ->
            0 <= CircuitBreaker.failureCount b ->
            CircuitBreaker.requestCount (replay cfg calls b)
              = CircuitBreaker.failureCount (replay cfg calls b) /\
            0 <= CircuitBreaker.failureCount (replay cfg calls b)).
  { clear calls. induction calls as [|[[now done] ok] rest IH]; intros b Heq Hpos.
    - split; assumption.
    - simpl.
      destruct (execute_counts cfg now (if ok then returning done else throwing done) b tt
                  Heq Hpos) as [H1 H2].
      apply IH; assumption. }
  apply G; simpl; lia.
Qed.

(** Calls made one after the other never leave the breaker HALF_OPEN: that
    state lasts only while the probe it let through is running, so between
    calls [getStatus] reports CLOSED or OPEN. *)
Theorem half_open_only_during_a_call
    (cfg : CircuitBreaker.CircuitBreakerConfig) (calls : list (Z * Z * bool)) (t0 : Z) :
  Status.state (Status.getStatus cfg (replay cfg calls (CircuitBreaker.create t0)))
    <> CircuitBreaker.HALF_OPEN.
Proof.
  assert (G : forall calls b,
            CircuitBreaker.state b <> CircuitBreaker.HALF_OPEN ->
            CircuitBreaker.state (replay cfg calls b) <> CircuitBreaker.HALF_OPEN).
  { clear calls. induction calls as [|[[now done] ok] rest IH]; intros b Hb; [exact Hb|].
    simpl. apply IH. apply execute_not_half_open. exact Hb. }
  simpl. apply G. simpl. discriminate.
Qed.

(** A call is refused by the breaker exactly when [getStatus] shows a
    [nextRetryTime] that is still ahead; the refusal carries that time, and
    leaves the breaker and the operation's state as they were. *)
Theorem refused_iff_before_next_retry
    (S T E : Type) (cfg : CircuitBreaker.CircuitBreakerConfig) (now : Z)
    (op : S -> S * Z * Outcome T E) (b : CircuitBreaker.t) (s : S) :
  (forall t,
     Status.nextRetryTime (Status.getStatus cfg b) = Some t /\ now < t <->
     CircuitBreaker.execute cfg now op b s = (b, s, Throw (CircuitBreaker.CircuitOpen t))) /\
  (forall b' s' t,
     CircuitBreaker.execute cfg now op b s = (b', s', Throw (CircuitBreaker.CircuitOpen t)) ->
     b' = b /\ s' = s).
Proof.
  split.
  - intros t. unfold CircuitBreaker.execute, CircuitBreaker.pass_gate,
      CircuitBreaker.shouldAttemptReset. simpl.
    destruct (CircuitBreaker.state b) eqn:Hst.
    + split; [intros [H _]; discriminate|].
      destruct (op s) as [[s' done] [v|e]]; simpl; intros H; discriminate.
    + destruct (Z.leb_spec (CircuitBreaker.recoveryTimeout cfg)
                  (now - CircuitBreaker.lastFailureTime b)) as [Hle|Hlt].
      * split; [intros [H Hn]; injection H as <-; lia|].
        destruct (op s) as [[s' done] [v|e]]; simpl; intros H; discriminate.
      * split.
        -- intros [H _]. injection H as <-. reflexivity.
        -- intros H. injection H as <-. split; [reflexivity | lia].
    + split; [intros [H _]; discriminate|].
      destruct (op s) as [[s' done] [v|e]]; simpl; intros H; discriminate.
  - intros b' s' t. unfold CircuitBreaker.execute.
    destruct (CircuitBreaker.pass_gate cfg now b) as [b1|e].
    + destruct (op s) as [[s1 done] [v|e]]; simpl; intros H; discriminate.
    + intros H. injection H as <- <- _. split; reflexivity.
Qed.

(** ** The attempts of a call *)

Lemma requests_app a b :
  Flights.requests (a ++ b) = (Flights.requests a + Flights.requests b)%nat.
Proof.
  unfold Flights.requests. rewrite List.filter_app, length_app. reflexivity.
Qed.

Lemma attempt_settled_backoff lat lon now reply rnd attempt p p1 d eff :
  Tomorrow.attempt_settled lat lon now reply rnd attempt p = (p1, Tomorrow.Backoff d, eff) ->
  attempt <> Tomorrow.maxAttempts /\ p1 = p /\ eff = [Tomorrow.Sleep d] /\
  exists response,
    reply = Tomorrow.Rejection response /\
    d = Tomorrow.backoff attempt (header_of response) rnd.
Proof.
  unfold Tomorrow.attempt_settled. destruct reply as [remaining body|response].
  - destruct (Tomorrow.store _ _ _ _). discriminate.
  - destruct (Tomorrow.isRetryable _); simpl.
    + destruct (Nat.eqb_spec attempt Tomorrow.maxAttempts) as [->|Hne].
      * destruct (Tomorrow.is429 _); first [discriminate | destruct (Tomorrow.store _ _ _ _); discriminate].
      * intros H. injection H as <- <- <-. repeat split; [exact Hne|].
        exists response. split; reflexivity.
    + destruct (Tomorrow.is429 _); first [discriminate | destruct (Tomorrow.store _ _ _ _); discriminate].
Qed.

Lemma retryLoop_bounds lat lon script : forall attempt p,
  (1 <= attempt <= Tomorrow.maxAttempts)%nat ->
  (Flights.requests (snd (Tomorrow.retryLoop lat lon attempt script p))
     <= Tomorrow.maxAttempts - attempt)%nat /\
  ((Tomorrow.maxAttempts - attempt < length script)%nat ->
   snd (fst (Tomorrow.retryLoop lat lon attempt script p)) <> None).
Proof.
  induction script as [|tick rest IH]; intros attempt p Ha.
  - simpl. split; [unfold Flights.requests; simpl; lia|]. intros H. lia.
  - cbn [Tomorrow.retryLoop].
    destruct (Tomorrow.attempt_settled lat lon (Tomorrow.at_ tick) (Tomorrow.reply tick)
                (Tomorrow.random tick) attempt p) as [[p1 next] eff] eqn:Hs.
    pose proof (attempt_settled_requests lat lon (Tomorrow.at_ tick) (Tomorrow.reply tick)
                  (Tomorrow.random tick) attempt p) as Hr.
    rewrite Hs in Hr. simpl in Hr.
    destruct next as [o|d].
    + destruct (Tomorrow.finish (Tomorrow.at_ tick) o p1) as [p2 o']. simpl.
      split; [rewrite Hr; lia | discriminate].
    + destruct (attempt_settled_backoff _ _ _ _ _ _ _ _ _ _ Hs) as (Hne & -> & -> & _).
      unfold Tomorrow.start_attempt.
      assert (Hle : (S attempt <=? Tomorrow.maxAttempts)%nat = true)
        by (apply Nat.leb_le; lia).
      rewrite Hle.
      specialize (IH (S attempt) p ltac:(lia)).
      destruct (Tomorrow.retryLoop lat lon (S attempt) rest p) as [[p3 r] eff3].
      simpl in IH |- *. destruct IH as [IH1 IH2]. split.
      * change (Flights.requests
                  (Tomorrow.Sleep d :: Tomorrow.HttpGet lat lon (Tomorrow.units p) :: eff3))
          with (S (Flights.requests eff3)).
        unfold Tomorrow.maxAttempts in *. lia.
      * intros Hlen. apply IH2. unfold Tomorrow.maxAttempts in *. lia.
Qed.

(** A call never sends more than four requests upstream, and four
    answers are always enough for it to settle: the only call that stays
    pending whatever upstream answers is one that joined another call's
    request. *)
Theorem call_settles_within_four_attempts
    (lat lon : Q) (now : Z) (cached : option Weather.RealtimeWeatherData)
    (rnd : nat -> Q) (script : list Tomorrow.Tick) (p : Tomorrow.t) :
  (Flights.requests (snd (Tomorrow.getRealtime lat lon now cached rnd script p)) <= 4)%nat /\
  ((4 <= length script)%nat ->
   snd (fst (Tomorrow.getRealtime lat lon now cached rnd script p)) = None ->
   exists m, snd (fst (Tomorrow.enter lat lon now cached rnd 0 p)) = Tomorrow.Joined m).
Proof.
  unfold Tomorrow.getRealtime.
  destruct (Tomorrow.enter lat lon now cached rnd 0 p) as [[p1 e] eff] eqn:He.
  pose proof (enter_spec _ _ _ _ _ _ _ _ _ _ He) as Hspec.
  destruct e as [v|m|m|m err]; simpl.
  - destruct Hspec as [_ Hr]. split; [lia | discriminate].
  - destruct Hspec as (_ & -> & _).
    split; [unfold Flights.requests; simpl; lia|]. intros _ _. exists m. reflexivity.
  - destruct Hspec as (_ & _ & _ & ->).
    destruct (retryLoop_bounds lat lon script 1 p1 ltac:(unfold Tomorrow.maxAttempts; lia))
      as [Hb Hs].
    destruct (Tomorrow.retryLoop lat lon 1 script p1) as [[p2 r] eff2]. simpl in *.
    split.
    + assert (Hreq : (Flights.requests
                        (Tomorrow.HttpGet lat lon (Tomorrow.units p) :: eff2) <= 4)%nat).
      { change (Flights.requests (Tomorrow.HttpGet lat lon (Tomorrow.units p) :: eff2))
          with (S (Flights.requests eff2)).
        unfold Tomorrow.maxAttempts in Hb. lia. }
      destruct r; simpl; exact Hreq.
    + intros Hlen. destruct r; simpl; [discriminate|].
      intros _. exfalso. apply Hs; [unfold Tomorrow.maxAttempts; lia | reflexivity].
  - destruct Hspec as (_ & _ & _ & ->).
    split; [unfold Flights.requests; simpl; lia | discriminate].
Qed.

(** ** The cooldown window *)

(** While [getApiStatus] reports the provider rate limited, no call
    reaches upstream and none is refused by the breaker, whatever its
    state: a call is served (from a cache, or demo data) or joins a request
    sent before the window opened. *)
Theorem rate_limited_provider_sends_nothing
    (lat lon : Q) (now : Z) (cached : option Weather.RealtimeWeatherData)
    (rnd : nat -> Q) (n : nat) (p p' : Tomorrow.t) (entered : Tomorrow.Entered)
    (eff : list Tomorrow.Effect) :
  Status.isRateLimited (Status.getApiStatus now p) = true ->
  Tomorrow.enter lat lon now cached rnd n p = (p', entered, eff) ->
  Flights.requests eff = 0%nat /\
  ((exists v, entered = Tomorrow.Served v) \/ (exists m, entered = Tomorrow.Joined m)).
Proof.
  simpl. intros Hlim. unfold Tomorrow.enter.
  destruct (if Tomorrow.redis p then cached else None) as [v|].
  { intros H. injection H as <- <- <-. split; [reflexivity | left; eauto]. }
  destruct (Tomorrow.fresh_hit _ now) as [v|].
  { intros H. injection H as <- <- <-. split; [reflexivity | left; eauto]. }
  destruct (Tomorrow.inFlight p !! _) as [m|].
  { intros H. injection H as <- <- <-. split; [reflexivity | right; eauto]. }
  rewrite Hlim. unfold Tomorrow.store.
  intros H. injection H as <- <- <-. split; [|left; eauto].
  destruct (Tomorrow.redis p); reflexivity.
Qed.

(** ** What the cache keeps *)

Lemma grows_cache p p' : Tomorrow.cache p' = Tomorrow.cache p -> grows p p'.
Proof. intros H. split; [intros k Hk|]; rewrite H; [exact Hk | lia]. Qed.

Lemma grows_trans p q r : grows p q -> grows q r -> grows p r.
Proof.
  intros [K1 S1] [K2 S2]. split; [intros k Hk; apply K2, K1, Hk | lia].
Qed.

Lemma store_grows key v now p : grows p (fst (Tomorrow.store key v now p)).
Proof.
  unfold Tomorrow.store. simpl. split.
  - intros k Hk. simpl. apply lookup_insert_is_Some.
    destruct (decide (key = k)); [left; assumption | right; split; assumption].
  - simpl. rewrite map_size_insert. destruct (Tomorrow.cache p !! key); simpl; lia.
Qed.

Lemma enter_grows lat lon now cached rnd n p :
  grows p (fst (fst (Tomorrow.enter lat lon now cached rnd n p))).
Proof.
  unfold Tomorrow.enter.
  destruct (if Tomorrow.redis p then cached else None); [apply grows_cache; reflexivity|].
  destruct (Tomorrow.fresh_hit _ now); [apply grows_cache; reflexivity|].
  destruct (Tomorrow.inFlight p !! _); [apply grows_cache; reflexivity|].
  destruct (now <? Tomorrow.rateLimitResetTime p).
  - pose proof (store_grows (Tomorrow.cacheKey p lat lon)
                  (Tomorrow.demoData rnd (Weather.Demo Tomorrow.cooldownMessage lat lon false))
                  now p) as H.
    destruct (Tomorrow.store _ _ now p). exact H.
  - destruct (CircuitBreaker.pass_gate _ _ _); apply grows_cache; reflexivity.
Qed.

Lemma attempt_settled_grows lat lon now reply rnd attempt p :
  grows p (fst (fst (Tomorrow.attempt_settled lat lon now reply rnd attempt p))).
Proof.
  unfold Tomorrow.attempt_settled. destruct reply as [remaining body|response].
  - match goal with
    | |- context [Tomorrow.store ?k ?v ?t ?q] =>
        pose proof (store_grows k v t q) as H; destruct (Tomorrow.store k v t q)
    end.
    simpl in *. eapply grows_trans; [|exact H].
    destruct remaining; apply grows_cache; reflexivity.
  - destruct (negb _ || _); [|apply grows_cache; reflexivity].
    destruct (Tomorrow.is429 _); [|apply grows_cache; reflexivity].
    match goal with
    | |- context [Tomorrow.store ?k ?v ?t ?q] =>
        pose proof (store_grows k v t q) as H; destruct (Tomorrow.store k v t q)
    end.
    simpl in *. eapply grows_trans; [|exact H]. apply grows_cache; reflexivity.
Qed.

Lemma finish_cache now o p :
  Tomorrow.cache (fst (Tomorrow.finish now o p)) = Tomorrow.cache p.
Proof.
  unfold Tomorrow.finish.
  destruct (CircuitBreaker.settle _ _ _ _). reflexivity.
Qed.

Lemma start_attempt_cache lat lon now attempt p :
  Tomorrow.cache (fst (fst (Tomorrow.start_attempt lat lon now attempt p))) = Tomorrow.cache p.
Proof.
  unfold Tomorrow.start_attempt. destruct (_ <=? _)%nat; [reflexivity|].
  pose proof (finish_cache now (Throw Tomorrow.Exhausted) p) as H.
  destruct (Tomorrow.finish _ _ _). exact H.
Qed.

Lemma step_grows e s s' eff r :
  Flights.step e s = Some (s', eff, r) -> grows (Flights.provider s) (Flights.provider s').
Proof.
  destruct e as [lat lon now cached rnd|n now reply rnd|n now|n]; simpl.
  - pose proof (enter_grows lat lon now cached rnd (Flights.nextPromise s)
                  (Flights.provider s)) as H.
    destruct (Tomorrow.enter _ _ _ _ _ _ _) as [[p' entered] eff'].
    destruct entered; intros E; injection E as <- _ _; exact H.
  - destruct (Flights.find n (Flights.flights s)) as [f|]; [|discriminate].
    destruct (Flights.phase f); try discriminate.
    pose proof (attempt_settled_grows (Flights.latitude f) (Flights.longitude f) now reply
                  rnd (Flights.attempt f) (Flights.provider s)) as H.
    destruct (Tomorrow.attempt_settled _ _ _ _ _ _ _) as [[p1 next] eff'].
    destruct next as [o|d].
    + pose proof (finish_cache now o p1) as Hf.
      destruct (Tomorrow.finish now o p1) as [p2 o'].
      intros E; injection E as <- _ _. simpl in *.
      eapply grows_trans; [exact H | apply grows_cache; exact Hf].
    + intros E; injection E as <- _ _. exact H.
  - destruct (Flights.find n (Flights.flights s)) as [f|]; [|discriminate].
    destruct (Flights.phase f); try discriminate.
    pose proof (start_attempt_cache (Flights.latitude f) (Flights.longitude f) now
                  (S (Flights.attempt f)) (Flights.provider s)) as H.
    destruct (Tomorrow.start_attempt _ _ _ _ _) as [[p1 thrown] eff'].
    intros E; injection E as <- _ _. apply grows_cache. exact H.
  - destruct (Flights.find n (Flights.flights s)) as [f|]; [|discriminate].
    destruct (Flights.phase f); try discriminate.
    intros E; injection E as <- _ _. apply grows_cache. reflexivity.
Qed.

(** The gateway never evicts: through any history of calls, answers,
    wake-ups and [finally] callbacks, every key of the cache stays in it,
    expired or not, and the [cacheSize] that [getApiStatus] reports never
    goes down. *)
Theorem cache_never_shrinks
    (events : list Flights.Event) (s s' : Flights.System) (now now' : Z) :
  Flights.run events s = Some s' ->
  keeps_keys (Flights.provider s) (Flights.provider s') /\
  (Status.cacheSize (Status.getApiStatus now (Flights.provider s))
   <= Status.cacheSize (Status.getApiStatus now' (Flights.provider s')))%nat.
Proof.
  revert s. induction events as [|e es IH]; intros s; simpl.
  - intros H. injection H as <-. split; [intros k Hk; exact Hk | lia].
  - destruct (Flights.step e s) as [[[s1 eff] r]|] eqn:Hs; [|discriminate].
    intros Hrun. destruct (step_grows _ _ _ _ _ Hs) as [K1 S1].
    destruct (IH s1 Hrun) as [K2 S2]. simpl in *.
    split; [intros k Hk; apply K2, K1, Hk | lia].
Qed.

Lemma retryLoop_thrown lat lon script : forall attempt p p' e eff,
  Tomorrow.retryLoop lat lon attempt script p = (p', Some (Throw e), eff) ->
  Tomorrow.cache p' = Tomorrow.cache p /\ redis_writes eff = 0%nat.
Proof.
  induction script as [|tick rest IH]; intros attempt p p' e eff; [discriminate|].
  cbn [Tomorrow.retryLoop].
  destruct (Tomorrow.attempt_settled lat lon (Tomorrow.at_ tick) (Tomorrow.reply tick)
              (Tomorrow.random tick) attempt p) as [[p1 next] eff1] eqn:Hs.
  destruct next as [o|d].
  - pose proof (finish_cache (Tomorrow.at_ tick) o p1) as Hc.
    destruct (Tomorrow.finish (Tomorrow.at_ tick) o p1) as [p2 o'] eqn:Hf.
    intros H. injection H as <- -> <-. simpl in Hc.
    destruct o as [v|err].
    { unfold Tomorrow.finish in Hf. simpl in Hf. discriminate. }
    revert Hs. unfold Tomorrow.attempt_settled.
    destruct (Tomorrow.reply tick) as [remaining body|response].
    + destruct (Tomorrow.store _ _ _ _). discriminate.
    + destruct (negb _ || _); [|discriminate].
      destruct (Tomorrow.is429 _);
        [destruct (Tomorrow.store _ _ _ _); discriminate|].
      intros H. injection H as <- _ <-. split; [exact Hc | reflexivity].
  - destruct (attempt_settled_backoff _ _ _ _ _ _ _ _ _ _ Hs) as (_ & -> & -> & _).
    pose proof (start_attempt_cache lat lon
                  (Tomorrow.at_ tick + Z.max 0 (Qfloor d)) (S attempt) p) as Hc.
    destruct (Tomorrow.start_attempt _ _ _ _ _) as [[p2 thrown] eff2] eqn:Hst.
    simpl in Hc. destruct thrown as [o|].
    + intros H. injection H as <- -> <-. split; [exact Hc|].
      unfold Tomorrow.start_attempt in Hst. destruct (_ <=? _)%nat; [discriminate|].
      destruct (Tomorrow.finish _ _ _). injection Hst as _ _ <-. reflexivity.
    + unfold Tomorrow.start_attempt in Hst.
      destruct (S attempt <=? Tomorrow.maxAttempts)%nat;
        [|destruct (Tomorrow.finish _ _ _); discriminate].
      injection Hst as <- <-.
      destruct (Tomorrow.retryLoop lat lon (S attempt) rest p) as [[p3 r] eff3] eqn:Hr.
      intros H. injection H as <- -> <-.
      destruct (IH _ _ _ _ _ Hr) as [IH1 IH2]. split; [exact IH1|].
      exact IH2.
Qed.

(** A call that throws has stored nothing: the in-memory cache is as it
    was before the call and nothing was written to Redis, so the next call
    for the place asks upstream again. *)
Theorem failures_are_not_cached
    (lat lon : Q) (now : Z) (cached : option Weather.RealtimeWeatherData)
    (rnd : nat -> Q) (script : list Tomorrow.Tick) (p p' : Tomorrow.t)
    (e : CircuitBreaker.Error Tomorrow.UpstreamError) (eff : list Tomorrow.Effect) :
  Tomorrow.getRealtime lat lon now cached rnd script p = (p', Some (Throw e), eff) ->
  Tomorrow.cache p' = Tomorrow.cache p /\ redis_writes eff = 0%nat.
Proof.
  unfold Tomorrow.getRealtime.
  destruct (Tomorrow.enter lat lon now cached rnd 0 p) as [[p1 entered] eff1] eqn:He.
  destruct entered as [v|m|m|m err]; try discriminate.
  - destruct (enter_started _ _ _ _ _ _ _ _ _ _ He) as (b & -> & _ & _ & _ & ->).
    destruct (Tomorrow.retryLoop lat lon 1 script _) as [[p2 r] eff2] eqn:Hr.
    destruct r as [o|]; [|discriminate].
    intros H. injection H as <- -> <-.
    destruct (retryLoop_thrown _ _ _ _ _ _ _ _ Hr) as [Hc Hw].
    split; [simpl; rewrite Hc; reflexivity | exact Hw].
  - intros H. injection H as <- _ <-.
    revert He. unfold Tomorrow.enter.
    destruct (if Tomorrow.redis p then cached else None); [discriminate|].
    destruct (Tomorrow.fresh_hit _ now); [discriminate|].
    destruct (Tomorrow.inFlight p !! _); [discriminate|].
    destruct (now <? Tomorrow.rateLimitResetTime p);
      [destruct (Tomorrow.store _ _ _ _); discriminate|].
    destruct (CircuitBreaker.pass_gate _ _ _); [discriminate|].
    intros H. injection H as Hp _ Heff. subst p1 eff1. split; reflexivity.
Qed.

(** For example the call that upstream rejects with status 400. *)
Lemma rejected_call_stores_nothing :
  exists p' e eff,
    Tomorrow.getRealtime 1 1 1000 None zeros
      [answers 1100 (Tomorrow.Rejection (Some badRequest))] provider0
      = (p', Some (Throw e), eff) /\
    Tomorrow.cache p' = Tomorrow.cache provider0 /\ redis_writes eff = 0%nat.
Proof.
  eexists _, _, _. split; [reflexivity|].
  apply (failures_are_not_cached 1 1 1000 None zeros
           [answers 1100 (Tomorrow.Rejection (Some badRequest))] provider0 _ _ _ eq_refl).
Defined.

(** ** Rate limiting and the breaker *)

(** A request that is answered 429 at its last attempt ends as a success
    for the breaker: the flight settles with demo data, the breaker's
    [onSuccess] runs and its counters are zero again.  Rate limiting alone
    never opens the circuit. *)
Theorem rate_limit_is_booked_as_success
    (s : Flights.System) (n : nat) (now : Z) (r : Tomorrow.ErrorResponse) (rnd : nat -> Q)
    (f : Flights.Flight) (s' : Flights.System) (eff : list Tomorrow.Effect)
    (res : option Tomorrow.Entered) :
  Flights.find n (Flights.flights s) = Some f ->
  Flights.phase f = Flights.Requesting ->
  Flights.attempt f = Tomorrow.maxAttempts ->
  Tomorrow.status r = 429 ->
  Flights.step (Flights.Arrive n now (Tomorrow.Rejection (Some r)) rnd) s = Some (s', eff, res) ->
  Tomorrow.circuitBreaker (Flights.provider s')
    = CircuitBreaker.onSuccess now (Tomorrow.circuitBreaker (Flights.provider s)) /\
  CircuitBreaker.failureCount (Tomorrow.circuitBreaker (Flights.provider s')) = 0 /\
  CircuitBreaker.requestCount (Tomorrow.circuitBreaker (Flights.provider s')) = 0 /\
  Flights.flights s' =
    Flights.set_phase n (Flights.attempt f)
      (Flights.Done
         (Return (Tomorrow.demoData rnd
                    (Weather.Demo Tomorrow.rateLimitedMessage
                       (Flights.latitude f) (Flights.longitude f) true))))
      (Flights.flights s).
Proof.
  intros Hfind Hph Hat Hst. cbn [Flights.step]. rewrite Hfind, Hph.
  unfold Tomorrow.attempt_settled. cbn [fmap option_fmap option_map].
  cbn [Tomorrow.is429 Tomorrow.isRetryable]. rewrite Hst, Hat.
  cbn -[Tomorrow.demoData Tomorrow.cacheKey Z.add Z.mul CircuitBreaker.onSuccess].
  intros H. injection H as <- _ _.
  cbn -[Tomorrow.demoData Tomorrow.cacheKey Z.add Z.mul CircuitBreaker.onSuccess].
  split; [reflexivity|]. split; [|split; [|reflexivity]].
  - unfold CircuitBreaker.onSuccess.
    destruct (CircuitBreaker.state _); reflexivity.
  - unfold CircuitBreaker.onSuccess.
    destruct (CircuitBreaker.state _); reflexivity.
Qed.

(** The fourth 429 of a call, arriving at 4200. *)
Lemma fourth_429_resets_the_counters :
  exists s' eff res,
    Flights.step (Flights.Arrive 0 4200 (Tomorrow.Rejection (Some tooMany)) zeros) fourthAttempt
      = Some (s', eff, res) /\
    CircuitBreaker.failureCount (Tomorrow.circuitBreaker (Flights.provider s')) = 0 /\
    CircuitBreaker.requestCount (Tomorrow.circuitBreaker (Flights.provider s')) = 0.
Proof.
  destruct (Flights.step (Flights.Arrive 0 4200 (Tomorrow.Rejection (Some tooMany)) zeros)
              fourthAttempt) as [[[s' eff] res]|] eqn:Hs.
  - exists s', eff, res. split; [reflexivity|].
    destruct (rate_limit_is_booked_as_success fourthAttempt 0 4200 tooMany zeros
                {| Flights.promise := 0; Flights.key := "1.000,1.000,metric";
                   Flights.latitude := 1; Flights.longitude := 1;
                   Flights.attempt := 4; Flights.phase := Flights.Requesting |}
                s' eff res
                ltac:(vm_compute; reflexivity) eq_refl eq_refl eq_refl Hs)
      as (_ & Hf & Hr & _).
    split; assumption.
  - exfalso. vm_compute in Hs. discriminate.
Defined.

(** [resetCircuitBreaker] puts a closed breaker with zero counters in the
    place of the old one, so the next call is not refused; it lifts no
    cooldown window and empties no cache. *)
Theorem reset_lets_the_next_call_through
    (lat lon : Q) (now t : Z) (cached : option Weather.RealtimeWeatherData)
    (rnd : nat -> Q) (n : nat) (p : Tomorrow.t) :
  (forall m err,
     snd (fst (Tomorrow.enter lat lon now cached rnd n (Status.resetCircuitBreaker t p)))
       <> Tomorrow.Refused m err) /\
  Status.state (Status.circuitBreaker (Status.getApiStatus now (Status.resetCircuitBreaker t p)))
    = CircuitBreaker.CLOSED /\
  Status.isRateLimited (Status.getApiStatus now (Status.resetCircuitBreaker t p))
    = Status.isRateLimited (Status.getApiStatus now p) /\
  Status.cacheSize (Status.getApiStatus now (Status.resetCircuitBreaker t p))
    = Status.cacheSize (Status.getApiStatus now p).
Proof.
  split; [|repeat split].
  intros m err. unfold Tomorrow.enter, Status.resetCircuitBreaker.
  cbn -[Tomorrow.cacheKey Tomorrow.demoData Tomorrow.store].
  destruct (if Tomorrow.redis p then cached else None); [discriminate|].
  destruct (Tomorrow.fresh_hit _ now); [discriminate|].
  destruct (Tomorrow.inFlight p !! _); [discriminate|].
  destruct (now <? Tomorrow.rateLimitResetTime p).
  - destruct (Tomorrow.store _ _ _ _). discriminate.
  - discriminate.
Qed.

(** A call for a third place during the cooldown of [in_cooldown]. *)
Lemma call_during_cooldown_sends_nothing :
  Status.isRateLimited (Status.getApiStatus 10000 in_cooldown) = true /\
  Flights.requests (snd (Tomorrow.enter 3 3 10000 None zeros 0 in_cooldown)) = 0%nat.
Proof.
  split; [vm_compute; reflexivity|].
  destruct (Tomorrow.enter 3 3 10000 None zeros 0 in_cooldown) as [[p' e] eff] eqn:He.
  exact (proj1 (rate_limited_provider_sends_nothing 3 3 10000 None zeros 0 in_cooldown
                  p' e eff ltac:(vm_compute; reflexivity) He)).
Defined.

(** A first call and its answer leave one entry where there was none. *)
Lemma answered_call_fills_the_cache :
  exists s',
    Flights.run [firstCall; Flights.Arrive 0 1200 sunny zeros] (Flights.init provider0)
      = Some s' /\
    keeps_keys (Flights.provider (Flights.init provider0)) (Flights.provider s') /\
    (Status.cacheSize (Status.getApiStatus 1000 (Flights.provider (Flights.init provider0)))
     <= Status.cacheSize (Status.getApiStatus 1200 (Flights.provider s')))%nat.
Proof.
  destruct (Flights.run [firstCall; Flights.Arrive 0 1200 sunny zeros]
              (Flights.init provider0)) as [s'|] eqn:H.
  - exists s'. split; [reflexivity|].
    exact (cache_never_shrinks _ _ _ 1000 1200 H).
  - exfalso. vm_compute in H. discriminate.
Defined.

Lemma same_settings_refl p : same_settings p p.
Proof. repeat split. Qed.

Lemma same_settings_trans p q r : same_settings p q -> same_settings q r -> same_settings p r.
Proof. intros (A & B & C) (D & E & F). repeat split; congruence. Qed.

Lemma store_settings key v now p : same_settings p (fst (Tomorrow.store key v now p)).
Proof. repeat split. Qed.

Lemma enter_settings lat lon now cached rnd n p :
  same_settings p (fst (fst (Tomorrow.enter lat lon now cached rnd n p))).
Proof.
  unfold Tomorrow.enter.
  destruct (if Tomorrow.redis p then cached else None); [apply same_settings_refl|].
  destruct (Tomorrow.fresh_hit _ now); [apply same_settings_refl|].
  destruct (Tomorrow.inFlight p !! _); [apply same_settings_refl|].
  destruct (now <? Tomorrow.rateLimitResetTime p).
  - unfold Tomorrow.store. repeat split.
  - destruct (CircuitBreaker.pass_gate _ _ _); repeat split.
Qed.

Lemma attempt_settled_settings lat lon now reply rnd attempt p :
  same_settings p (fst (fst (Tomorrow.attempt_settled lat lon now reply rnd attempt p))).
Proof.
  unfold Tomorrow.attempt_settled, Tomorrow.store. destruct reply as [remaining body|response].
  - destruct remaining; repeat split.
  - destruct (negb _ || _); [|repeat split].
    destruct (Tomorrow.is429 _); repeat split.
Qed.

Lemma finish_settings now o p : same_settings p (fst (Tomorrow.finish now o p)).
Proof.
  unfold Tomorrow.finish. destruct (CircuitBreaker.settle _ _ _ _). repeat split.
Qed.

Lemma start_attempt_settings lat lon now attempt p :
  same_settings p (fst (fst (Tomorrow.start_attempt lat lon now attempt p))).
Proof.
  unfold Tomorrow.start_attempt. destruct (_ <=? _)%nat; [repeat split|].
  pose proof (finish_settings now (Throw Tomorrow.Exhausted) p) as H.
  destruct (Tomorrow.finish _ _ _). exact H.
Qed.

Lemma retryLoop_settings lat lon script : forall attempt p,
  same_settings p (fst (fst (Tomorrow.retryLoop lat lon attempt script p))).
Proof.
  induction script as [|tick rest IH]; intros attempt p; [apply same_settings_refl|].
  cbn [Tomorrow.retryLoop].
  pose proof (attempt_settled_settings lat lon (Tomorrow.at_ tick) (Tomorrow.reply tick)
                (Tomorrow.random tick) attempt p) as H1.
  destruct (Tomorrow.attempt_settled _ _ _ _ _ _ _) as [[p1 next] eff]. simpl in H1.
  destruct next as [o|d].
  - pose proof (finish_settings (Tomorrow.at_ tick) o p1) as H2.
    destruct (Tomorrow.finish _ _ _) as [p2 o']. simpl in *.
    eapply same_settings_trans; eassumption.
  - pose proof (start_attempt_settings lat lon (Tomorrow.at_ tick + Z.max 0 (Qfloor d))
                  (S attempt) p1) as H2.
    destruct (Tomorrow.start_attempt _ _ _ _ _) as [[p2 thrown] eff2]. simpl in H2.
    destruct thrown as [o|].
    + simpl. eapply same_settings_trans; eassumption.
    + specialize (IH (S attempt) p2).
      destruct (Tomorrow.retryLoop lat lon (S attempt) rest p2) as [[p3 r] eff3]. simpl in *.
      eapply same_settings_trans; [exact H1|].
      eapply same_settings_trans; eassumption.
Qed.

Lemma getRealtime_settings lat lon now cached rnd script p :
  same_settings p (fst (fst (Tomorrow.getRealtime lat lon now cached rnd script p))).
Proof.
  unfold Tomorrow.getRealtime.
  pose proof (enter_settings lat lon now cached rnd 0 p) as H1.
  destruct (Tomorrow.enter _ _ _ _ _ _ _) as [[p1 e] eff]. simpl in H1.
  destruct e as [v|m|m|m err]; simpl; try exact H1.
  - pose proof (retryLoop_settings lat lon script 1 p1) as H2.
    destruct (Tomorrow.retryLoop _ _ _ _ _) as [[p2 r] eff2]. simpl in H2.
    destruct r; simpl; eapply same_settings_trans; try eassumption; repeat split.
Qed.

(** Demo data outlives the cooldown.  The reading made up when the fourth
    attempt of a call is answered 429 is cached like an authentic one, for
    [cacheTtlMs]; the cooldown lasts 60 s.  A call for the same place made
    after the cooldown has ended and before the entry expires (for four
    minutes, with the default settings) is still served that reading, and
    asks nothing of upstream. *)
Theorem demo_reading_outlives_cooldown
    (lat lon : Q) (now : Z) (cached : option Weather.RealtimeWeatherData) (rnd : nat -> Q)
    (p p1 : Tomorrow.t) (n : nat) (eff : list Tomorrow.Effect)
    (t1 t2 t3 t4 : Tomorrow.Tick) (r1 r2 r3 : option Tomorrow.ErrorResponse)
    (r4 : Tomorrow.ErrorResponse)
    (now' : Z) (cached' : option Weather.RealtimeWeatherData) (rnd' : nat -> Q)
    (script' : list Tomorrow.Tick) :
  Tomorrow.enter lat lon now cached rnd 0 p = (p1, Tomorrow.Started n, eff) ->
  Tomorrow.reply t1 = Tomorrow.Rejection r1 -> retryable r1 ->
  Tomorrow.reply t2 = Tomorrow.Rejection r2 -> retryable r2 ->
  Tomorrow.reply t3 = Tomorrow.Rejection r3 -> retryable r3 ->
  Tomorrow.reply t4 = Tomorrow.Rejection (Some r4) -> Tomorrow.status r4 = 429 ->
  Tomorrow.at_ t4 + 60000 <= now' < Tomorrow.at_ t4 + Tomorrow.cacheTtlMs p ->
  (if Tomorrow.redis p then cached' else None) = None ->
  let p' := fst (fst (Tomorrow.getRealtime lat lon now cached rnd [t1; t2; t3; t4] p)) in
  Status.isRateLimited (Status.getApiStatus now' p') = false /\
  Tomorrow.getRealtime lat lon now' cached' rnd' script' p' =
    (p',
     Some (Return (Tomorrow.demoData (Tomorrow.random t4)
                     (Weather.Demo Tomorrow.rateLimitedMessage lat lon true))),
     []).
Proof.
  intros En H1 R1 H2 R2 H3 R3 H4 S4 Hnow Hredis p'.
  destruct (getRealtime_exhausted _ _ _ _ _ _ _ _ _ _ _ _ _ _ _ _ _
              En H1 R1 H2 R2 H3 R3 H4 S4) as (q & eff' & Hg & Hc & Hl & _).
  pose proof (getRealtime_settings lat lon now cached rnd [t1; t2; t3; t4] p) as (Hu & Hr & _).
  fold p' in Hu, Hr.
  assert (Hq : p' = q) by (unfold p'; rewrite Hg; reflexivity).
  rewrite <- Hq in Hc, Hl. clear Hg Hq q.
  split.
  - simpl. rewrite Hl. apply Z.ltb_ge. lia.
  - unfold Tomorrow.getRealtime, Tomorrow.enter.
    rewrite Hr, Hredis.
    rewrite (cacheKey_units p' p lat lon Hu), Hc.
    unfold Tomorrow.fresh_hit. cbn [Tomorrow.expiresAt Tomorrow.value].
    destruct (Z.ltb_spec now' (Tomorrow.at_ t4 + Tomorrow.cacheTtlMs p)); [reflexivity | lia].
Qed.

(** After the four 429 answers of [throttled], the last at 5200, the call
    made for the same place at 70000, five seconds after the cooldown has
    ended, is served the demo reading. *)
Lemma demo_reading_served_after_cooldown :
  Status.isRateLimited (Status.getApiStatus 70000 in_cooldown) = false /\
  Tomorrow.getRealtime 2 2 70000 None zeros [] in_cooldown =
    (in_cooldown,
     Some (Return (Tomorrow.demoData zeros
                     (Weather.Demo Tomorrow.rateLimitedMessage 2 2 true))),
     []).
Proof.
  assert (R : retryable (Some tooMany)) by (exists tooMany; split; [reflexivity | left; reflexivity]).
  destruct (Tomorrow.enter 2 2 2000 None zeros 0 after_sunny) as [[p1 e] eff] eqn:He.
  destruct e as [v|m|m|m err]; try (exfalso; vm_compute in He; discriminate).
  exact (demo_reading_outlives_cooldown 2 2 2000 None zeros after_sunny p1 m eff
           (answers 2100 (Tomorrow.Rejection (Some tooMany)))
           (answers 2600 (Tomorrow.Rejection (Some tooMany)))
           (answers 3500 (Tomorrow.Rejection (Some tooMany)))
           (answers 5200 (Tomorrow.Rejection (Some tooMany)))
           (Some tooMany) (Some tooMany) (Some tooMany) tooMany
           70000 None zeros []
           He eq_refl R eq_refl R eq_refl R eq_refl eq_refl
           ltac:(vm_compute; split; [intros H; discriminate | reflexivity]) eq_refl).
Defined.

(** ** Demo data and backoff delays *)

Lemma round1_bounds (lo hi : Z) (x : Q) :
  (inject_Z lo <= x * 10)%Q -> (x * 10 <= inject_Z hi)%Q ->
  (inject_Z lo <= Tomorrow.round1 x * 10)%Q /\ (Tomorrow.round1 x * 10 <= inject_Z hi)%Q.
Proof.
  intros Hlo Hhi. unfold Tomorrow.round1.
  assert (H1 : lo <= Qfloor (x * 10 + (1 # 2))).
  { rewrite <- (Qfloor_Z lo). apply Qfloor_resp_le. lra. }
  assert (H2 : Qfloor (x * 10 + (1 # 2)) <= hi).
  { assert (H : (inject_Z (Qfloor (x * 10 + (1 # 2))) < inject_Z (hi + 1))%Q).
    { eapply Qle_lt_trans; [apply Qfloor_le|]. rewrite inject_Z_plus. change (inject_Z 1) with 1%Q. lra. }
    rewrite <- Zlt_Qlt in H. lia. }
  rewrite Zle_Qle in H1, H2.
  unfold Qdiv. change (/ 10)%Q with (1 # 10)%Q. split; lra.
Qed.

(** Demo data is plausible weather: whatever [Math.random()] draws, the
    temperature is between 20 and 35 degrees, the wind between 1 and 9 m/s,
    and the precipitation is either none or between 0.2 and 6.2 mm/h. *)
Theorem demo_data_is_plausible (rnd : nat -> Q) (r : Weather.Raw) :
  unit_interval rnd ->
  exists t w pr,
    Weather.temperatureC (Tomorrow.demoData rnd r) = Some t /\
    Weather.windSpeedMps (Tomorrow.demoData rnd r) = Some w /\
    Weather.precipitationMmHr (Tomorrow.demoData rnd r) = Some pr /\
    (20 <= t)%Q /\ (t <= 35)%Q /\ (1 <= w)%Q /\ (w <= 9)%Q /\
    (pr == 0 \/ (2 # 10 <= pr)%Q /\ (pr <= 62 # 10)%Q)%Q.
Proof.
  intros U. eexists _, _, _. split; [reflexivity|]. split; [reflexivity|].
  split; [reflexivity|].
  destruct (U 0%nat) as [A0 B0]. destruct (U 1%nat) as [A1 B1].
  destruct (U 3%nat) as [A3 B3].
  destruct (round1_bounds 200 350 (20 + rnd 0%nat * 15)) as [T1 T2];
    [change (inject_Z 200) with 200%Q; lra | change (inject_Z 350) with 350%Q; lra |].
  destruct (round1_bounds 10 90 (1 + rnd 1%nat * 8)) as [W1 W2];
    [change (inject_Z 10) with 10%Q; lra | change (inject_Z 90) with 90%Q; lra |].
  destruct (round1_bounds 2 62 ((2 # 10) + rnd 3%nat * 6)) as [P1 P2];
    [change (inject_Z 2) with 2%Q; lra | change (inject_Z 62) with 62%Q; lra |].
  change (inject_Z 200) with 200%Q in T1. change (inject_Z 350) with 350%Q in T2.
  change (inject_Z 10) with 10%Q in W1. change (inject_Z 90) with 90%Q in W2.
  change (inject_Z 2) with 2%Q in P1. change (inject_Z 62) with 62%Q in P2.
  repeat split; try lra.
  destruct (Js.gt (rnd 2%nat) (1 # 2)); [right; split; lra | left; reflexivity].
Qed.

(** With the random source that always draws 0 the reading is 20 degrees,
    1 m/s and no precipitation. *)
Lemma demo_data_of_zeros :
  exists t w pr,
    Weather.temperatureC (Tomorrow.demoData zeros (Weather.Upstream None)) = Some t /\
    Weather.windSpeedMps (Tomorrow.demoData zeros (Weather.Upstream None)) = Some w /\
    Weather.precipitationMmHr (Tomorrow.demoData zeros (Weather.Upstream None)) = Some pr /\
    (20 <= t)%Q /\ (t <= 35)%Q /\ (1 <= w)%Q /\ (w <= 9)%Q /\
    (pr == 0 \/ (2 # 10 <= pr)%Q /\ (pr <= 62 # 10)%Q)%Q.
Proof.
  apply (demo_data_is_plausible zeros (Weather.Upstream None)).
  intros i. split; [apply Qle_refl | reflexivity].
Defined.

Lemma backoff_plain attempt rnd :
  unit_interval rnd ->
  (Tomorrow.backoff attempt Tomorrow.NoHeader rnd
   <= inject_Z (400 * 2 ^ (Z.of_nat attempt - 1) + 249))%Q.
Proof.
  intros U. unfold Tomorrow.backoff. rewrite <- Zle_Qle.
  destruct (U 0%nat) as [A B].
  assert (H : (inject_Z (Qfloor (rnd 0%nat * 250)) < inject_Z 250)%Q).
  { eapply Qle_lt_trans; [apply Qfloor_le|]. change (inject_Z 250) with 250%Q. lra. }
  rewrite <- Zlt_Qlt in H. lia.
Qed.

Lemma attempt_settled_finish_slept lat lon now reply rnd attempt p p1 o eff :
  Tomorrow.attempt_settled lat lon now reply rnd attempt p = (p1, Tomorrow.Finish o, eff) ->
  slept eff = 0%Q.
Proof.
  unfold Tomorrow.attempt_settled, Tomorrow.store. destruct reply as [remaining body|response].
  - intros H. injection H as _ _ <-. destruct (Tomorrow.redis _); reflexivity.
  - destruct (negb _ || _); [|discriminate].
    destruct (Tomorrow.is429 _); intros H; injection H as _ _ <-; [|reflexivity].
    destruct (Tomorrow.redis _); reflexivity.
Qed.

Lemma retryLoop_slept lat lon script : forall attempt p,
  Forall plain script ->
  (1 <= attempt <= Tomorrow.maxAttempts)%nat ->
  (slept (snd (Tomorrow.retryLoop lat lon attempt script p)) <= budget attempt)%Q.
Proof.
  induction script as [|tick rest IH]; intros attempt p Hplain Ha.
  - simpl. unfold Tomorrow.maxAttempts in Ha.
    destruct attempt as [|[|[|[|[|]]]]]; simpl; try lia; lra.
  - cbn [Tomorrow.retryLoop].
    destruct (Tomorrow.attempt_settled lat lon (Tomorrow.at_ tick) (Tomorrow.reply tick)
                (Tomorrow.random tick) attempt p) as [[p1 next] eff] eqn:Hs.
    apply List.Forall_cons_iff in Hplain. destruct Hplain as [[U Hh] Hrest].
    destruct next as [o|d].
    + pose proof (attempt_settled_finish_slept _ _ _ _ _ _ _ _ _ _ Hs) as H0.
      destruct (Tomorrow.finish (Tomorrow.at_ tick) o p1) as [p2 o']. simpl. rewrite H0.
      unfold Tomorrow.maxAttempts in Ha.
      destruct attempt as [|[|[|[|[|]]]]]; simpl; try lia; lra.
    + destruct (attempt_settled_backoff _ _ _ _ _ _ _ _ _ _ Hs)
        as (Hne & -> & -> & response & Hr & ->).
      rewrite Hr in Hh. rewrite Hh.
      pose proof (backoff_plain attempt (Tomorrow.random tick) U) as Hd.
      set (d := Tomorrow.backoff attempt Tomorrow.NoHeader (Tomorrow.random tick)) in *.
      unfold Tomorrow.start_attempt.
      assert (Hle : (S attempt <=? Tomorrow.maxAttempts)%nat = true)
        by (apply Nat.leb_le; lia).
      rewrite Hle.
      specialize (IH (S attempt) p Hrest ltac:(lia)).
      destruct (Tomorrow.retryLoop lat lon (S attempt) rest p) as [[p3 r] eff3].
      cbn [fst snd app slept fold_right] in IH |- *.
      unfold Tomorrow.maxAttempts in *.
      destruct attempt as [|[|[|[|]]]]; try lia; cbn [budget] in IH |- *.
      * change (inject_Z (400 * 2 ^ (Z.of_nat 1 - 1) + 249)) with 649%Q in Hd. lra.
      * change (inject_Z (400 * 2 ^ (Z.of_nat 2 - 1) + 249)) with 1049%Q in Hd. lra.
      * change (inject_Z (400 * 2 ^ (Z.of_nat 3 - 1) + 249)) with 1849%Q in Hd. lra.
Qed.

(** When upstream names no delay of its own, the backoff delays of one
    call add up to at most 3547 ms (400, 800 and 1600 ms and three jitters
    below 250 ms). *)
Theorem backoff_adds_at_most_3547_ms
    (lat lon : Q) (now : Z) (cached : option Weather.RealtimeWeatherData)
    (rnd : nat -> Q) (script : list Tomorrow.Tick) (p : Tomorrow.t) :
  Forall plain script ->
  (slept (snd (Tomorrow.getRealtime lat lon now cached rnd script p)) <= 3547)%Q.
Proof.
  intros Hplain. unfold Tomorrow.getRealtime.
  destruct (Tomorrow.enter lat lon now cached rnd 0 p) as [[p1 e] eff] eqn:He.
  assert (H0 : slept eff = 0%Q).
  { revert He. unfold Tomorrow.enter, Tomorrow.store.
    destruct (if Tomorrow.redis p then cached else None);
      [intros H; injection H as _ _ <-; reflexivity|].
    destruct (Tomorrow.fresh_hit _ now); [intros H; injection H as _ _ <-; reflexivity|].
    destruct (Tomorrow.inFlight p !! _); [intros H; injection H as _ _ <-; reflexivity|].
    destruct (now <? Tomorrow.rateLimitResetTime p).
    - intros H; injection H as _ _ <-. destruct (Tomorrow.redis p); reflexivity.
    - destruct (CircuitBreaker.pass_gate _ _ _); intros H; injection H as _ _ <-; reflexivity. }
  destruct e as [v|m|m|m err]; simpl; try (rewrite H0; lra).
  pose proof (retryLoop_slept lat lon script 1 p1 Hplain
                ltac:(unfold Tomorrow.maxAttempts; lia)) as Hs.
  destruct (Tomorrow.retryLoop lat lon 1 script p1) as [[p2 r] eff2]. simpl in Hs.
  assert (Happ : (slept (eff ++ eff2) == slept eff2)%Q).
  { pose proof (enter_spec _ _ _ _ _ _ _ _ _ _ He) as (_ & _ & _ & ->). reflexivity. }
  destruct r; simpl; rewrite Happ; exact Hs.
Qed.

(** Three answers 503, then a reading: 400 + 800 + 1600 ms of sleep. *)
Lemma backoff_of_three_503 :
  (slept (snd (Tomorrow.getRealtime 1 1 1000 None zeros
                 [answers 1100 (Tomorrow.Rejection (Some unavailable));
                  answers 1600 (Tomorrow.Rejection (Some unavailable));
                  answers 2500 (Tomorrow.Rejection (Some unavailable));
                  answers 4200 sunny] provider0)) <= 3547)%Q.
Proof.
  apply backoff_adds_at_most_3547_ms.
  assert (U : unit_interval zeros) by (intros i; split; [apply Qle_refl | reflexivity]).
  repeat (apply List.Forall_cons; [split; [exact U | first [reflexivity | exact I]]|]).
  apply List.Forall_nil.
Defined.

(** ** Pages and deletions of the alert store *)

Lemma chunks_concat {A} (k : nat) : forall (n : nat) (l : list A),
  (1 <= k)%nat -> (length l <= n * k)%nat ->
  concat (List.map (fun page => take k (drop ((page - 1) * k) l)) (seq 1 n)) = l.
Proof.
  induction n as [|n IH]; intros l Hk Hlen.
  - simpl in *. destruct l; [reflexivity | simpl in Hlen; lia].
  - cbn [seq List.map concat].
    rewrite <- seq_shift, List.map_map.
    rewrite (List.map_ext_in _ (fun page => take k (drop ((page - 1) * k) (drop k l)))).
    + rewrite (IH (drop k l) Hk).
      * simpl. apply take_drop.
      * rewrite length_drop. lia.
    + intros page Hin. apply in_seq in Hin.
      rewrite drop_drop. f_equal. f_equal. nia.
Qed.

#[local] Instance newer_first_transitive : Transitive Alerts.newer_first.
Proof. intros a b c. unfold Alerts.newer_first. lia. Qed.

#[local] Instance newer_first_total : Total Alerts.newer_first.
Proof. intros a b. unfold Alerts.newer_first. lia. Qed.

(** When no two rows were created at the same instant, the order of
    [listAlerts] is fixed: strictly newest first. *)
Lemma listAlerts_newest_first tbl :
  NoDup (List.map Alerts.createdAt tbl) ->
  StronglySorted (fun a b => Alerts.createdAt b < Alerts.createdAt a) (Alerts.listAlerts tbl).
Proof.
  intros Hnd.
  assert (Hnd' : NoDup (List.map Alerts.createdAt (Alerts.listAlerts tbl))).
  { assert (Hp : Permutation (List.map Alerts.createdAt (Alerts.listAlerts tbl))
                   (List.map Alerts.createdAt tbl)).
    { apply Permutation_map. unfold Alerts.listAlerts. apply merge_sort_Permutation. }
    rewrite Hp. exact Hnd. }
  assert (Hs : StronglySorted Alerts.newer_first (Alerts.listAlerts tbl)).
  { unfold Alerts.listAlerts. apply StronglySorted_merge_sort; apply _. }
  induction Hs as [|a l Hs IH Hall]; [constructor|].
  simpl in Hnd'. apply NoDup_cons in Hnd' as [Ha Hnd'].
  constructor; [apply IH, Hnd'|].
  rewrite List.Forall_forall in Hall |- *. intros b Hb.
  specialize (Hall b Hb). unfold Alerts.newer_first in Hall.
  assert (Alerts.createdAt b <> Alerts.createdAt a); [|lia].
  intros Heq. apply Ha. rewrite <- Heq. apply list_elem_of_In, in_map, Hb.
Qed.

(** The pages of the alert list partition it.  On a table no two rows of
    which were created at the same instant, the list is strictly newest
    first, and for a page size of at least one the pages 1 to [n], one after
    the other, are the whole list in its order, once [n] pages are enough to
    hold it; a page from 1 on holds at most [pageSize] rows, is empty past
    the end, and comes with the number of rows of the table as [total].
    Page 0 is refused: its [skip] is negative. *)
Theorem pages_partition_the_list (pageSize n : nat) (tbl : Alerts.Table) :
  (1 <= pageSize)%nat ->
  NoDup (List.map Alerts.createdAt tbl) ->
  (length tbl <= n * pageSize)%nat ->
  StronglySorted (fun a b => Alerts.createdAt b < Alerts.createdAt a) (Alerts.listAlerts tbl) /\
  concat (List.map (page_of pageSize tbl) (seq 1 n)) = Alerts.listAlerts tbl /\
  (forall page,
     (1 <= page)%nat ->
     exists items,
       Repository.listAlertsPaginated page pageSize tbl = Return (items, length tbl) /\
       (length items <= pageSize)%nat /\
       ((n < page)%nat -> items = [])) /\
  Repository.listAlertsPaginated 0 pageSize tbl =
    Throw (Repository.NegativeSkip (- Z.of_nat pageSize)).
Proof.
  intros Hk Hnd Hlen.
  assert (Hl : length (Alerts.listAlerts tbl) = length tbl).
  { unfold Alerts.listAlerts. apply Permutation_length, merge_sort_Permutation. }
  assert (Hpage : forall page, (1 <= page)%nat ->
            Repository.listAlertsPaginated page pageSize tbl =
              Return (take pageSize (drop ((page - 1) * pageSize) (Alerts.listAlerts tbl)),
                      length tbl)).
  { intros page Hp. unfold Repository.listAlertsPaginated.
    destruct (Z.ltb_spec ((Z.of_nat page - 1) * Z.of_nat pageSize) 0) as [H|H]; [nia|].
    replace (Z.to_nat ((Z.of_nat page - 1) * Z.of_nat pageSize))
      with ((page - 1) * pageSize)%nat by nia.
    reflexivity. }
  split; [apply listAlerts_newest_first, Hnd|]. split; [|split].
  - etransitivity; [|apply (chunks_concat pageSize n (Alerts.listAlerts tbl) Hk); lia].
    f_equal. apply List.map_ext_in. intros page Hin. apply in_seq in Hin.
    unfold page_of. rewrite Hpage by lia. reflexivity.
  - intros page Hp. eexists. split; [apply Hpage, Hp|]. split.
    + rewrite length_take. lia.
    + intros Hn. rewrite drop_ge; [apply take_nil | nia].
  - unfold Repository.listAlertsPaginated.
    destruct (Z.ltb_spec ((Z.of_nat 0 - 1) * Z.of_nat pageSize) 0) as [H|H]; [|nia].
    f_equal.
Qed.

(** Three alerts in pages of two. *)
Lemma three_alerts_in_two_pages :
  concat (List.map (page_of 2 [hotRow; rainRow; cityOnly]) (seq 1 2))
    = Alerts.listAlerts [hotRow; rainRow; cityOnly] /\
  page_of 2 [hotRow; rainRow; cityOnly] 3 = [].
Proof.
  assert (Hnd : NoDup (List.map Alerts.createdAt [hotRow; rainRow; cityOnly])).
  { repeat constructor; simpl; rewrite ?list_elem_of_In; simpl; intuition discriminate. }
  destruct (pages_partition_the_list 2 2 [hotRow; rainRow; cityOnly]
              ltac:(lia) Hnd ltac:(simpl; lia)) as (_ & H1 & H3 & _).
  split; [exact H1|].
  destruct (H3 3%nat ltac:(lia)) as (items & Hi & _ & He).
  unfold page_of. rewrite Hi. simpl. apply He. lia.
Defined.

Lemma lookup_filter_other id other tbl :
  other <> id ->
  Alerts.lookup other (List.filter (fun a => negb (Alerts.has_id id a)) tbl)
    = Alerts.lookup other tbl.
Proof.
  intros Hne. unfold Alerts.lookup.
  induction tbl as [|a tbl IH]; [reflexivity|].
  simpl. destruct (Alerts.has_id id a) eqn:Hid; simpl;
    destruct (Alerts.has_id other a) eqn:Ho; try exact IH; try reflexivity.
  - unfold Alerts.has_id in Hid, Ho.
    apply String.eqb_eq in Hid. apply String.eqb_eq in Ho. congruence.
Qed.

Lemma lookup_filter_same id tbl :
  Alerts.lookup id (List.filter (fun a => negb (Alerts.has_id id a)) tbl) = None.
Proof.
  unfold Alerts.lookup. induction tbl as [|a tbl IH]; [reflexivity|].
  simpl. destruct (Alerts.has_id id a) eqn:Hid; simpl; [exact IH|].
  rewrite Hid. exact IH.
Qed.

Lemma lookup_none_existsb id tbl :
  Alerts.lookup id tbl = None -> existsb (Alerts.has_id id) tbl = false.
Proof.
  intros H. destruct (existsb (Alerts.has_id id) tbl) eqn:He; [|reflexivity].
  apply lookup_exists in He. destruct He as [row He]. congruence.
Qed.

(** Deleting an alert removes it and nothing else: its row can no longer
    be looked up, every other row is as it was, and a second deletion, or
    the write of an evaluation that was under way, throws "record not
    found".  The deletion of an alert that is not there throws likewise,
    and [deleteAllAlerts] counts the rows it removes. *)
Theorem deleted_alert_is_gone (id : string) (tbl : Alerts.Table) :
  (Alerts.lookup id tbl <> None ->
   exists tbl',
     Repository.deleteAlert id tbl = Return tbl' /\
     Alerts.lookup id tbl' = None /\
     (forall other, other <> id -> Alerts.lookup other tbl' = Alerts.lookup other tbl) /\
     Repository.deleteAlert id tbl' = Throw (Alerts.RecordNotFound id) /\
     (forall cv tr now,
        Alerts.updateAlertAfterEvaluation id cv tr now tbl'
          = Throw (Alerts.RecordNotFound id))) /\
  (Alerts.lookup id tbl = None ->
   Repository.deleteAlert id tbl = Throw (Alerts.RecordNotFound id)) /\
  Repository.deleteAllAlerts tbl = ([], length tbl).
Proof.
  split; [|split; [|reflexivity]].
  - intros Hin. unfold Repository.deleteAlert.
    assert (He : existsb (Alerts.has_id id) tbl = true).
    { apply lookup_exists. destruct (Alerts.lookup id tbl); [eauto | congruence]. }
    rewrite He. eexists. split; [reflexivity|].
    pose proof (lookup_filter_same id tbl) as Hgone.
    split; [exact Hgone|]. split; [intros other Hne; apply lookup_filter_other, Hne|].
    split.
    + rewrite (lookup_none_existsb _ _ Hgone). reflexivity.
    + intros cv tr now. apply update_missing, Hgone.
  - intros Hout. unfold Repository.deleteAlert.
    rewrite (lookup_none_existsb _ _ Hout). reflexivity.
Qed.

(** ** Rows, evaluations and statistics *)

Lemma dated_evaluated cv tr now a : dated (Alerts.evaluated cv tr now a).
Proof. intros _. discriminate. Qed.

Lemma update_keeps_dated alertId cv tr now tbl tbl' :
  Forall dated tbl ->
  Alerts.updateAlertAfterEvaluation alertId cv tr now tbl = Return tbl' ->
  Forall dated tbl'.
Proof.
  intros Hd. unfold Alerts.updateAlertAfterEvaluation.
  destruct (existsb _ tbl); [|discriminate].
  intros H. injection H as <-.
  induction Hd as [|a tbl Ha Hd IH]; simpl; constructor; [|exact IH].
  destruct (Alerts.has_id alertId a); [apply dated_evaluated | exact Ha].
Qed.

Lemma sweep_keeps_dated {S E}
    (getRealtime : Q -> Q -> Weather.Source -> S -> S * Outcome Weather.RealtimeWeatherData E)
    alerts now : forall st tbl acc,
  Forall dated tbl ->
  Forall dated (snd (fst (Scheduled.sweep getRealtime alerts now st tbl acc))).
Proof.
  induction alerts as [|alert rest IH]; intros st tbl acc Hd; [exact Hd|].
  cbn [Scheduled.sweep].
  destruct (Alerts.latitude alert) as [lat|]; [|apply IH, Hd].
  destruct (Alerts.longitude alert) as [lon|]; [|apply IH, Hd].
  destruct (getRealtime lat lon Weather.scheduled st) as [st1 [weatherData|e]]; [|exact Hd].
  destruct (Alerts.updateAlertAfterEvaluation _ _ _ _ _) as [tbl1|e] eqn:Hu; [|exact Hd].
  apply IH. eapply update_keeps_dated; eassumption.
Qed.

Lemma allSettled_keeps_dated alerts weatherData now : forall w,
  Forall dated (EventDriven.table w) ->
  Forall dated (EventDriven.table (fst (EventDriven.allSettled alerts weatherData now w))).
Proof.
  induction alerts as [|alert rest IH]; intros w Hd; [exact Hd|].
  cbn [EventDriven.allSettled].
  destruct (EventDriven.evaluateAlertWithEvent alert weatherData now w) as [w1 r] eqn:He.
  assert (H1 : Forall dated (EventDriven.table w1)).
  { revert He. unfold EventDriven.evaluateAlertWithEvent.
    destruct (EventDriven.extractWeatherValue _ _) as [v|];
      [|intros H; injection H as <- _; exact Hd].
    destruct (Alerts.updateAlertAfterEvaluation _ _ _ _ _) as [tbl1|e] eqn:Hu;
      [|intros H; injection H as <- _; exact Hd].
    destruct (Kafka.publishAlertEvaluation _ _) as [k r'].
    intros H. injection H as <- _. simpl. eapply update_keeps_dated; eassumption. }
  specialize (IH w1 H1).
  destruct (EventDriven.allSettled rest weatherData now w1) as [w2 rs]. exact IH.
Qed.

(** Every write of an evaluation sets the state and the time together, so
    both evaluation paths keep this true of the table: a row that has a
    state has the time of an evaluation. *)
Theorem evaluations_keep_rows_dated
    (S E : Type)
    (getRealtime : Q -> Q -> Weather.Source -> S -> S * Outcome Weather.RealtimeWeatherData E)
    (now : Z) (st : S) (tbl : Alerts.Table) :
  Forall dated tbl ->
  Forall dated (snd (fst (Scheduled.execute getRealtime now st tbl))) /\
  (forall alertId, Forall dated (snd (fst (Single.execute getRealtime alertId now st tbl)))) /\
  (forall alerts weatherData k,
     Forall dated
       (EventDriven.table
          (fst (EventDriven.allSettled alerts weatherData now
                  {| EventDriven.table := tbl; EventDriven.kafka := k |})))).
Proof.
  intros Hd. split; [|split].
  - apply sweep_keeps_dated, Hd.
  - intros alertId. unfold Single.execute.
    destruct (find _ _) as [alert|]; [|exact Hd].
    destruct (Alerts.latitude alert) as [lat|]; [|exact Hd].
    destruct (Alerts.longitude alert) as [lon|]; [|exact Hd].
    destruct (getRealtime lat lon Weather.scheduled st) as [st1 [weatherData|e]]; [|exact Hd].
    destruct (Alerts.updateAlertAfterEvaluation _ _ _ _ _) as [tbl1|e] eqn:Hu; [|exact Hd].
    simpl. eapply update_keeps_dated; eassumption.
  - intros alerts weatherData k. apply allSettled_keeps_dated. exact Hd.
Qed.

(** A sweep over the heat alert and the rain alert. *)
Lemma swept_rows_are_dated :
  Forall dated (snd (fst (Scheduled.execute (steady chilly) 5000 tt [hotRow; rainRow]))).
Proof.
  apply (evaluations_keep_rows_dated unit unit (steady chilly) 5000 tt [hotRow; rainRow]).
  repeat constructor; intros H; exfalso; apply H; reflexivity.
Defined.

Lemma counts_ordered (l : list Alerts.AlertRecord) :
  Forall dated l ->
  (length (List.filter Processing.is_triggered l)
     <= length (List.filter Processing.is_active l))%nat /\
  (length (List.filter Processing.is_active l) <= length l)%nat.
Proof.
  induction 1 as [|a l Ha Hl [IH1 IH2]]; [simpl; lia|].
  assert (Ht : Processing.is_triggered a = true -> Processing.is_active a = true).
  { unfold Processing.is_triggered, Processing.is_active. unfold dated in Ha.
    destruct (Alerts.lastState a) as [[|]|]; destruct (Alerts.lastEvaluatedAt a);
      intros Hx; try reflexivity; try discriminate.
    exfalso. apply Ha; [discriminate | reflexivity]. }
  simpl.
  destruct (Processing.is_triggered a); destruct (Processing.is_active a); simpl;
    first [lia | specialize (Ht eq_refl); discriminate].
Qed.

(** The counts of [getProcessingStats] are ordered: on a table whose rows
    with a state have an evaluation time, as both evaluation paths leave
    them, no more alerts are counted triggered than active, and no more
    active than there are alerts. *)
Theorem processing_stats_are_ordered (K : Type) (kafkaStatus : K) (tbl : Alerts.Table) :
  Forall dated tbl ->
  let counts := snd (Processing.getProcessingStats kafkaStatus tbl) in
  (Processing.triggered counts <= Processing.active counts)%nat /\
  (Processing.active counts <= Processing.total counts)%nat /\
  Processing.total counts = length tbl.
Proof.
  intros Hd counts. unfold counts, Processing.getProcessingStats. simpl.
  assert (Hp : Alerts.listAlerts tbl ≡ₚ tbl) by apply merge_sort_Permutation.
  assert (Hd' : Forall dated (Alerts.listAlerts tbl)).
  { eapply Permutation_Forall; [symmetry; exact Hp | exact Hd]. }
  destruct (counts_ordered _ Hd') as [H1 H2].
  split; [exact H1|]. split; [exact H2|]. apply Permutation_length, Hp.
Qed.

(** The statistics after that sweep. *)
Lemma stats_after_a_sweep :
  let counts :=
    snd (Processing.getProcessingStats tt
           (snd (fst (Scheduled.execute (steady chilly) 5000 tt [hotRow; rainRow])))) in
  (Processing.triggered counts <= Processing.active counts)%nat /\
  (Processing.active counts <= Processing.total counts)%nat /\
  Processing.total counts = 2%nat.
Proof.
  apply (processing_stats_are_ordered unit tt
           (snd (fst (Scheduled.execute (steady chilly) 5000 tt [hotRow; rainRow])))).
  repeat constructor; intros H; discriminate.
Defined.

(** ** Evaluation of one alert *)



Lemma sweep_skips_unlocated {S E}
    (getRealtime : Q -> Q -> Weather.Source -> S -> S * Outcome Weather.RealtimeWeatherData E)
    id now alerts : forall st tbl acc,
  (forall a, In a alerts -> Alerts.id a = id ->
     Alerts.latitude a = None \/ Alerts.longitude a = None) ->
  Alerts.lookup id (snd (fst (Scheduled.sweep getRealtime alerts now st tbl acc)))
    = Alerts.lookup id tbl.
Proof.
  induction alerts as [|alert rest IH]; intros st tbl acc Hun; [reflexivity|].
  assert (Hrest : forall a, In a rest -> Alerts.id a = id ->
                    Alerts.latitude a = None \/ Alerts.longitude a = None)
    by (intros a Ha; apply Hun; right; exact Ha).
  cbn [Scheduled.sweep].
  destruct (Alerts.latitude alert) as [lat|] eqn:Hlat; [|apply IH, Hrest].
  destruct (Alerts.longitude alert) as [lon|] eqn:Hlon; [|apply IH, Hrest].
  destruct (getRealtime lat lon Weather.scheduled st) as [st1 [weatherData|e]];
    [|reflexivity].
  unfold Alerts.updateAlertAfterEvaluation.
  destruct (existsb _ tbl); [|reflexivity].
  rewrite IH by exact Hrest.
  rewrite lookup_map_evaluated.
  destruct (Alerts.lookup id tbl) as [row|] eqn:Hrow; [|reflexivity].
  assert (Hne : Alerts.has_id (Alerts.id alert) row = false).
  { unfold Alerts.has_id. apply String.eqb_neq. intros Heq.
    apply lookup_id in Hrow.
    destruct (Hun alert (or_introl eq_refl)) as [H|H]; congruence. }
  rewrite Hne. reflexivity.
Qed.

(** An alert created with a city name and no coordinates is never
    evaluated by the scheduler's use cases: a sweep leaves its row as it
    was, whatever the provider answers for the other alerts, and its
    evaluation by id answers "not triggered" without a value, without
    asking the provider and without a write. *)
Theorem unlocated_alert_is_never_evaluated
    (S E : Type)
    (getRealtime : Q -> Q -> Weather.Source -> S -> S * Outcome Weather.RealtimeWeatherData E)
    (id : string) (now : Z) (st : S) (tbl : Alerts.Table) (row : Alerts.AlertRecord) :
  unlocated id tbl ->
  Alerts.lookup id tbl = Some row ->
  Alerts.lookup id (snd (fst (Scheduled.execute getRealtime now st tbl))) = Some row /\
  Single.execute getRealtime id now st tbl =
    (st, tbl, Return {| Single.Answer.triggered := false; Single.Answer.value := None |}).
Proof.
  intros Hun Hrow. split.
  - unfold Scheduled.execute, Alerts.getAllAlerts.
    rewrite (sweep_skips_unlocated getRealtime id now tbl st tbl [] Hun). exact Hrow.
  - unfold Single.execute, Alerts.getAllAlerts.
    change (find (Alerts.has_id id) tbl) with (Alerts.lookup id tbl). rewrite Hrow.
    assert (Hin : In row tbl).
    { unfold Alerts.lookup in Hrow. apply find_some in Hrow. tauto. }
    destruct (Hun row Hin (lookup_id _ _ _ Hrow)) as [H|H]; rewrite H;
      [reflexivity | destruct (Alerts.latitude row); reflexivity].
Qed.

(** The Boston alert created by city name, in a table with the heat
    alert. *)
Lemma city_alert_is_never_evaluated :
  Alerts.lookup "alert-city"
    (snd (fst (Scheduled.execute (steady chilly) 5000 tt [hotRow; cityOnly])))
  = Some cityOnly.
Proof.
  refine (proj1 (unlocated_alert_is_never_evaluated unit unit (steady chilly) "alert-city"
                   5000 tt [hotRow; cityOnly] cityOnly _ eq_refl)).
  intros a [<-|[<-|[]]] H; [discriminate | left; reflexivity].
Defined.

(** ** The condition as the event-driven engine evaluates it *)



(** For temperature and precipitation the engine evaluates the condition
    the alert states: the alert triggers exactly when the observed value
    compares to its threshold as its operator says. *)
Theorem event_evaluation_of_temperature_and_precipitation
    (alert : EventDriven.JsAlert) (op : ComparisonOperator) (threshold v : Q) :
  EventDriven.parameter alert = "temperature" \/
  EventDriven.parameter alert = "precipitation" ->
  EventDriven.operator alert = Operator_str op ->
  EventDriven.value alert = Some threshold ->
  currentValue (EventDriven.evaluation alert v) = Some v /\
  (triggered (EventDriven.evaluation alert v) = true <-> compares op v threshold).
Proof.
  intros Hp Ho Ht. unfold EventDriven.evaluation. rewrite Ho, Ht.
  destruct Hp as [Hp|Hp]; rewrite Hp.
  - change (evaluateAlertCondition_js (Js.toUpperCase "temperature") (Operator_str op)
              (Some threshold) _)
      with (evaluateAlertCondition TEMPERATURE op threshold
              {| temperatureC := Some v; windSpeedMps := None; precipitationMmHr := None |}).
    split; [apply evaluate_present_value | apply evaluate_present]; reflexivity.
  - change (evaluateAlertCondition_js (Js.toUpperCase "precipitation") (Operator_str op)
              (Some threshold) _)
      with (evaluateAlertCondition PRECIPITATION op threshold
              {| temperatureC := None; windSpeedMps := None; precipitationMmHr := Some v |}).
    split; [apply evaluate_present_value | apply evaluate_present]; reflexivity.
Qed.

(** The rain alert at 4 mm/h. *)
Lemma rain_alert_triggers_at_4 :
  currentValue (EventDriven.evaluation rainWatch 4) = Some 4%Q /\
  (triggered (EventDriven.evaluation rainWatch 4) = true <-> compares GT 4 1).
Proof.
  exact (event_evaluation_of_temperature_and_precipitation rainWatch GT 1 4
           (or_intror eq_refl) eq_refl eq_refl).
Defined.

(** ** The publishing gateway and its stream *)

(** A reading does not depend on the event stream: the publishing gateway
    returns what the wrapped provider returns and leaves it in the same
    state, whether the producer is connected or not and whatever the broker
    answers; a disconnected stream is left as it was, and a connected one
    gets one event when the reading was obtained and the broker
    acknowledged the send, and none when the send was rejected or the
    provider threw.  The readings of a batch do not depend on the stream
    either. *)
Theorem reading_does_not_depend_on_the_stream
    (S E : Type) (inner : Q -> Q -> S -> S * Outcome Weather.RealtimeWeatherData E)
    (latitude longitude : Q) (source : option Weather.Source) (now : Z) (st : S)
    (k : Kafka.t) :
  (fst (fst (EventDrivenProvider.getRealtime inner latitude longitude source now st k)),
   snd (EventDrivenProvider.getRealtime inner latitude longitude source now st k))
    = inner latitude longitude st /\
  (Kafka.isConnected k = false ->
   snd (fst (EventDrivenProvider.getRealtime inner latitude longitude source now st k)) = k) /\
  (Kafka.isConnected k = true ->
   Kafka.weatherUpdates
     (snd (fst (EventDrivenProvider.getRealtime inner latitude longitude source now st k)))
   = Kafka.weatherUpdates k ++
     match snd (inner latitude longitude st) with
     | Return weatherData =>
         if Kafka.acknowledged k (Kafka.sends k)
         then [EventDrivenProvider.weatherEvent latitude longitude
                 (Js.nullish source Weather.api) now weatherData]
         else []
     | Throw _ => []
     end) /\
  (forall locations k',
     snd (EventDrivenProvider.getRealtimeBatch inner locations source now st k)
     = snd (EventDrivenProvider.getRealtimeBatch inner locations source now st k')).
Proof.
  unfold EventDrivenProvider.getRealtime, EventDrivenProvider.getRealtimeBatch.
  destruct (inner latitude longitude st) as [st' [weatherData|e]]; cbn [fst snd].
  - split; [reflexivity|].
    split; [intros Hc; unfold Kafka.publishWeatherUpdate; rewrite Hc; reflexivity|].
    split; [intros Hc; apply (publishWeatherUpdate_connected _ k Hc)|].
    intros locations k'.
    destruct (EventDrivenProvider.fetchBatch inner locations _ now st ∅ [])
      as [[st2 results] ev].
    reflexivity.
  - split; [reflexivity|]. split; [reflexivity|].
    split; [intros _; rewrite app_nil_r; reflexivity|].
    intros locations k'.
    destruct (EventDrivenProvider.fetchBatch inner locations _ now st ∅ [])
      as [[st2 results] ev].
    reflexivity.
Qed.

Lemma key_eq latitude longitude latitude' longitude' :
  EventDrivenProvider.key latitude longitude = EventDrivenProvider.key latitude' longitude' <->
  (latitude == latitude')%Q /\ (longitude == longitude')%Q.
Proof.
  unfold EventDrivenProvider.key. split.
  - intros H. injection H as H1 H2 H3 H4.
    assert (Qred latitude = Qred latitude') as Ha
      by (destruct (Qred latitude), (Qred latitude'); simpl in *; congruence).
    assert (Qred longitude = Qred longitude') as Ho
      by (destruct (Qred longitude), (Qred longitude'); simpl in *; congruence).
    split.
    + rewrite <- (Qred_correct latitude), <- (Qred_correct latitude'), Ha. reflexivity.
    + rewrite <- (Qred_correct longitude), <- (Qred_correct longitude'), Ho. reflexivity.
  - intros [H1 H2]. rewrite (Qred_complete _ _ H1), (Qred_complete _ _ H2). reflexivity.
Qed.

(** The [results] of a batch under a key: the reading the provider answers
    for the key if a location of the batch has it, what was there
    otherwise. *)
Lemma fetchBatch_results {S E}
    (inner : Q -> Q -> S -> S * Outcome Weather.RealtimeWeatherData E)
    (answer : EventDrivenProvider.Key -> Outcome Weather.RealtimeWeatherData E)
    source now key locations :
  (forall latitude longitude st,
     snd (inner latitude longitude st) = answer (EventDrivenProvider.key latitude longitude)) ->
  forall st results events,
    snd (fst (EventDrivenProvider.fetchBatch inner locations source now st results events))
      !! key =
    match answer key with
    | Return weatherData =>
        if existsb (fun l => bool_decide (EventDrivenProvider.key (fst l) (snd l) = key))
             locations
        then Some weatherData else results !! key
    | Throw _ => results !! key
    end.
Proof.
  intros Hans. induction locations as [|[la lo] rest IH]; intros st results events.
  - simpl. destruct (answer key); reflexivity.
  - cbn [EventDrivenProvider.fetchBatch existsb fst snd].
    pose proof (Hans la lo st) as Ha.
    destruct (inner la lo st) as [st1 r]. simpl in Ha. subst r.
    destruct (bool_decide_reflect (EventDrivenProvider.key la lo = key)) as [Hk|Hk].
    + subst key. destruct (answer (EventDrivenProvider.key la lo)) as [w|e] eqn:Hw.
      * rewrite IH, lookup_insert_eq. simpl.
        destruct (existsb _ rest); reflexivity.
      * rewrite IH. reflexivity.
    + destruct (answer (EventDrivenProvider.key la lo)) as [w|e] eqn:Hw.
      * rewrite IH, lookup_insert_ne by exact Hk. reflexivity.
      * rewrite IH. reflexivity.
Qed.

(** A batch returns the readings of exactly the locations whose fetch
    succeeded: when what the wrapped provider answers depends on the
    location only, the results hold a reading under the key of a location
    if and only if the location was asked for and the provider answered it
    with that reading; a location whose fetch throws costs the others
    nothing. *)
Theorem batch_returns_what_succeeded
    (S E : Type) (inner : Q -> Q -> S -> S * Outcome Weather.RealtimeWeatherData E)
    (answer : EventDrivenProvider.Key -> Outcome Weather.RealtimeWeatherData E)
    (locations : list (Q * Q)) (source : option Weather.Source) (now : Z) (st : S)
    (k : Kafka.t) :
  (forall latitude longitude st,
     snd (inner latitude longitude st) = answer (EventDrivenProvider.key latitude longitude)) ->
  forall latitude longitude weatherData,
    snd (EventDrivenProvider.getRealtimeBatch inner locations source now st k)
      !! EventDrivenProvider.key latitude longitude = Some weatherData <->
    (exists lat lon,
       In (lat, lon) locations /\ (lat == latitude)%Q /\ (lon == longitude)%Q) /\
    answer (EventDrivenProvider.key latitude longitude) = Return weatherData.
Proof.
  intros Hans latitude longitude weatherData.
  unfold EventDrivenProvider.getRealtimeBatch.
  pose proof (fetchBatch_results inner answer (Js.nullish source Weather.scheduled) now
                (EventDrivenProvider.key latitude longitude) locations Hans st ∅ []) as H.
  destruct (EventDrivenProvider.fetchBatch inner locations _ now st ∅ [])
    as [[st2 results] ev].
  cbn [fst snd] in *. rewrite H, lookup_empty. clear H.
  destruct (answer (EventDrivenProvider.key latitude longitude)) as [w|e].
  - destruct (existsb _ locations) eqn:Hex.
    + apply existsb_exists in Hex. destruct Hex as ([lat lon] & Hin & Hk).
      apply bool_decide_eq_true in Hk. simpl in Hk. apply key_eq in Hk.
      split.
      * intros [= ->]. split; [|reflexivity]. exists lat, lon. tauto.
      * intros [_ [= ->]]. reflexivity.
    + split; [discriminate|]. intros [(lat & lon & Hin & H1 & H2) _]. exfalso.
      assert (existsb (fun l => bool_decide
                (EventDrivenProvider.key (fst l) (snd l) =
                 EventDrivenProvider.key latitude longitude)) locations = true);
        [|congruence].
      apply existsb_exists. exists (lat, lon). split; [exact Hin|].
      apply bool_decide_eq_true. simpl. apply key_eq. tauto.
  - split; [discriminate | intros [_ H]; discriminate].
Qed.

(** Boston and a place in the south: Boston's reading is returned. *)
Lemma batch_with_a_failing_location :
  snd (EventDrivenProvider.getRealtimeBatch northern
         [(- 3390 # 100, 1820 # 100); (4236 # 100, - 7106 # 100)] None 5000 tt
         (Kafka.empty false))
    !! EventDrivenProvider.key (4236 # 100) (- 7106 # 100) = Some chilly.
Proof.
  apply (batch_returns_what_succeeded unit unit northern hemisphere
           [(- 3390 # 100, 1820 # 100); (4236 # 100, - 7106 # 100)] None 5000 tt
           (Kafka.empty false)).
  - intros latitude longitude st. reflexivity.
  - split; [|reflexivity].
    exists (4236 # 100)%Q, (- 7106 # 100)%Q.
    split; [right; left; reflexivity | split; reflexivity].
Defined.

(** ** Live updates and the alert matcher *)

(** The test of the live updates is the stricter of the two notions of "at
    this place".  A client that watches the place of an alert is told of an
    observation only if the alert is among those the engine finds for the
    observation, and is told of it when both coordinates differ from the
    alert's by at most the double below 0.01.  Where a coordinate of the
    observation differs from the alert's by the double 0.01 exactly, and the
    other by no more, the alert is matched and the client is not told. *)
Theorem watched_place_and_matched_alert
    (a : Alerts.AlertRecord) (la lo : Q) (tbl : Alerts.Table)
    (weatherData : Kafka.WeatherEventData) :
  In a tbl ->
  Alerts.latitude a = Some la -> Alerts.longitude a = Some lo ->
  (Sockets.isClientInterestedInWeather (watching la lo) weatherData = true ->
   In a (EventDriven.findAlertsForLocation (Kafka.latitude weatherData)
           (Kafka.longitude weatherData) EventDriven.proximity tbl)) /\
  ((Qabs (la - Kafka.latitude weatherData) <= below_hundredth)%Q ->
   (Qabs (lo - Kafka.longitude weatherData) <= below_hundredth)%Q ->
   Sockets.isClientInterestedInWeather (watching la lo) weatherData = true) /\
  ((Qabs (la - Kafka.latitude weatherData) == Double.hundredth)%Q ->
   (Qabs (lo - Kafka.longitude weatherData) <= Double.hundredth)%Q ->
   In a (EventDriven.findAlertsForLocation (Kafka.latitude weatherData)
           (Kafka.longitude weatherData) EventDriven.proximity tbl) /\
   Sockets.isClientInterestedInWeather (watching la lo) weatherData = false).
Proof.
  intros Hin Hla Hlo.
  destruct hundredth_is_double as (Hd & _ & Hbelow).
  assert (Hzero : forall (x y : Q), (Js.or_zero (Some x) - y == x - y)%Q).
  { intros x y. rewrite Js_or_zero_eq. reflexivity. }
  assert (Hsame : forall x y,
            Double.abs (Double.sub (Js.or_zero (Some x)) y) = Double.abs (Double.sub x y)).
  { intros x y. unfold Double.sub, Double.of_exact.
    rewrite (round_eq _ _ (Hzero x y)). reflexivity. }
  split; [|split].
  - intros H. unfold Sockets.isClientInterestedInWeather, watching in H. simpl in H.
    rewrite orb_false_r in H. apply andb_true_iff in H. destruct H as [H1 H2].
    unfold EventDriven.findAlertsForLocation.
    apply List.filter_In. split; [apply listAlerts_In, Hin|].
    unfold EventDriven.near, EventDriven.proximity. cbv zeta. rewrite Hla, Hlo.
    rewrite !Hsame. apply andb_true_iff. split; apply lt_le; assumption.
  - intros H1 H2. unfold Sockets.isClientInterestedInWeather, watching. simpl.
    rewrite orb_false_r. apply andb_true_iff.
    split; apply (lt_abs_sub_true _ _ _ below_hundredth Hbelow);
      try assumption; vm_compute; reflexivity.
  - intros Heq Hle. split.
    + unfold EventDriven.findAlertsForLocation.
      apply List.filter_In. split; [apply listAlerts_In, Hin|].
      unfold EventDriven.near, EventDriven.proximity. cbv zeta. rewrite Hla, Hlo.
      rewrite !Hsame. apply andb_true_iff.
      split; apply le_abs_sub_true; try exact Hd; [rewrite Heq; apply Qle_refl | exact Hle].
    + unfold Sockets.isClientInterestedInWeather, watching. simpl. rewrite orb_false_r.
      apply andb_false_iff. left. apply lt_abs_sub_false; [exact Hd|].
      rewrite Heq. apply Qle_refl.
Qed.

(** An observation on the equator, 0.01 degrees south of the alert in the
    Gulf of Guinea: the alert is matched, and a client that watches the
    alert's place is not told. *)
Lemma observation_at_the_boundary :
  let weatherData :=
    {| Kafka.latitude := 0; Kafka.longitude := 0;
       Kafka.temperatureC := Some 27%Q; Kafka.windSpeedMps := Some 12%Q;
       Kafka.precipitationMmHr := Some 0%Q; Kafka.timestamp := 4000;
       Kafka.source := Weather.api |} in
  In equatorRow (EventDriven.findAlertsForLocation 0 0 EventDriven.proximity [equatorRow]) /\
  Sockets.isClientInterestedInWeather (watching Double.hundredth 0) weatherData = false.
Proof.
  intros weatherData.
  apply (proj2 (proj2 (watched_place_and_matched_alert equatorRow Double.hundredth 0
                         [equatorRow] weatherData (or_introl eq_refl) eq_refl eq_refl))).
  - vm_compute. reflexivity.
  - vm_compute. intros H; discriminate.
Defined.

(** ** The providers of the server *)

Lemma handle_mode request srv :
  Server.useSimpleMode (fst (Server.handle request srv)) = Server.useSimpleMode srv.
Proof.
  destruct request as [now|now|latitude longitude visit answered]; simpl; try reflexivity.
  destruct (Server.useSimpleMode srv) eqn:Hm.
  - destruct (Server.inner _ _ _) as [st r]. reflexivity.
  - destruct (EventDrivenProvider.getRealtime _ _ _ _ _ _ _) as [[st k] r]. reflexivity.
Qed.

(** In the default mode the health report and the reset act on a provider
    that serves no request.  The server constructs two providers; the
    weather route uses the one inside the publishing gateway, while
    [GET /health] reads and [POST /dev/reset-circuit-breaker] resets the
    other.  Whatever the requests, the provider behind [/health] keeps its
    cache, its cooldown window and its count of remaining calls as they were
    at the start, and the provider that serves ends as it would have
    without the resets: its breaker cannot be reset through the endpoint. *)
Theorem health_reports_on_an_idle_provider
    (requests : list Server.Request) (srv : Server.t) :
  Server.useSimpleMode srv = false ->
  let srv' := fst (Server.serve requests srv) in
  (forall now,
     Status.isRateLimited (health now srv') = Status.isRateLimited (health now srv) /\
     Status.rateLimitResetTime (health now srv') = Status.rateLimitResetTime (health now srv) /\
     Status.remainingCalls (health now srv') = Status.remainingCalls (health now srv) /\
     Status.cacheSize (health now srv') = Status.cacheSize (health now srv)) /\
  Server.eventDrivenWeatherProvider srv' =
    Server.eventDrivenWeatherProvider
      (fst (Server.serve (List.filter is_realtime requests) srv)).
Proof.
  revert srv.
  assert (G : forall requests srv,
            Server.useSimpleMode srv = false ->
            Tomorrow.cache (Server.weatherProvider (fst (Server.serve requests srv)))
              = Tomorrow.cache (Server.weatherProvider srv) /\
            Tomorrow.rateLimitResetTime (Server.weatherProvider (fst (Server.serve requests srv)))
              = Tomorrow.rateLimitResetTime (Server.weatherProvider srv) /\
            Tomorrow.remainingCalls (Server.weatherProvider (fst (Server.serve requests srv)))
              = Tomorrow.remainingCalls (Server.weatherProvider srv) /\
            forall srv2,
              Server.useSimpleMode srv2 = false ->
              Server.eventDrivenWeatherProvider srv2 = Server.eventDrivenWeatherProvider srv ->
              Server.kafkaService srv2 = Server.kafkaService srv ->
              Server.eventDrivenWeatherProvider (fst (Server.serve requests srv))
                = Server.eventDrivenWeatherProvider
                    (fst (Server.serve (List.filter is_realtime requests) srv2))).
  { clear requests. induction requests as [|request rest IH]; intros srv Hm.
    - simpl. repeat split. intros srv2 _ H _. symmetry. exact H.
    - cbn [Server.serve].
      pose proof (handle_mode request srv) as Hm1. rewrite Hm in Hm1.
      destruct (Server.handle request srv) as [srv1 response] eqn:Hh. simpl in Hm1.
      specialize (IH srv1 Hm1).
      destruct (Server.serve rest srv1) as [srv3 responses] eqn:Hs. simpl in IH |- *.
      destruct IH as (Ic & Ir & In_ & Ie).
      destruct request as [now|now|latitude longitude visit answered]; simpl in Hh.
      + injection Hh as <- _. repeat split; try assumption;
          try (intros srv2 H2 He Hk; simpl; apply Ie; assumption).
      + injection Hh as <- _. simpl in *. repeat split; try assumption;
          try (intros srv2 H2 He Hk; apply Ie; assumption).
      + rewrite Hm in Hh.
        destruct (EventDrivenProvider.getRealtime _ _ _ _ _ _ _) as [[st k] r] eqn:Hg.
        injection Hh as <- _. simpl in *. repeat split; try assumption.
        intros srv2 H2 He Hk. cbn [List.filter is_realtime Server.serve Server.handle].
        rewrite H2, He, Hk, Hg.
        match goal with
        | |- context [Server.serve _ ?s] =>
            pose proof (Ie s eq_refl eq_refl eq_refl) as Hx;
            destruct (Server.serve (List.filter is_realtime rest) s) as [srv4 responses4]
        end.
        exact Hx. }
  intros srv Hm srv'. subst srv'. destruct (G requests srv Hm) as (Hc & Hr & Hn & He).
  split.
  - intros now. unfold health, Status.getApiStatus. simpl.
    rewrite Hc, Hr, Hn. repeat split.
  - apply He; [exact Hm | reflexivity | reflexivity].
Qed.

(** A request fills the cache of the serving provider; the health report
    still shows an empty cache. *)
Lemma health_after_a_served_request :
  Status.cacheSize
    (health 2000
       (fst (Server.serve [Server.Realtime 1 1 (visit 1000 [answers 1200 sunny]) 1200] server0)))
  = Status.cacheSize (health 2000 server0).
Proof.
  destruct (health_reports_on_an_idle_provider
              [Server.Realtime 1 1 (visit 1000 [answers 1200 sunny]) 1200] server0 eq_refl)
    as [H _].
  exact (proj2 (proj2 (proj2 (H 2000)))).
Defined.

(** ** The token bucket *)

Lemma min_le_l a b : (Patterns.min a b <= a)%Q.
Proof.
  unfold Patterns.min. destruct (Qle_bool a b) eqn:H; [apply Qle_refl|].
  apply Qnot_lt_le. intros Hlt. apply Qlt_le_weak in Hlt.
  apply Qle_bool_iff in Hlt. congruence.
Qed.

Lemma min_glb a b c : (c <= a)%Q -> (c <= b)%Q -> (c <= Patterns.min a b)%Q.
Proof. intros Ha Hb. unfold Patterns.min. destruct (Qle_bool a b); assumption. Qed.

Lemma tokensToAdd_nonneg timePassed rate :
  0 <= timePassed -> (0 <= rate)%Q ->
  0 <= Qfloor (Double.round (Double.round (inject_Z timePassed / 1000) * rate)).
Proof.
  intros Ht Hr. rewrite <- (Qfloor_Z 0). apply Qfloor_resp_le.
  change (inject_Z 0) with 0%Q.
  apply round_nonneg. apply Qmult_le_0_compat; [|exact Hr].
  apply round_nonneg. unfold Qdiv. apply Qmult_le_0_compat; [|discriminate].
  change 0%Q with (inject_Z 0). rewrite <- Zle_Qle. exact Ht.
Qed.

(** The token bucket keeps its bounds.  While the clock does not go back,
    a request for a non-negative number of tokens and a firing of the refill
    timer leave every bucket of the limiter with between 0 tokens and the
    capacity; a request is allowed exactly when the bucket of its key, full
    if the key is new, holds the tokens asked for. *)
Theorem token_bucket_keeps_its_bounds
    (l : Patterns.TokenBucketRateLimiter) (now now' : Z) (key : string) (n : Q) :
  within now l ->
  now <= now' ->
  (0 <= n)%Q ->
  (0 <= Patterns.capacity l)%Q ->
  (0 <= Patterns.refillRate l)%Q ->
  within now' (fst (Patterns.isAllowed key n now' l)) /\
  within now' (Patterns.refillBuckets now' l) /\
  (snd (Patterns.isAllowed key n now' l) = true <->
   (n <= Patterns.getRemainingTokens key l)%Q).
Proof.
  intros Hw Hnow Hn Hcap Hrate. split; [|split].
  - unfold Patterns.isAllowed.
    set (bucket := match Patterns.buckets l !! key with
                   | Some b => b
                   | None => Patterns.newTokenBucket (Patterns.capacity l) now'
                   end).
    assert (Hb : (0 <= Patterns.tokens bucket)%Q /\
                 (Patterns.tokens bucket <= Patterns.capacity l)%Q /\
                 Patterns.lastRefill bucket <= now').
    { unfold bucket. destruct (Patterns.buckets l !! key) as [b|] eqn:Hk.
      - destruct (Hw key b Hk) as (H1 & H2 & H3). repeat split; try assumption. lia.
      - simpl. repeat split; [exact Hcap | apply Qle_refl | lia]. }
    destruct Hb as (H1 & H2 & H3).
    unfold Patterns.consume. destruct (Js.ge (Patterns.tokens bucket) n) eqn:Hge; simpl.
    + intros k b Hk. simpl in Hk.
      destruct (decide (key = k)) as [->|Hne].
      * rewrite lookup_insert_eq in Hk. injection Hk as <-. simpl.
        apply Js_le_spec in Hge. repeat split; [lra | lra | exact H3].
      * rewrite lookup_insert_ne in Hk by exact Hne.
        destruct (Hw k b Hk) as (A & B & C). repeat split; try assumption. lia.
    + intros k b Hk. simpl in Hk.
      destruct (decide (key = k)) as [->|Hne].
      * rewrite lookup_insert_eq in Hk. injection Hk as <-. repeat split; assumption.
      * rewrite lookup_insert_ne in Hk by exact Hne.
        destruct (Hw k b Hk) as (A & B & C). repeat split; try assumption. lia.
  - intros k b Hk. unfold Patterns.refillBuckets in Hk. simpl in Hk.
    rewrite lookup_fmap in Hk.
    destruct (Patterns.buckets l !! k) as [b0|] eqn:Hk0; [|discriminate].
    simpl in Hk. injection Hk as <-.
    destruct (Hw k b0 Hk0) as (A & B & C).
    unfold Patterns.refill. cbn [Patterns.tokens Patterns.lastRefill Patterns.capacity
                                   Patterns.set_buckets].
    repeat split; [|apply min_le_l | lia].
    apply min_glb; [exact Hcap|].
    pose proof (tokensToAdd_nonneg (now' - Patterns.lastRefill b0) (Patterns.refillRate l)
                  ltac:(lia) Hrate) as Hadd.
    rewrite Zle_Qle in Hadd. change (inject_Z 0) with 0%Q in Hadd. lra.
  - unfold Patterns.isAllowed, Patterns.getRemainingTokens, Patterns.consume.
    destruct (Patterns.buckets l !! key) as [b|]; simpl.
    + destruct (Js.ge (Patterns.tokens b) n) eqn:Hge; simpl.
      * apply Js_le_spec in Hge. tauto.
      * split; [discriminate|]. intros H. apply Js_le_spec in H.
        unfold Js.ge in Hge. congruence.
    + destruct (Js.ge (Patterns.capacity l) n) eqn:Hge; simpl.
      * apply Js_le_spec in Hge. tauto.
      * split; [discriminate|]. intros H. apply Js_le_spec in H.
        unfold Js.ge in Hge. congruence.
Qed.

(** The limiter of the defaults (ten tokens, one a second), new: a first
    request takes one token of ten. *)
Lemma first_request_is_allowed :
  let l := {| Patterns.buckets := ∅; Patterns.capacity := 10; Patterns.refillRate := 1;
              Patterns.refillInterval := 1000 |} in
  snd (Patterns.isAllowed "client" 1 500 l) = true <->
  (1 <= Patterns.getRemainingTokens "client" l)%Q.
Proof.
  intros l.
  refine (proj2 (proj2 (token_bucket_keeps_its_bounds l 0 500 "client" 1 _ _ _ _ _)));
    first [lia | intros H; discriminate].
Defined.

(** Sooner than a token takes to accrue, by one part in a thousand, the
    rounded product is below 1. *)
Lemma tokensToAdd_hasty timePassed rate :
  0 <= timePassed -> (0 <= rate)%Q -> (inject_Z timePassed * rate <= 999)%Q ->
  Qfloor (Double.round (Double.round (inject_Z timePassed / 1000) * rate)) = 0.
Proof.
  intros Ht Hr Hh.
  pose proof (tokensToAdd_nonneg timePassed rate Ht Hr) as Hlo.
  assert (Hhi : (Double.round (Double.round (inject_Z timePassed / 1000) * rate) < 1)%Q).
  { destruct (Z.eq_dec timePassed 0) as [->|Hne].
    - rewrite (round_eq (inject_Z 0 / 1000) 0) by reflexivity.
      rewrite (round_eq (Double.round 0 * rate) 0) by (change (Double.round 0) with 0%Q; lra).
      reflexivity.
    - assert (H1 : (1 <= inject_Z timePassed)%Q).
      { change 1%Q with (inject_Z 1). rewrite <- Zle_Qle. lia. }
      assert (Hsmall : (Double.pow2 (- 1022) <= inject_Z timePassed / 1000)%Q).
      { apply Qle_trans with (Double.pow2 (- 10)); [apply pow2_le; lia|].
        assert (Double.pow2 (- 10) == 1 # 1024)%Q as -> by reflexivity.
        unfold Qdiv. change (/ 1000)%Q with (1 # 1000)%Q. lra. }
      pose proof (round_upper _ Hsmall) as Hq.
      assert (Double.pow2 (- 53) == 1 # 9007199254740992)%Q as Hc by reflexivity.
      rewrite Hc in Hq.
      apply (Qmult_le_compat_r _ _ rate) in Hq; [|exact Hr].
      assert (Hp : (Double.round (inject_Z timePassed / 1000) * rate <= 1023 # 1024)%Q).
      { eapply Qle_trans; [exact Hq|].
        assert (Heq : (inject_Z timePassed / 1000 * (1 + (1 # 9007199254740992)) * rate
                       == inject_Z timePassed * rate
                          * ((1 + (1 # 9007199254740992)) / 1000))%Q) by field.
        rewrite Heq. set (p := (inject_Z timePassed * rate)%Q) in *.
        unfold Qdiv. change (/ 1000)%Q with (1 # 1000)%Q.
        assert (0 <= p)%Q by (apply Qmult_le_0_compat; lra). lra. }
      apply round_mono in Hp.
      assert (Double.round (1023 # 1024) == 1023 # 1024)%Q as Hr' by (vm_compute; reflexivity).
      rewrite Hr' in Hp. lra. }
  assert (Hf : (inject_Z (Qfloor (Double.round (Double.round (inject_Z timePassed / 1000) * rate)))
                < inject_Z 1)%Q).
  { eapply Qle_lt_trans; [apply Qfloor_le|]. exact Hhi. }
  rewrite <- Zlt_Qlt in Hf. lia.
Qed.

Lemma refill_hasty rate capacity now b :
  (0 <= rate)%Q ->
  (Patterns.tokens b <= capacity)%Q ->
  Patterns.lastRefill b <= now ->
  (inject_Z (now - Patterns.lastRefill b) * rate <= 999)%Q ->
  (Patterns.tokens (Patterns.refill rate capacity now b) == Patterns.tokens b)%Q /\
  Patterns.lastRefill (Patterns.refill rate capacity now b) = now.
Proof.
  intros Hr Hc Hl Hh. split; [|reflexivity].
  unfold Patterns.refill. cbn [Patterns.tokens].
  rewrite (tokensToAdd_hasty (now - Patterns.lastRefill b) rate ltac:(lia) Hr Hh).
  change (inject_Z 0) with 0%Q.
  unfold Patterns.min. destruct (Qle_bool capacity (Patterns.tokens b + 0)) eqn:Hle.
  - apply Qle_bool_iff in Hle. apply Qle_antisym; lra.
  - lra.
Qed.

(** A refill that comes too soon adds nothing and still restarts the
    clock.  [refill] adds the whole tokens earned since the last refill and
    forgets the fraction; when every firing of the timer comes sooner than a
    token takes to accrue, by one part in a thousand at least (the
    milliseconds elapsed times the rate are at most 999), no firing adds a
    token, however many there are: a limiter whose refill interval is that
    short never gives a token back.  The margin keeps the statement clear
    of products within a rounding error of a whole token, which the doubles
    of the source may floor either way. *)
Theorem hasty_refills_add_nothing
    (rate capacity : Q) (times : list Z) (b : Patterns.TokenBucket) :
  (0 <= rate)%Q ->
  (Patterns.tokens b <= capacity)%Q ->
  hasty rate (Patterns.lastRefill b) times ->
  (Patterns.tokens (refills rate capacity times b) == Patterns.tokens b)%Q.
Proof.
  intros Hr. revert b. unfold refills.
  induction times as [|now rest IH]; intros b Hc Hh; [reflexivity|].
  simpl in Hh |- *. destruct Hh as (Hl & Hlt & Hrest).
  destruct (refill_hasty rate capacity now b Hr Hc Hl Hlt) as [Ht Hn].
  rewrite IH.
  - exact Ht.
  - rewrite Ht. exact Hc.
  - rewrite Hn. exact Hrest.
Qed.

(** A bucket emptied at time 0 and refilled every half second at one
    token a second is still empty after two seconds. *)
Lemma half_second_refills_add_nothing :
  (Patterns.tokens
     (refills 1 10 [500; 1000; 1500; 2000]%Z
        {| Patterns.tokens := 0; Patterns.lastRefill := 0%Z |})
   == 0)%Q.
Proof.
  apply (hasty_refills_add_nothing 1 10 [500; 1000; 1500; 2000]
           {| Patterns.tokens := 0; Patterns.lastRefill := 0 |}).
  - intros H; discriminate.
  - intros H; discriminate.
  - simpl. repeat split; try lia; intros H; discriminate.
Defined.

(** Without the margin a refill may add a token that has not accrued: at
    the rate the double nearest to 4/3, three quarters of a second earn
    less than a token, and the product rounds to 1. *)
Lemma rounded_product_adds_a_token :
  (inject_Z 750 * Double.round (4 # 3) < 1000)%Q /\
  (Patterns.tokens
     (Patterns.refill (Double.round (4 # 3)) 10 750
        {| Patterns.tokens := 0; Patterns.lastRefill := 0 |}) == 1)%Q.
Proof. split; vm_compute; reflexivity. Qed.

(** ** The adaptive client *)

Lemma min_cases a b :
  ((a <= b)%Q /\ Patterns.min a b = a) \/ ((b < a)%Q /\ Patterns.min a b = b).
Proof.
  unfold Patterns.min. destruct (Qle_bool a b) eqn:H.
  - left. split; [apply Qle_bool_iff, H | reflexivity].
  - right. split; [|reflexivity]. apply Qnot_le_lt. intros Hle.
    apply Qle_bool_iff in Hle. congruence.
Qed.

Lemma max_cases a b :
  ((a <= b)%Q /\ Patterns.max a b = b) \/ ((b < a)%Q /\ Patterns.max a b = a).
Proof.
  unfold Patterns.max. destruct (Qle_bool a b) eqn:H.
  - left. split; [apply Qle_bool_iff, H | reflexivity].
  - right. split; [|reflexivity]. apply Qnot_le_lt. intros Hle.
    apply Qle_bool_iff in Hle. congruence.
Qed.

Lemma record_keeps_multiplier c r :
  (Patterns.backoffMultiplier c == 1 \/ Patterns.backoffMultiplier c == 2 \/
   Patterns.backoffMultiplier c == 4 \/ Patterns.backoffMultiplier c == 8)%Q ->
  (Patterns.backoffMultiplier (record c r) == 1 \/
   Patterns.backoffMultiplier (record c r) == 2 \/
   Patterns.backoffMultiplier (record c r) == 4 \/
   Patterns.backoffMultiplier (record c r) == 8)%Q.
Proof.
  intros H. destruct r as [endpoint timeMs|endpoint]; simpl.
  - destruct (max_cases 1 (Patterns.backoffMultiplier c * (1 # 2))) as [[Hle ->]|[Hlt ->]];
      destruct H as [H|[H|[H|H]]]; rewrite H in *; lra.
  - destruct (2 <=? _); [|exact H].
    unfold Patterns.maxBackoffMultiplier.
    destruct (min_cases (Patterns.backoffMultiplier c * 2) 8) as [[Hle ->]|[Hlt ->]];
      destruct H as [H|[H|[H|H]]]; rewrite H in *; lra.
Qed.

Lemma record_keeps_samples c r :
  (forall endpoint times, Patterns.responseTimesMs c !! endpoint = Some times ->
     (length times <= Patterns.maxResponseTimes)%nat) ->
  forall endpoint times, Patterns.responseTimesMs (record c r) !! endpoint = Some times ->
    (length times <= Patterns.maxResponseTimes)%nat.
Proof.
  intros H endpoint times. destruct r as [e timeMs|e]; simpl; [|apply H].
  destruct (decide (e = endpoint)) as [->|Hne].
  - rewrite lookup_insert_eq. intros Heq. injection Heq as <-.
    destruct (_ <? _)%nat eqn:Hlt.
    + rewrite length_drop. apply Nat.ltb_lt in Hlt. lia.
    + apply Nat.ltb_ge in Hlt. exact Hlt.
  - rewrite lookup_insert_ne by exact Hne. apply H.
Qed.

(** The backoff of the adaptive client stays bounded.  Whatever the
    history of successes and errors of a client, on whatever endpoints, its
    backoff multiplier is 1, 2, 4 or 8; the delay it adds before a request
    is therefore none, or between 2 and 5 seconds; and it keeps at most the
    ten latest response times of an endpoint. *)
Theorem adaptive_backoff_stays_bounded (history : list Recorded) :
  let c := fold_left record history Patterns.newClient in
  (Patterns.backoffMultiplier c == 1 \/ Patterns.backoffMultiplier c == 2 \/
   Patterns.backoffMultiplier c == 4 \/ Patterns.backoffMultiplier c == 8)%Q /\
  match Patterns.adaptiveDelay c with
  | Some delay => (2000 <= delay)%Q /\ (delay <= 5000)%Q
  | None => (Patterns.backoffMultiplier c == 1)%Q
  end /\
  (forall endpoint times, Patterns.responseTimesMs c !! endpoint = Some times ->
     (length times <= 10)%nat).
Proof.
  assert (G : forall history c,
            (Patterns.backoffMultiplier c == 1 \/ Patterns.backoffMultiplier c == 2 \/
             Patterns.backoffMultiplier c == 4 \/ Patterns.backoffMultiplier c == 8)%Q ->
            (forall endpoint times, Patterns.responseTimesMs c !! endpoint = Some times ->
               (length times <= Patterns.maxResponseTimes)%nat) ->
            (Patterns.backoffMultiplier (fold_left record history c) == 1 \/
             Patterns.backoffMultiplier (fold_left record history c) == 2 \/
             Patterns.backoffMultiplier (fold_left record history c) == 4 \/
             Patterns.backoffMultiplier (fold_left record history c) == 8)%Q /\
            (forall endpoint times,
               Patterns.responseTimesMs (fold_left record history c) !! endpoint = Some times ->
               (length times <= Patterns.maxResponseTimes)%nat)).
  { clear history. induction history as [|r rest IH]; intros c Hm Hs; [split; assumption|].
    simpl. apply IH; [apply record_keeps_multiplier, Hm | apply record_keeps_samples, Hs]. }
  intros c. destruct (G history Patterns.newClient) as [Hm Hs].
  { left. reflexivity. }
  { intros endpoint times H. simpl in H. rewrite lookup_empty in H. discriminate. }
  fold c in Hm, Hs. split; [exact Hm|]. split; [|exact Hs].
  unfold Patterns.adaptiveDelay. destruct (Js.gt (Patterns.backoffMultiplier c) 1) eqn:Hgt.
  - apply Js_lt_spec in Hgt.
    destruct (min_cases (1000 * Patterns.backoffMultiplier c) 5000) as [[Hle ->]|[Hlt ->]];
      destruct Hm as [H|[H|[H|H]]]; rewrite H in *; split; lra.
  - destruct Hm as [H|[H|[H|H]]]; [exact H | | |];
      exfalso; apply not_true_iff_false in Hgt; apply Hgt, Js_lt_spec; rewrite H; reflexivity.
Qed.

(** ** Request deduplication *)

(** [cleanup] is invisible to callers.  It removes exactly the entries
    that have expired, which no call made from then on would have been
    served from: a call to [deduplicate] made at or after the time of a
    cleanup gets what it would have got without the cleanup. *)
Theorem cleanup_is_invisible
    (T : Type) (s : Patterns.RequestDeduplicationService T) (key : string)
    (now later : Z) (promise : nat) :
  now <= later ->
  snd (Patterns.deduplicate key later promise (Patterns.cleanup now s))
    = snd (Patterns.deduplicate key later promise s) /\
  (forall k cached,
     Patterns.dedupCache (Patterns.cleanup now s) !! k = Some cached <->
     Patterns.dedupCache s !! k = Some cached /\ now < Patterns.expiresAt cached).
Proof.
  intros Hle.
  assert (Hf : forall k cached,
            Patterns.dedupCache (Patterns.cleanup now s) !! k = Some cached <->
            Patterns.dedupCache s !! k = Some cached /\ now < Patterns.expiresAt cached).
  { intros k cached. unfold Patterns.cleanup. simpl.
    rewrite map_lookup_filter_Some. simpl. rewrite Z.ltb_lt. reflexivity. }
  split; [|exact Hf].
  assert (Hfresh : Patterns.fresh (Patterns.dedupCache (Patterns.cleanup now s) !! key) later
                   = Patterns.fresh (Patterns.dedupCache s !! key) later).
  { destruct (Patterns.dedupCache (Patterns.cleanup now s) !! key) as [c|] eqn:Hc.
    - apply Hf in Hc. destruct Hc as [Hc _]. rewrite Hc. reflexivity.
    - destruct (Patterns.dedupCache s !! key) as [c|] eqn:Hs; [|reflexivity].
      simpl. destruct (Z.ltb_spec later (Patterns.expiresAt c)) as [Hlt|Hge]; [|reflexivity].
      exfalso. assert (Hin : Patterns.dedupCache (Patterns.cleanup now s) !! key = Some c)
        by (apply Hf; split; [exact Hs | lia]).
      congruence. }
  unfold Patterns.deduplicate. rewrite Hfresh. clear Hfresh.
  destruct (Patterns.fresh (Patterns.dedupCache s !! key) later); [reflexivity|].
  change (Patterns.pendingRequests (Patterns.cleanup now s)) with (Patterns.pendingRequests s).
  destruct (Patterns.pendingRequests s !! key); reflexivity.
Qed.

(** A reading kept until 40000 survives a cleanup at 35000 and is served
    at 36000. *)
Lemma fresh_entry_survives_cleanup :
  snd (Patterns.deduplicate "boston" 36000 0 (Patterns.cleanup 35000 remembering))
    = snd (Patterns.deduplicate "boston" 36000 0 remembering).
Proof.
  exact (proj1 (cleanup_is_invisible Q remembering "boston" 35000 36000 0 ltac:(lia))).
Defined.

(** ** The cron job of the scheduler *)

(** The scheduler never runs two cron jobs.  Whatever the history of
    calls of [start] and [stop], it holds at most one scheduled task, the
    one its [job] field names: a second [start] schedules nothing, and
    [stop] leaves no task behind. *)
Theorem at_most_one_cron_job (calls : list bool) :
  Cron.scheduled (switched calls) =
    match Cron.job (switched calls) with
    | Some j => [j]
    | None => []
    end /\
  (length (Cron.scheduled (switched calls)) <= 1)%nat.
Proof.
  assert (G : forall calls s,
            Cron.scheduled s = match Cron.job s with Some j => [j] | None => [] end ->
            let s' := fold_left (fun s (flag : bool) => if flag then Cron.start s else Cron.stop s) calls s in
            Cron.scheduled s' = match Cron.job s' with Some j => [j] | None => [] end).
  { clear calls. induction calls as [|flag rest IH]; intros s Hs; [exact Hs|].
    simpl. apply IH. destruct flag.
    - unfold Cron.start. destruct (Cron.job s) as [j|] eqn:Hj.
      + rewrite Hj. exact Hs.
      + simpl. rewrite Hs. reflexivity.
    - unfold Cron.stop. destruct (Cron.job s) as [j|] eqn:Hj.
      + simpl. rewrite Hs. simpl. rewrite Nat.eqb_refl. reflexivity.
      + rewrite Hj. exact Hs. }
  pose proof (G calls Cron.create eq_refl) as H. simpl in H. fold (switched calls) in H.
  split; [exact H|]. rewrite H. destruct (Cron.job (switched calls)); simpl; lia.
Qed.
